(** * Hyperdrive configs: the five operations of [hyperdrive.go]

    A shallow embedding of [hyperdrive.go] (package [cloudflare]) and the
    properties its specification states.

    Layout:
    - [Json]: the JSON texts the file exchanges with the service: their
      grammar, the encoder and the decoder of the package the file imports,
      and the rules of the decoder stated on documents;
    - the data model of [hyperdrive.go] (structs, sentinel errors) and the
      struct tags;
    - the API client the operations delegate to, as an interface with an
      explicit call trace;
    - the five operations, written in the order of the source;
    - the decoder and the grammar: on a text of the grammar the decoder
      gives what the rules on documents give;
    - the properties. *)

From Stdlib Require Import String Ascii List ZArith Bool Lia.
From Stdlib Require Import DecimalString.
From Stdlib Require DecimalFacts DecimalPos DecimalZ.
Import ListNotations.

#[local] Set Warnings "-register-all".

Local Open Scope string_scope.
Local Open Scope Z_scope.

(** Go's [string] and [[]byte] are both sequences of bytes; both are modelled
    by [string], a sequence of 8-bit characters. *)

Definition dq : ascii := "034"%char.

(** JSON texts are written below with ['] where the text has a double quote. *)
Fixpoint q (s : string) : string :=
  match s with
  | EmptyString => EmptyString
  | String c r => String (if Ascii.eqb c "'"%char then dq else c) (q r)
  end.

(** The package [json] of the import list, [github.com/goccy/go-json], is a
    library, not a file of the repository. [Json] is a model of the part of
    it the operations use:
    - the grammar of JSON texts ([parse]): what a JSON text is. The decoder
      does not go through it;
    - the encoder: the compact form, the escapes of strings, and
      [omitempty], which leaves out an empty string, a zero number and a
      nil pointer;
    - the decoder ([Unmarshal]), which reads the text from left to right
      and fills the Go value as it goes. A member is matched to a field by
      its tag, letter case ignored; the value of a member no field matches
      is passed over, not checked; [null] leaves a value as it is and
      sets a pointer or a slice to nil; a value of the wrong kind is an
      error; an integer is added up digit by digit in 64 bits, and refused
      when it has more than 19 digits. Keys and the strings of string
      fields are read by the grammar of strings.
    The limit of the package on the depth of nesting is left out. *)
Module Json.

(** ** Documents *)

(** A numeric literal without fraction and exponent is an integer; any other
    literal is kept as it is written (no field of [hyperdrive.go] has a
    floating-point type). *)
Inductive number : Type :=
| NInt (z : Z)
| NLit (lit : string).

Inductive json : Type :=
| JNull
| JBool (b : bool)
| JNum (n : number)
| JStr (s : string)
| JArr (elems : list json)
| JObj (members : list (string * json)).

(** The two errors of the decoder: the text is not JSON, or a JSON value
    does not fit the Go type of the field it is decoded into. *)
Inductive JSONError : Type :=
| SyntaxError
| UnmarshalTypeError (value : string) (field : string).

(** ** Text to document *)

Definition is_ws (c : ascii) : bool :=
  match nat_of_ascii c with
  | 32%nat | 9%nat | 10%nat | 13%nat => true
  | _ => false
  end.

Fixpoint skip_ws (s : string) : string :=
  match s with
  | String c r => if is_ws c then skip_ws r else s
  | EmptyString => s
  end.

Definition is_digit (c : ascii) : bool :=
  ((48 <=? nat_of_ascii c) && (nat_of_ascii c <=? 57))%nat.

Fixpoint span_digits (s : string) : string * string :=
  match s with
  | String c r =>
      if is_digit c then let (ds, r') := span_digits r in (String c ds, r')
      else (EmptyString, s)
  | EmptyString => (EmptyString, EmptyString)
  end.

(** Integer part: one or more digits, no leading zero. *)
Definition lex_int_part (s : string) : option (string * string) :=
  match span_digits s with
  | (EmptyString, _) => None
  | (String "0" (String _ _), _) => None
  | (ds, r) => Some (ds, r)
  end.

(** Optional fraction: [.] and one or more digits. *)
Definition lex_frac (s : string) : option (string * string) :=
  match s with
  | String "." r =>
      match span_digits r with
      | (EmptyString, _) => None
      | (ds, r') => Some (String "." ds, r')
      end
  | _ => Some (EmptyString, s)
  end.

(** Optional exponent: [e] or [E], an optional sign, one or more digits. *)
Definition lex_exp (s : string) : option (string * string) :=
  match s with
  | String c r =>
      if Ascii.eqb c "e" || Ascii.eqb c "E" then
        let (sg, r1) :=
          match r with
          | String "+" r1 => ("+", r1)
          | String "-" r1 => ("-", r1)
          | _ => (EmptyString, r)
          end in
        match span_digits r1 with
        | (EmptyString, _) => None
        | (ds, r') => Some (String c (sg ++ ds), r')
        end
      else Some (EmptyString, s)
  | EmptyString => Some (EmptyString, s)
  end.

Definition lex_sign (s : string) : bool * string :=
  match s with
  | String "-" r => (true, r)
  | _ => (false, s)
  end.

Definition lex_number (s : string) : option (number * string) :=
  let (neg, s1) := lex_sign s in
  match lex_int_part s1 with
  | None => None
  | Some (ds, r1) =>
      match lex_frac r1 with
      | None => None
      | Some (fr, r2) =>
          match lex_exp r2 with
          | None => None
          | Some (ex, r3) =>
              match fr, ex with
              | EmptyString, EmptyString =>
                  match NilZero.uint_of_string ds with
                  | Some u =>
                      Some (NInt (if neg then - Z.of_uint u else Z.of_uint u), r3)
                  | None => None
                  end
              | _, _ =>
                  Some (NLit ((if neg then "-" else "") ++ ds ++ fr ++ ex), r3)
              end
          end
      end
  end.

(** *** Strings *)

Definition hex_val (c : ascii) : option N :=
  let n := N_of_ascii c in
  if ((48 <=? n) && (n <=? 57))%N then Some (n - 48)%N
  else if ((97 <=? n) && (n <=? 102))%N then Some (n - 87)%N
  else if ((65 <=? n) && (n <=? 70))%N then Some (n - 55)%N
  else None.

(** [getu4]: the code unit of four hexadecimal digits. *)
Definition getu4 (a b c d : ascii) : option N :=
  match hex_val a, hex_val b, hex_val c, hex_val d with
  | Some x, Some y, Some z, Some w => Some (x * 4096 + y * 256 + z * 16 + w)%N
  | _, _, _, _ => None
  end.

Definition byte_of (n : N) : ascii := ascii_of_N (n mod 256).

(** UTF-8 encoding of a code point. *)
Definition utf8 (r : N) : string :=
  if (r <? 128)%N then String (byte_of r) EmptyString
  else if (r <? 2048)%N then
    String (byte_of (192 + r / 64))
      (String (byte_of (128 + r mod 64)) EmptyString)
  else if (r <? 65536)%N then
    String (byte_of (224 + r / 4096))
      (String (byte_of (128 + (r / 64) mod 64))
         (String (byte_of (128 + r mod 64)) EmptyString))
  else
    String (byte_of (240 + r / 262144))
      (String (byte_of (128 + (r / 4096) mod 64))
         (String (byte_of (128 + (r / 64) mod 64))
            (String (byte_of (128 + r mod 64)) EmptyString))).

Definition replacement_char : N := 65533.

Definition is_surrogate (r : N) : bool := ((55296 <=? r) && (r <? 57344))%N.

(** [utf16.DecodeRune]: a high surrogate followed by a low one. *)
Definition decode_pair (r1 r2 : N) : option N :=
  if ((55296 <=? r1) && (r1 <? 56320) && (56320 <=? r2) && (r2 <? 57344))%N
  then Some ((r1 - 55296) * 1024 + (r2 - 56320) + 65536)%N
  else None.

Definition simple_escape (c : ascii) : option ascii :=
  match nat_of_ascii c with
  | 34%nat => Some dq
  | 92%nat => Some "\"%char
  | 47%nat => Some "/"%char
  | 98%nat => Some "008"%char
  | 102%nat => Some "012"%char
  | 110%nat => Some "010"%char
  | 114%nat => Some "013"%char
  | 116%nat => Some "009"%char
  | _ => None
  end.

(** The string after its opening quote: its content, unescaped, and the text
    after the closing quote. Bytes from 128 up are copied as they are. *)
Fixpoint lex_string (s : string) : option (string * string) :=
  match s with
  | EmptyString => None
  | String c r =>
      if Ascii.eqb c dq then Some (EmptyString, r)
      else if Ascii.eqb c "\" then
        match r with
        | String "u" (String h1 (String h2 (String h3 (String h4 r4)))) =>
            match getu4 h1 h2 h3 h4 with
            | None => None
            | Some u =>
                if is_surrogate u then
                  match r4 with
                  | String "\" (String "u"
                      (String k1 (String k2 (String k3 (String k4 r8))))) =>
                      match getu4 k1 k2 k3 k4 with
                      | Some u2 =>
                          match decode_pair u u2 with
                          | Some p =>
                              option_map (fun '(t, rest) => (utf8 p ++ t, rest))
                                (lex_string r8)
                          | None =>
                              option_map
                                (fun '(t, rest) => (utf8 replacement_char ++ t, rest))
                                (lex_string r4)
                          end
                      | None =>
                          option_map
                            (fun '(t, rest) => (utf8 replacement_char ++ t, rest))
                            (lex_string r4)
                      end
                  | _ =>
                      option_map
                        (fun '(t, rest) => (utf8 replacement_char ++ t, rest))
                        (lex_string r4)
                  end
                else
                  option_map (fun '(t, rest) => (utf8 u ++ t, rest)) (lex_string r4)
            end
        | String e r1 =>
            match simple_escape e with
            | Some x => option_map (fun '(t, rest) => (String x t, rest)) (lex_string r1)
            | None => None
            end
        | EmptyString => None
        end
      else if (nat_of_ascii c <? 32)%nat then None
      else option_map (fun '(t, rest) => (String c t, rest)) (lex_string r)
  end.

(** *** Values *)

(** The text after the literal, when the text starts with it. *)
Fixpoint strip_prefix (lit s : string) : option string :=
  match lit with
  | EmptyString => Some s
  | String a l =>
      match s with
      | String b r => if Ascii.eqb a b then strip_prefix l r else None
      | EmptyString => None
      end
  end.

Definition expect (lit : string) (v : json) (s : string) : option (json * string) :=
  option_map (fun rest => (v, rest)) (strip_prefix lit s).

(** Recursive descent. The fuel bounds the chain of calls in progress; a
    chain opens at most two calls for a bracket it has read and one for a
    member or an element it has passed, so it is never longer than the text,
    and [parse] gives the length of the text plus one. *)
Fixpoint parse_value (fuel : nat) (s : string) {struct fuel}
  : option (json * string) :=
  match fuel with
  | O => None
  | S f =>
      match skip_ws s with
      | EmptyString => None
      | String c r =>
          if Ascii.eqb c "{" then
            match skip_ws r with
            | String "}" r' => Some (JObj [], r')
            | r' => option_map (fun '(ms, rest) => (JObj ms, rest)) (parse_members f r')
            end
          else if Ascii.eqb c "[" then
            match skip_ws r with
            | String "]" r' => Some (JArr [], r')
            | r' => option_map (fun '(es, rest) => (JArr es, rest)) (parse_elements f r')
            end
          else if Ascii.eqb c dq then
            option_map (fun '(t, rest) => (JStr t, rest)) (lex_string r)
          else if Ascii.eqb c "t" then expect "true" (JBool true) (String c r)
          else if Ascii.eqb c "f" then expect "false" (JBool false) (String c r)
          else if Ascii.eqb c "n" then expect "null" JNull (String c r)
          else option_map (fun '(n, rest) => (JNum n, rest)) (lex_number (String c r))
      end
  end

with parse_members (fuel : nat) (s : string) {struct fuel}
  : option (list (string * json) * string) :=
  match fuel with
  | O => None
  | S f =>
      match s with
      | String c r =>
          if Ascii.eqb c dq then
            match lex_string r with
            | None => None
            | Some (k, r1) =>
                match skip_ws r1 with
                | String ":" r2 =>
                    match parse_value f r2 with
                    | None => None
                    | Some (v, r3) =>
                        match skip_ws r3 with
                        | String "," r4 =>
                            option_map (fun '(ms, rest) => ((k, v) :: ms, rest))
                              (parse_members f (skip_ws r4))
                        | String "}" r4 => Some ([(k, v)], r4)
                        | _ => None
                        end
                    end
                | _ => None
                end
            end
          else None
      | EmptyString => None
      end
  end

with parse_elements (fuel : nat) (s : string) {struct fuel}
  : option (list json * string) :=
  match fuel with
  | O => None
  | S f =>
      match parse_value f s with
      | None => None
      | Some (v, r1) =>
          match skip_ws r1 with
          | String "," r2 =>
              option_map (fun '(es, rest) => (v :: es, rest)) (parse_elements f r2)
          | String "]" r2 => Some ([v], r2)
          | _ => None
          end
      end
  end.

(** A text is one value, surrounded by white space only. *)
Definition parse (s : string) : option json :=
  match parse_value (S (String.length s)) s with
  | Some (v, r) =>
      match skip_ws r with
      | EmptyString => Some v
      | _ => None
      end
  | None => None
  end.

(** ** Document to text *)

Definition hex_digit (n : N) : ascii :=
  if (n <? 10)%N then ascii_of_N (48 + n) else ascii_of_N (87 + n).

(** The escapes of the encoder for a byte below 128: quote and backslash,
    the short forms of line feed, carriage return and tab, and [\u00XX] for
    the other control characters and for [<], [>] and [&]. *)
Definition escape_char (c : ascii) : string :=
  let n := N_of_ascii c in
  if (n =? 34)%N then String "\" (String dq EmptyString)
  else if (n =? 92)%N then "\\"
  else if (n =? 10)%N then "\n"
  else if (n =? 13)%N then "\r"
  else if (n =? 9)%N then "\t"
  else if ((n <? 32) || (n =? 60) || (n =? 62) || (n =? 38))%N then
    "\u00" ++ String (hex_digit (n / 16)) (String (hex_digit (n mod 16)) EmptyString)
  else String c EmptyString.

Definition between (lo hi : N) (c : ascii) : bool :=
  ((lo <=? N_of_ascii c) && (N_of_ascii c <=? hi))%N.
Arguments between (lo hi)%_N c.

Definition continuation (c : ascii) : bool := between 128 191 c.

Definition second (lo hi : N) (r : string) : bool :=
  match r with
  | String c1 _ => between lo hi c1
  | EmptyString => false
  end.
Arguments second (lo hi)%_N r.

Definition third (r : string) : bool :=
  match r with
  | String _ (String c2 _) => continuation c2
  | _ => false
  end.

Definition fourth (r : string) : bool :=
  match r with
  | String _ (String _ (String c3 _)) => continuation c3
  | _ => false
  end.

(** [utf8.DecodeRuneInString] at a byte from 128 up: the number of bytes of
    the character that starts with [c] and goes on in [r], and 0 when these
    bytes are not the UTF-8 form of a character (a stray continuation byte,
    a form longer than needed, a surrogate, a character above U+10FFFF, a
    form cut short). *)
Definition rune_width (c : ascii) (r : string) : nat :=
  if between 194 223 c then if second 128 191 r then 2%nat else 0%nat
  else if between 224 224 c then
    if second 160 191 r && third r then 3%nat else 0%nat
  else if between 225 236 c || between 238 239 c then
    if second 128 191 r && third r then 3%nat else 0%nat
  else if between 237 237 c then
    if second 128 159 r && third r then 3%nat else 0%nat
  else if between 240 240 c then
    if second 144 191 r && third r && fourth r then 4%nat else 0%nat
  else if between 241 243 c then
    if second 128 191 r && third r && fourth r then 4%nat else 0%nat
  else if between 244 244 c then
    if second 128 143 r && third r && fourth r then 4%nat else 0%nat
  else 0%nat.

(** U+2028 and U+2029, the line and paragraph separators: [E2 80 A8] and
    [E2 80 A9]. *)
Definition separator (c c1 c2 : ascii) : option string :=
  if Ascii.eqb c "226" && Ascii.eqb c1 "128" then
    if Ascii.eqb c2 "168" then Some "\u2028"
    else if Ascii.eqb c2 "169" then Some "\u2029"
    else None
  else None.

(** The content of a string as the encoder writes it: a byte below 128 by
    [escape_char]; a character of two to four bytes as it is, but for the
    two separators, written [\u2028] and [\u2029]; a byte that starts no
    character as [\ufffd], the encoder going on with the next byte. *)
Fixpoint escape (s : string) : string :=
  match s with
  | EmptyString => EmptyString
  | String c r =>
      if (N_of_ascii c <? 128)%N then escape_char c ++ escape r
      else
        match rune_width c r, r with
        | 2%nat, String c1 r1 => String c (String c1 (escape r1))
        | 3%nat, String c1 (String c2 r2) =>
            match separator c c1 c2 with
            | Some e => e ++ escape r2
            | None => String c (String c1 (String c2 (escape r2)))
            end
        | 4%nat, String c1 (String c2 (String c3 r3)) =>
            String c (String c1 (String c2 (String c3 (escape r3))))
        | _, _ => "\ufffd" ++ escape r
        end
  end.

Definition quote (s : string) : string :=
  String dq (escape s ++ String dq EmptyString).

Definition print_int (z : Z) : string := NilZero.string_of_int (Z.to_int z).

(** The compact form: no white space between tokens. *)
Fixpoint print (j : json) : string :=
  match j with
  | JNull => "null"
  | JBool true => "true"
  | JBool false => "false"
  | JNum (NInt z) => print_int z
  | JNum (NLit l) => l
  | JStr s => quote s
  | JArr es =>
      "[" ++
      (fix elems (l : list json) : string :=
         match l with
         | [] => ""
         | [e] => print e
         | e :: r => print e ++ "," ++ elems r
         end) es ++ "]"
  | JObj ms =>
      "{" ++
      (fix membs (l : list (string * json)) : string :=
         match l with
         | [] => ""
         | [(k, v)] => quote k ++ ":" ++ print v
         | (k, v) :: r => quote k ++ ":" ++ print v ++ "," ++ membs r
         end) ms ++ "}"
  end.

Fixpoint print_members (l : list (string * json)) : string :=
  match l with
  | [] => ""
  | [(k, v)] => quote k ++ ":" ++ print v
  | (k, v) :: r => quote k ++ ":" ++ print v ++ "," ++ print_members r
  end.

(** Go strings hold any bytes. The strings the encoder writes so that the
    decoder reads the same bytes back are the valid UTF-8 ones. *)
Fixpoint valid_utf8 (s : string) : bool :=
  match s with
  | EmptyString => true
  | String c r =>
      if (N_of_ascii c <? 128)%N then valid_utf8 r
      else
        match rune_width c r, r with
        | 2%nat, String _ r1 => valid_utf8 r1
        | 3%nat, String _ (String _ r2) => valid_utf8 r2
        | 4%nat, String _ (String _ (String _ r3)) => valid_utf8 r3
        | _, _ => false
        end
  end.

(** Characters the encoder writes as they are, and the decoder reads as
    they are. *)
Definition plain_char (c : ascii) : bool :=
  let n := N_of_ascii c in
  ((32 <=? n) && (n <? 128) && negb (n =? 34) && negb (n =? 92) && negb (n =? 60)
   && negb (n =? 62) && negb (n =? 38))%N.

Fixpoint plain (s : string) : bool :=
  match s with
  | EmptyString => true
  | String c r => plain_char c && plain r
  end.

(** The values of a flat object: literals and integers. *)
Definition scalar (v : json) : bool :=
  match v with
  | JNull | JBool _ | JNum (NInt _) => true
  | _ => false
  end.

(** The text goes on with the end of a member or of an element. *)
Definition closes (rest : string) : bool :=
  match rest with
  | String c _ => Ascii.eqb c "," || Ascii.eqb c "}" || Ascii.eqb c "]"
  | EmptyString => false
  end.

Definition flat_member (kv : string * json) : bool :=
  plain (fst kv) && scalar (snd kv).

(** ** Go values *)

Inductive res (A : Type) : Type :=
| Ok (a : A)
| Err (e : JSONError).
Arguments Ok {A} a.
Arguments Err {A} e.

Definition bind {A B : Type} (c : res A) (k : A -> res B) : res B :=
  match c with
  | Ok a => k a
  | Err e => Err e
  end.

Declare Scope res_scope.
Delimit Scope res_scope with res.
Notation "x <- c ;; k" := (bind c (fun x => k))
  (at level 61, c at next level, right associativity) : res_scope.
Local Open Scope res_scope.

Definition kind_of (j : json) : string :=
  match j with
  | JNull => "null"
  | JBool _ => "bool"
  | JNum _ => "number"
  | JStr _ => "string"
  | JArr _ => "array"
  | JObj _ => "object"
  end.

(** Go's [int] is modelled by [Z]; it is 64 bits wide on the platforms the
    package builds for, and its arithmetic wraps around. No operation of
    [hyperdrive.go] computes with an [int]; the decoder does. *)
Definition int_ok (z : Z) : bool := (- 2 ^ 63 <=? z) && (z <? 2 ^ 63).

Definition wrap64 (z : Z) : Z := (z + 2 ^ 63) mod 2 ^ 64 - 2 ^ 63.

Definition lower_ascii (c : ascii) : ascii :=
  let n := nat_of_ascii c in
  if ((65 <=? n) && (n <=? 90))%nat then ascii_of_nat (n + 32) else c.

Fixpoint lower (s : string) : string :=
  match s with
  | EmptyString => EmptyString
  | String c r => String (lower_ascii c) (lower r)
  end.

(** A member's key selects the field whose tag it equals, letter case
    ignored (ASCII letters). *)
Definition is_field (tag key : string) : bool := String.eqb (lower key) tag.

(** ** The decoder *)

(** The decoder reads the text from left to right and fills the Go value as
    it goes: it looks at the first byte of a value to choose what to do with
    it, decodes the value of a member whose key selects a field by the type
    of the field, and passes over the value of any other member without
    checking it against the grammar. It stops at the first thing it cannot
    take. A decoder is given the text that starts with the value and the
    Go value as it is; it gives the Go value as it becomes and the text
    after the value. *)
Definition decoder (T : Type) : Type := string -> T -> res (T * string).

Definition into {A B : Type} (c : res (A * string)) (f : A -> B)
  : res (B * string) :=
  match c with
  | Ok (x, rest) => Ok (f x, rest)
  | Err e => Err e
  end.

Definition found (r : option string) : res (unit * string) :=
  match r with
  | Some rest => Ok (tt, rest)
  | None => Err SyntaxError
  end.

(** [null], checked letter by letter. *)
Definition read_null (s : string) : res (unit * string) :=
  found (strip_prefix "null" s).

(** *** Passing over a value *)

Definition nul : ascii := "000"%char.

(** The bytes a number is taken to go on with. *)
Definition is_float_char (c : ascii) : bool :=
  is_digit c || Ascii.eqb c "." || Ascii.eqb c "e" || Ascii.eqb c "E"
  || Ascii.eqb c "+" || Ascii.eqb c "-".

Fixpoint skip_float (s : string) : string :=
  match s with
  | String c r => if is_float_char c then skip_float r else s
  | EmptyString => s
  end.

(** A string, after its opening quote: up to the next quote that no
    backslash precedes. A backslash takes the byte after it along, whatever
    it is. The buffer ends with a zero byte, which ends the search. *)
Fixpoint skip_string (s : string) : option string :=
  match s with
  | EmptyString => None
  | String c r =>
      if Ascii.eqb c "\" then
        match r with
        | String e r' => if Ascii.eqb e nul then None else skip_string r'
        | EmptyString => None
        end
      else if Ascii.eqb c dq then Some r
      else if Ascii.eqb c nul then None
      else skip_string r
  end.

Inductive scan_mode : Type :=
| Plain
| InString
| Escaped.

(** An object or an array, after its opening bracket: the brackets of its
    own kind are counted, strings are passed over as above, every other byte
    is let through. [count] is the number of brackets still open inside. *)
Fixpoint scan (opening closing : ascii) (m : scan_mode) (count : nat) (s : string)
  : option string :=
  match s with
  | EmptyString => None
  | String c r =>
      match m with
      | Plain =>
          if Ascii.eqb c opening then scan opening closing Plain (S count) r
          else if Ascii.eqb c closing then
            match count with
            | O => Some r
            | S k => scan opening closing Plain k r
            end
          else if Ascii.eqb c dq then scan opening closing InString count r
          else if Ascii.eqb c nul then None
          else scan opening closing Plain count r
      | InString =>
          if Ascii.eqb c "\" then scan opening closing Escaped count r
          else if Ascii.eqb c dq then scan opening closing Plain count r
          else if Ascii.eqb c nul then None
          else scan opening closing InString count r
      | Escaped =>
          if Ascii.eqb c nul then None
          else scan opening closing InString count r
      end
  end.

(** [skipValue]: the value of a member no field takes. *)
Definition skip_value (s : string) : res (unit * string) :=
  match skip_ws s with
  | EmptyString => Err SyntaxError
  | String c r =>
      if Ascii.eqb c "{" then found (scan "{" "}" Plain 0 r)
      else if Ascii.eqb c "[" then found (scan "[" "]" Plain 0 r)
      else if Ascii.eqb c dq then found (skip_string r)
      else if is_digit c || Ascii.eqb c "-" then Ok (tt, skip_float r)
      else if Ascii.eqb c "t" then found (strip_prefix "true" (String c r))
      else if Ascii.eqb c "f" then found (strip_prefix "false" (String c r))
      else if Ascii.eqb c "n" then found (strip_prefix "null" (String c r))
      else Err SyntaxError
  end.

(** *** Strings, numbers, pointers to booleans *)

(** A JSON [null] leaves a string, a number and a struct as they are and
    sets a pointer and a slice to nil. [field] is the name of the Go field,
    for the error. *)
Definition read_string (field : string) : decoder string :=
  fun s cur =>
    match skip_ws s with
    | EmptyString => Err SyntaxError
    | String c r =>
        if Ascii.eqb c dq then
          match lex_string r with
          | Some (t, rest) => Ok (t, rest)
          | None => Err SyntaxError
          end
        else if Ascii.eqb c "n" then into (read_null (String c r)) (fun _ => cur)
        else if Ascii.eqb c "[" then Err (UnmarshalTypeError "array" field)
        else if Ascii.eqb c "{" then Err (UnmarshalTypeError "object" field)
        else if is_digit c || Ascii.eqb c "-" then
          Err (UnmarshalTypeError "number" field)
        else Err SyntaxError
    end.

Definition digit_value (c : ascii) : Z := Z.of_nat (nat_of_ascii c) - 48.

(** The loop of [parseInt]: each digit times its power of ten, added up in
    an [int64]. *)
Fixpoint sum_digits (b : string) (sum : Z) : Z :=
  match b with
  | EmptyString => sum
  | String c r =>
      sum_digits r (wrap64 (sum + digit_value c * 10 ^ Z.of_nat (String.length r)))
  end.

(** [parseInt]: the digits after the sign. Up to 19 digits are added up,
    whether the sum fits or not; more are refused. *)
Definition parseInt (neg : bool) (b : string) : option Z :=
  if (19 <? String.length b)%nat then None
  else
    let sum := sum_digits b 0 in
    Some (if neg then wrap64 (- sum) else sum).

(** A number into an [int]: [0] alone, or a sign or a digit and the digits
    that follow; a fraction or an exponent is left in the text, for the
    caller to stumble on. *)
Definition read_int (field : string) : decoder Z :=
  fun s cur =>
    match skip_ws s with
    | EmptyString => Err SyntaxError
    | String c r =>
        if Ascii.eqb c "0" then Ok (0, r)
        else if is_digit c || Ascii.eqb c "-" then
          let (ds, rest) := span_digits r in
          let neg := Ascii.eqb c "-" in
          let b := if neg then ds else String c ds in
          match parseInt neg b with
          | Some z => Ok (z, rest)
          | None => Err (UnmarshalTypeError ("number " ++ String c ds) field)
          end
        else if Ascii.eqb c "n" then into (read_null (String c r)) (fun _ => cur)
        else Err (UnmarshalTypeError ("number " ++ String c EmptyString) field)
    end.

(** [*bool]: [None] is the nil pointer. *)
Definition read_bool_ptr : decoder (option bool) :=
  fun s cur =>
    match skip_ws s with
    | EmptyString => Err SyntaxError
    | String c r =>
        if Ascii.eqb c "n" then into (read_null (String c r)) (fun _ => None)
        else if Ascii.eqb c "t" then
          into (found (strip_prefix "true" (String c r))) (fun _ => Some true)
        else if Ascii.eqb c "f" then
          into (found (strip_prefix "false" (String c r))) (fun _ => Some false)
        else Err SyntaxError
    end.

(** *** Structs and slices *)

(** The members of an object, one after the other: the key, the colon, the
    value, then a comma or the closing brace. [field] gives the decoder of
    the field a key selects, if any. The fuel is the length of the text: a
    member takes more than one byte. *)
Fixpoint read_members {T : Type} (field : string -> option (decoder T))
  (fuel : nat) (s : string) (cur : T) {struct fuel} : res (T * string) :=
  match fuel with
  | O => Err SyntaxError
  | S f =>
      match skip_ws s with
      | EmptyString => Err SyntaxError
      | String c r =>
          if Ascii.eqb c dq then
            match lex_string r with
            | None => Err SyntaxError
            | Some (k, r1) =>
                match skip_ws r1 with
                | EmptyString => Err SyntaxError
                | String c2 r2 =>
                    if Ascii.eqb c2 ":" then
                      match
                        match field k with
                        | Some dec => dec r2 cur
                        | None => into (skip_value r2) (fun _ => cur)
                        end
                      with
                      | Err e => Err e
                      | Ok (x, r3) =>
                          match skip_ws r3 with
                          | EmptyString => Err SyntaxError
                          | String c4 r4 =>
                              if Ascii.eqb c4 "}" then Ok (x, r4)
                              else if Ascii.eqb c4 "," then read_members field f r4 x
                              else Err SyntaxError
                          end
                      end
                    else Err SyntaxError
                end
            end
          else Err SyntaxError
      end
  end.

Definition read_struct {T : Type} (field : string -> option (decoder T))
  : decoder T :=
  fun s cur =>
    match skip_ws s with
    | EmptyString => Err SyntaxError
    | String c r =>
        if Ascii.eqb c "{" then
          match skip_ws r with
          | EmptyString => Err SyntaxError
          | String c1 r1 =>
              if Ascii.eqb c1 "}" then Ok (cur, r1)
              else read_members field (S (String.length r1)) (String c1 r1) cur
          end
        else if Ascii.eqb c "n" then into (read_null (String c r)) (fun _ => cur)
        else Err SyntaxError
    end.

(** The elements of an array, each decoded into a fresh value. *)
Fixpoint read_elems {T : Type} (dec : decoder T) (zero : T) (fuel : nat)
  (s : string) {struct fuel} : res (list T * string) :=
  match fuel with
  | O => Err SyntaxError
  | S f =>
      match dec s zero with
      | Err e => Err e
      | Ok (x, r1) =>
          match skip_ws r1 with
          | EmptyString => Err SyntaxError
          | String c2 r2 =>
              if Ascii.eqb c2 "]" then Ok ([x], r2)
              else if Ascii.eqb c2 "," then into (read_elems dec zero f r2) (cons x)
              else Err SyntaxError
          end
      end
  end.

(** A slice is [None] when nil and [Some l] otherwise. *)
Definition read_slice {T : Type} (field : string) (dec : decoder T) (zero : T)
  : decoder (option (list T)) :=
  fun s cur =>
    match skip_ws s with
    | EmptyString => Err SyntaxError
    | String c r =>
        if Ascii.eqb c "[" then
          match skip_ws r with
          | EmptyString => Err SyntaxError
          | String c1 r1 =>
              if Ascii.eqb c1 "]" then Ok (Some [], r1)
              else
                into (read_elems dec zero (S (String.length r1)) (String c1 r1)) Some
          end
        else if Ascii.eqb c "n" then into (read_null (String c r)) (fun _ => None)
        else if is_digit c || Ascii.eqb c "-" then
          Err (UnmarshalTypeError "number" field)
        else Err SyntaxError
    end.

(** [json.Unmarshal(data, &v)]: the value is decoded from the start of the
    text; what follows it must be white space. *)
Definition Unmarshal {T : Type} (dec : decoder T) (data : string) (v : T)
  : res T :=
  match dec data v with
  | Err e => Err e
  | Ok (x, rest) =>
      match skip_ws rest with
      | EmptyString => Ok x
      | _ => Err SyntaxError
      end
  end.

(** ** What a document means for a Go value *)

(** The same rules, stated on documents: what the value of a member does to
    the field its key selects. On a text of the grammar the decoder above
    gives what these rules give for the document of the text; this is
    proved below, and is how the properties of encoded values are shown. *)

(** Up to 19 digits. *)
Definition digits_ok (z : Z) : bool := Z.abs z <? 10 ^ 19.

Definition decode_string (field : string) (j : json) (cur : string) : res string :=
  match j with
  | JStr s => Ok s
  | JNull => Ok cur
  | _ => Err (UnmarshalTypeError (kind_of j) field)
  end.

Definition decode_int (field : string) (j : json) (cur : Z) : res Z :=
  match j with
  | JNum (NInt z) =>
      if digits_ok z then Ok (wrap64 z) else Err (UnmarshalTypeError "number" field)
  | JNull => Ok cur
  | JNum (NLit _) => Err SyntaxError
  | _ => Err (UnmarshalTypeError (kind_of j) field)
  end.

Definition decode_bool_ptr (j : json) (cur : option bool) : res (option bool) :=
  match j with
  | JBool b => Ok (Some b)
  | JNull => Ok None
  | _ => Err SyntaxError
  end.

(** The members of an object are decoded in the order of the text, each into
    the value as the members before left it; a member no field matches is
    skipped. *)
Definition decode_members {T : Type} (set : string -> json -> T -> res T)
  (ms : list (string * json)) (cur : T) : res T :=
  fold_left (fun acc kv => v <- acc ;; set (fst kv) (snd kv) v) ms (Ok cur).

Definition decode_struct {T : Type} (set : string -> json -> T -> res T)
  (j : json) (cur : T) : res T :=
  match j with
  | JObj ms => decode_members set ms cur
  | JNull => Ok cur
  | _ => Err SyntaxError
  end.

Fixpoint decode_elems {T : Type} (dec : json -> res T) (es : list json)
  : res (list T) :=
  match es with
  | [] => Ok []
  | e :: r => x <- dec e ;; xs <- decode_elems dec r ;; Ok (x :: xs)
  end.

Definition decode_slice {T : Type} (field : string) (dec : json -> res T) (j : json)
  : res (option (list T)) :=
  match j with
  | JArr es => l <- decode_elems dec es ;; Ok (Some l)
  | JNull => Ok None
  | JNum _ => Err (UnmarshalTypeError "number" field)
  | _ => Err SyntaxError
  end.

(** ** Encoding of fields *)

(** A string or number field and its [omitempty] option. *)
Definition member_string (omitempty : bool) (tag s : string) : list (string * json) :=
  if omitempty && String.eqb s "" then [] else [(tag, JStr s)].

Definition member_int (omitempty : bool) (tag : string) (z : Z) : list (string * json) :=
  if omitempty && (z =? 0) then [] else [(tag, JNum (NInt z))].

Definition member_bool_ptr (omitempty : bool) (tag : string) (p : option bool)
  : list (string * json) :=
  match p with
  | Some b => [(tag, JBool b)]
  | None => if omitempty then [] else [(tag, JNull)]
  end.

End Json.

Import Json.

(** * The data model of [hyperdrive.go] *)

(** Each struct is a record in a module of its name, so that the fields keep
    the names they have in the source. *)

Module HyperdriveConfigOrigin.
Record t : Type := mk {
  Database : string;
  Host : string;
  Port : Z;
  Scheme : string;
  User : string
}.
Definition zero : t := mk "" "" 0 "" "".
End HyperdriveConfigOrigin.
Abbreviation HyperdriveConfigOrigin := HyperdriveConfigOrigin.t.

(** [Disabled *bool]: [None] is the nil pointer. *)
Module HyperdriveConfigCaching.
Record t : Type := mk {
  Disabled : option bool;
  MaxAge : Z;
  StaleWhileRevalidate : Z
}.
Definition zero : t := mk None 0 0.
End HyperdriveConfigCaching.
Abbreviation HyperdriveConfigCaching := HyperdriveConfigCaching.t.

Module HyperdriveConfig.
Record t : Type := mk {
  ID : string;
  Name : string;
  Origin : HyperdriveConfigOrigin;
  Caching : HyperdriveConfigCaching
}.
Definition zero : t :=
  mk "" "" HyperdriveConfigOrigin.zero HyperdriveConfigCaching.zero.
End HyperdriveConfig.
Abbreviation HyperdriveConfig := HyperdriveConfig.t.

Module CreateHyperdriveConfigParams.
Record t : Type := mk {
  Name : string;
  Password : string;
  Origin : HyperdriveConfigOrigin;
  Caching : HyperdriveConfigCaching
}.
End CreateHyperdriveConfigParams.
Abbreviation CreateHyperdriveConfigParams := CreateHyperdriveConfigParams.t.

Module UpdateHyperdriveConfigParams.
Record t : Type := mk {
  HyperdriveID : string;
  Name : string;
  Password : string;
  Origin : HyperdriveConfigOrigin;
  Caching : HyperdriveConfigCaching
}.
End UpdateHyperdriveConfigParams.
Abbreviation UpdateHyperdriveConfigParams := UpdateHyperdriveConfigParams.t.

(** [type ListHyperdriveConfigParams struct{}] *)
Definition ListHyperdriveConfigParams : Type := unit.

(** Modelled from the spec: [ResourceContainer], the account container, is
    declared in another file of the package; the operations read its
    identifier only. The operations take a pointer to it and read through it
    first of all; a nil pointer has no model here. *)
Record ResourceContainer : Type := { Identifier : string }.

(** What [hyperdrive.go] takes from the other files of package [cloudflare]:
    the embedded struct [Response] of the two envelopes, with the keys of its
    fields and what the value of a member with such a key does to it, and the
    two message prefixes. *)
Class Package : Type := {
  Response : Type;
  Response_zero : Response;
  Response_key : string -> bool;
  Response_set : string -> json -> Response -> res Response;
  errUnmarshalError : string;
  errMakeRequestError : string
}.

(** ** Struct tags: decoding *)

(** For each struct, the decoder of the field a key selects; the name given
    to the decoder of a field is the name of the field in Go. *)
Section Decoding.
Local Open Scope res_scope.

Definition field_HyperdriveConfigOrigin (k : string)
  : option (decoder HyperdriveConfigOrigin) :=
  if is_field "database" k then
    Some (fun s o =>
            let '(HyperdriveConfigOrigin.mk database host port scheme user) := o in
            into (read_string "Database" s database)
              (fun x => HyperdriveConfigOrigin.mk x host port scheme user))
  else if is_field "host" k then
    Some (fun s o =>
            let '(HyperdriveConfigOrigin.mk database host port scheme user) := o in
            into (read_string "Host" s host)
              (fun x => HyperdriveConfigOrigin.mk database x port scheme user))
  else if is_field "port" k then
    Some (fun s o =>
            let '(HyperdriveConfigOrigin.mk database host port scheme user) := o in
            into (read_int "Port" s port)
              (fun x => HyperdriveConfigOrigin.mk database host x scheme user))
  else if is_field "scheme" k then
    Some (fun s o =>
            let '(HyperdriveConfigOrigin.mk database host port scheme user) := o in
            into (read_string "Scheme" s scheme)
              (fun x => HyperdriveConfigOrigin.mk database host port x user))
  else if is_field "user" k then
    Some (fun s o =>
            let '(HyperdriveConfigOrigin.mk database host port scheme user) := o in
            into (read_string "User" s user)
              (fun x => HyperdriveConfigOrigin.mk database host port scheme x))
  else None.

Definition field_HyperdriveConfigCaching (k : string)
  : option (decoder HyperdriveConfigCaching) :=
  if is_field "disabled" k then
    Some (fun s c =>
            let '(HyperdriveConfigCaching.mk disabled max_age swr) := c in
            into (read_bool_ptr s disabled)
              (fun x => HyperdriveConfigCaching.mk x max_age swr))
  else if is_field "max_age" k then
    Some (fun s c =>
            let '(HyperdriveConfigCaching.mk disabled max_age swr) := c in
            into (read_int "MaxAge" s max_age)
              (fun x => HyperdriveConfigCaching.mk disabled x swr))
  else if is_field "stale_while_revalidate" k then
    Some (fun s c =>
            let '(HyperdriveConfigCaching.mk disabled max_age swr) := c in
            into (read_int "StaleWhileRevalidate" s swr)
              (fun x => HyperdriveConfigCaching.mk disabled max_age x))
  else None.

Definition decode_HyperdriveConfigOrigin : decoder HyperdriveConfigOrigin :=
  read_struct field_HyperdriveConfigOrigin.

Definition decode_HyperdriveConfigCaching : decoder HyperdriveConfigCaching :=
  read_struct field_HyperdriveConfigCaching.

Definition field_HyperdriveConfig (k : string) : option (decoder HyperdriveConfig) :=
  if is_field "id" k then
    Some (fun s c =>
            let '(HyperdriveConfig.mk id name origin caching) := c in
            into (read_string "ID" s id)
              (fun x => HyperdriveConfig.mk x name origin caching))
  else if is_field "name" k then
    Some (fun s c =>
            let '(HyperdriveConfig.mk id name origin caching) := c in
            into (read_string "Name" s name)
              (fun x => HyperdriveConfig.mk id x origin caching))
  else if is_field "origin" k then
    Some (fun s c =>
            let '(HyperdriveConfig.mk id name origin caching) := c in
            into (decode_HyperdriveConfigOrigin s origin)
              (fun x => HyperdriveConfig.mk id name x caching))
  else if is_field "caching" k then
    Some (fun s c =>
            let '(HyperdriveConfig.mk id name origin caching) := c in
            into (decode_HyperdriveConfigCaching s caching)
              (fun x => HyperdriveConfig.mk id name origin x))
  else None.

Definition decode_HyperdriveConfig : decoder HyperdriveConfig :=
  read_struct field_HyperdriveConfig.

(** The same tags, on documents. *)
Definition set_HyperdriveConfigOrigin (k : string) (v : json)
  (o : HyperdriveConfigOrigin) : res HyperdriveConfigOrigin :=
  let '(HyperdriveConfigOrigin.mk database host port scheme user) := o in
  if is_field "database" k then
    x <- decode_string "Database" v database ;;
    Ok (HyperdriveConfigOrigin.mk x host port scheme user)
  else if is_field "host" k then
    x <- decode_string "Host" v host ;;
    Ok (HyperdriveConfigOrigin.mk database x port scheme user)
  else if is_field "port" k then
    x <- decode_int "Port" v port ;;
    Ok (HyperdriveConfigOrigin.mk database host x scheme user)
  else if is_field "scheme" k then
    x <- decode_string "Scheme" v scheme ;;
    Ok (HyperdriveConfigOrigin.mk database host port x user)
  else if is_field "user" k then
    x <- decode_string "User" v user ;;
    Ok (HyperdriveConfigOrigin.mk database host port scheme x)
  else Ok o.

Definition set_HyperdriveConfigCaching (k : string) (v : json)
  (c : HyperdriveConfigCaching) : res HyperdriveConfigCaching :=
  let '(HyperdriveConfigCaching.mk disabled max_age swr) := c in
  if is_field "disabled" k then
    x <- decode_bool_ptr v disabled ;;
    Ok (HyperdriveConfigCaching.mk x max_age swr)
  else if is_field "max_age" k then
    x <- decode_int "MaxAge" v max_age ;;
    Ok (HyperdriveConfigCaching.mk disabled x swr)
  else if is_field "stale_while_revalidate" k then
    x <- decode_int "StaleWhileRevalidate" v swr ;;
    Ok (HyperdriveConfigCaching.mk disabled max_age x)
  else Ok c.

Definition set_HyperdriveConfig (k : string) (v : json) (c : HyperdriveConfig)
  : res HyperdriveConfig :=
  let '(HyperdriveConfig.mk id name origin caching) := c in
  if is_field "id" k then
    x <- decode_string "ID" v id ;;
    Ok (HyperdriveConfig.mk x name origin caching)
  else if is_field "name" k then
    x <- decode_string "Name" v name ;;
    Ok (HyperdriveConfig.mk id x origin caching)
  else if is_field "origin" k then
    x <- decode_struct set_HyperdriveConfigOrigin v origin ;;
    Ok (HyperdriveConfig.mk id name x caching)
  else if is_field "caching" k then
    x <- decode_struct set_HyperdriveConfigCaching v caching ;;
    Ok (HyperdriveConfig.mk id name origin x)
  else Ok c.

Definition doc_HyperdriveConfigCaching :=
  decode_struct set_HyperdriveConfigCaching.

Definition doc_HyperdriveConfig :=
  decode_struct set_HyperdriveConfig.
End Decoding.

(** ** The envelopes *)

(** [Result []HyperdriveConfig]: [None] is the nil slice. The zero value
    is the [HyperdriveConfigListResponse{}] of the source. *)
Module HyperdriveConfigListResponse.
Record t {pkg : Package} : Type := mk {
  Response : @Response pkg;
  Result : option (list HyperdriveConfig)
}.
Definition zero {pkg : Package} : t := mk pkg Response_zero None.
End HyperdriveConfigListResponse.
Abbreviation HyperdriveConfigListResponse := HyperdriveConfigListResponse.t.

(** The zero value is the [var r HyperdriveConfigResponse] of the source. *)
Module HyperdriveConfigResponse.
Record t {pkg : Package} : Type := mk {
  Response : @Response pkg;
  Result : HyperdriveConfig
}.
Definition zero {pkg : Package} : t := mk pkg Response_zero HyperdriveConfig.zero.
End HyperdriveConfigResponse.
Abbreviation HyperdriveConfigResponse := HyperdriveConfigResponse.t.

Section Envelopes.
Context {pkg : Package}.
Local Open Scope res_scope.

(** A member of the embedded [Response]: its value is read by the grammar
    and handed to the package. *)
Definition read_Response (k : string) : decoder Response :=
  fun s cur =>
    match parse_value (S (String.length s)) s with
    | Some (v, rest) =>
        match Response_set k v cur with
        | Ok x => Ok (x, rest)
        | Err e => Err e
        end
    | None => Err SyntaxError
    end.

(** The field [Result] of the envelope shadows a field of the embedded
    [Response] with the same key; a member with another key of [Response]
    goes to [Response]. *)
Definition field_HyperdriveConfigListResponse (k : string)
  : option (decoder HyperdriveConfigListResponse) :=
  if is_field "result" k then
    Some (fun s r =>
            into (read_slice "Result" decode_HyperdriveConfig HyperdriveConfig.zero s
                    (HyperdriveConfigListResponse.Result r))
              (fun x => HyperdriveConfigListResponse.mk pkg
                          (HyperdriveConfigListResponse.Response r) x))
  else if Response_key k then
    Some (fun s r =>
            into (read_Response k s (HyperdriveConfigListResponse.Response r))
              (fun x => HyperdriveConfigListResponse.mk pkg x
                          (HyperdriveConfigListResponse.Result r)))
  else None.

Definition field_HyperdriveConfigResponse (k : string)
  : option (decoder HyperdriveConfigResponse) :=
  if is_field "result" k then
    Some (fun s r =>
            into (decode_HyperdriveConfig s (HyperdriveConfigResponse.Result r))
              (fun x => HyperdriveConfigResponse.mk pkg
                          (HyperdriveConfigResponse.Response r) x))
  else if Response_key k then
    Some (fun s r =>
            into (read_Response k s (HyperdriveConfigResponse.Response r))
              (fun x => HyperdriveConfigResponse.mk pkg x
                          (HyperdriveConfigResponse.Result r)))
  else None.

Definition decode_HyperdriveConfigListResponse
  : decoder HyperdriveConfigListResponse :=
  read_struct field_HyperdriveConfigListResponse.

Definition decode_HyperdriveConfigResponse : decoder HyperdriveConfigResponse :=
  read_struct field_HyperdriveConfigResponse.

(** The same tags, on documents. *)
Definition set_HyperdriveConfigListResponse (k : string) (v : json)
  (r : HyperdriveConfigListResponse) : res HyperdriveConfigListResponse :=
  if is_field "result" k then
    x <- decode_slice "Result"
           (fun e => doc_HyperdriveConfig e HyperdriveConfig.zero) v ;;
    Ok (HyperdriveConfigListResponse.mk pkg (HyperdriveConfigListResponse.Response r) x)
  else if Response_key k then
    x <- Response_set k v (HyperdriveConfigListResponse.Response r) ;;
    Ok (HyperdriveConfigListResponse.mk pkg x (HyperdriveConfigListResponse.Result r))
  else Ok r.

Definition set_HyperdriveConfigResponse (k : string) (v : json)
  (r : HyperdriveConfigResponse) : res HyperdriveConfigResponse :=
  if is_field "result" k then
    x <- decode_struct set_HyperdriveConfig v (HyperdriveConfigResponse.Result r) ;;
    Ok (HyperdriveConfigResponse.mk pkg (HyperdriveConfigResponse.Response r) x)
  else if Response_key k then
    x <- Response_set k v (HyperdriveConfigResponse.Response r) ;;
    Ok (HyperdriveConfigResponse.mk pkg x (HyperdriveConfigResponse.Result r))
  else Ok r.

Definition doc_HyperdriveConfigListResponse :=
  decode_struct set_HyperdriveConfigListResponse.

Definition doc_HyperdriveConfigResponse :=
  decode_struct set_HyperdriveConfigResponse.
End Envelopes.

(** ** Struct tags: encoding *)

(** [omitempty] leaves out an empty string, a zero number and a nil pointer;
    a struct is never empty, so the option changes nothing on [origin] and
    [caching]. *)
Definition encode_HyperdriveConfigOrigin (o : HyperdriveConfigOrigin) : json :=
  JObj (member_string true "database" (HyperdriveConfigOrigin.Database o)
        ++ member_string true "host" (HyperdriveConfigOrigin.Host o)
        ++ member_int true "port" (HyperdriveConfigOrigin.Port o)
        ++ member_string true "scheme" (HyperdriveConfigOrigin.Scheme o)
        ++ member_string true "user" (HyperdriveConfigOrigin.User o)).

Definition encode_HyperdriveConfigCaching (c : HyperdriveConfigCaching) : json :=
  JObj (member_bool_ptr true "disabled" (HyperdriveConfigCaching.Disabled c)
        ++ member_int true "max_age" (HyperdriveConfigCaching.MaxAge c)
        ++ member_int true "stale_while_revalidate"
             (HyperdriveConfigCaching.StaleWhileRevalidate c)).

Definition encode_HyperdriveConfig (c : HyperdriveConfig) : json :=
  JObj (member_string true "id" (HyperdriveConfig.ID c)
        ++ member_string true "name" (HyperdriveConfig.Name c)
        ++ [("origin", encode_HyperdriveConfigOrigin (HyperdriveConfig.Origin c))]
        ++ [("caching", encode_HyperdriveConfigCaching (HyperdriveConfig.Caching c))]).

Definition encode_CreateHyperdriveConfigParams (p : CreateHyperdriveConfigParams)
  : json :=
  JObj (member_string false "name" (CreateHyperdriveConfigParams.Name p)
        ++ member_string false "password" (CreateHyperdriveConfigParams.Password p)
        ++ [("origin",
             encode_HyperdriveConfigOrigin (CreateHyperdriveConfigParams.Origin p))]
        ++ [("caching",
             encode_HyperdriveConfigCaching (CreateHyperdriveConfigParams.Caching p))]).

(** [HyperdriveID] has the tag [json:"-"]: the encoder skips the field. *)
Definition encode_UpdateHyperdriveConfigParams (p : UpdateHyperdriveConfigParams)
  : json :=
  JObj (member_string false "name" (UpdateHyperdriveConfigParams.Name p)
        ++ member_string false "password" (UpdateHyperdriveConfigParams.Password p)
        ++ [("origin",
             encode_HyperdriveConfigOrigin (UpdateHyperdriveConfigParams.Origin p))]
        ++ [("caching",
             encode_HyperdriveConfigCaching (UpdateHyperdriveConfigParams.Caching p))]).

Definition Marshal_HyperdriveConfigCaching (c : HyperdriveConfigCaching) : string :=
  print (encode_HyperdriveConfigCaching c).

Definition Marshal_UpdateHyperdriveConfigParams (p : UpdateHyperdriveConfigParams)
  : string :=
  print (encode_UpdateHyperdriveConfigParams p).

Definition Unmarshal_HyperdriveConfigCaching (data : string)
  (v : HyperdriveConfigCaching) : res HyperdriveConfigCaching :=
  Unmarshal decode_HyperdriveConfigCaching data v.

(** * The API client *)

(** [http.MethodGet], [http.MethodPost], [http.MethodPut], [http.MethodDelete] *)
Inductive Method : Type :=
| MethodGet
| MethodPost
| MethodPut
| MethodDelete.

(** The [params interface{}] argument of a request, as the operations of
    this file pass it: nil, or the parameter struct as a whole. *)
Inductive Params : Type :=
| NoParams
| ParamsCreate (p : CreateHyperdriveConfigParams)
| ParamsUpdate (p : UpdateHyperdriveConfigParams).

Record Request : Type := {
  req_method : Method;
  req_uri : string;
  req_params : Params
}.

(** The body the client sends: the encoding of the parameters, or none. *)
Definition request_body (p : Params) : option string :=
  match p with
  | NoParams => None
  | ParamsCreate c => Some (print (encode_CreateHyperdriveConfigParams c))
  | ParamsUpdate u => Some (Marshal_UpdateHyperdriveConfigParams u)
  end.

(** The collaborator: given a request it returns the bytes of the response
    and an error (nil when the call succeeded), and moves to a new state.
    Its error values are its own, of a type this file knows nothing of. *)
Class APIClient : Type := {
  Conn : Type;
  Failure : Type;
  roundTrip : Request -> Conn -> (string * option Failure) * Conn
}.

Section Errors.
Context {client : APIClient}.

(** Modelled from the spec: [ErrMissingAccountID], the sentinel for a
    missing account identifier, is declared in another file of the package;
    the spec has it as one more named sentinel, distinct from the three of
    [hyperdrive.go].
    Go compares error values by identity. The sentinels are one value each;
    a value the client built and a value the decoder built are never one of
    them, nor one built by [fmt.Errorf] here.
    [Errorf prefix err] is [fmt.Errorf("<prefix>: %w", err)]. *)
Inductive error : Type :=
| ErrMissingAccountID
| ErrMissingHyperdriveConfigID
| ErrMissingHyperdriveConfigName
| ErrMissingHyperdriveConfigPassword
| ErrClient (e : Failure)
| ErrJSON (e : JSONError)
| Errorf (prefix : string) (err : error).

(** The error was built by [fmt.Errorf] with this prefix. *)
Definition has_prefix (prefix : string) (e : error) : bool :=
  match e with
  | Errorf p _ => String.eqb p prefix
  | _ => false
  end.

(** The receiver [api *API]: the state of the client, and the requests made
    through it so far, oldest first. *)
Record API : Type := {
  conn : Conn;
  calls : list Request
}.

(** A method of [*API] is a function of the state of the receiver. *)
Definition M (A : Type) : Type := API -> A * API.

Definition ret {A : Type} (a : A) : M A := fun api => (a, api).

Definition mbind {A B : Type} (c : M A) (k : A -> M B) : M B :=
  fun api => let (a, api') := c api in k a api'.

(** Modelled from the spec: [makeRequestContext], a method of [*API]
    declared in another file: given the method, the path and an optional
    body it performs one authenticated HTTP call and returns the bytes of
    the response or an error. The context argument only carries the
    caller's cancellation to the client and is left out. *)
Definition makeRequestContext (method : Method) (uri : string) (params : Params)
  : M (string * option error) :=
  fun api =>
    let rq := {| req_method := method; req_uri := uri; req_params := params |} in
    let '((res, err), c) := roundTrip rq (conn api) in
    ((res, option_map ErrClient err), {| conn := c; calls := calls api ++ [rq] |}).

End Errors.

Declare Scope api_scope.
Delimit Scope api_scope with api.
Notation "x <- c ;; k" := (mbind c (fun x => k))
  (at level 61, c at next level, right associativity) : api_scope.
Notation "' pat <- c ;; k" := (mbind c (fun x => match x with pat => k end))
  (at level 61, pat pattern, c at next level, right associativity) : api_scope.

(** * The operations *)

Section Operations.
Context {pkg : Package} {client : APIClient}.
Local Open Scope api_scope.

(** ListHyperdriveConfigs returns the Hyperdrive configs owned by an
    account. [[]HyperdriveConfig{}] is [Some []], the empty slice. *)
Definition ListHyperdriveConfigs (rc : ResourceContainer)
  (params : ListHyperdriveConfigParams)
  : M (option (list HyperdriveConfig) * option error) :=
  if String.eqb (Identifier rc) "" then
    ret (Some [], Some ErrMissingAccountID)
  else
    let hResponse := HyperdriveConfigListResponse.zero in
    let uri := "/accounts/" ++ Identifier rc ++ "/hyperdrive/configs" in
    '(res, err) <- makeRequestContext MethodGet uri NoParams ;;
    match err with
    | Some err => ret (Some [], Some err)
    | None =>
        match Unmarshal decode_HyperdriveConfigListResponse res hResponse with
        | Err err =>
            ret (Some [],
                 Some (Errorf "failed to unmarshal filters JSON data" (ErrJSON err)))
        | Ok hResponse => ret (HyperdriveConfigListResponse.Result hResponse, None)
        end
    end.

(** CreateHyperdriveConfig creates a new Hyperdrive config. *)
Definition CreateHyperdriveConfig (rc : ResourceContainer)
  (params : CreateHyperdriveConfigParams) : M (HyperdriveConfig * option error) :=
  if String.eqb (Identifier rc) "" then
    ret (HyperdriveConfig.zero, Some ErrMissingAccountID)
  else if String.eqb (CreateHyperdriveConfigParams.Name params) "" then
    ret (HyperdriveConfig.zero, Some ErrMissingHyperdriveConfigName)
  else if String.eqb (CreateHyperdriveConfigParams.Password params) "" then
    ret (HyperdriveConfig.zero, Some ErrMissingHyperdriveConfigPassword)
  else
    let uri := "/accounts/" ++ Identifier rc ++ "/hyperdrive/configs" in
    '(res, err) <- makeRequestContext MethodPost uri (ParamsCreate params) ;;
    match err with
    | Some err => ret (HyperdriveConfig.zero, Some err)
    | None =>
        match Unmarshal decode_HyperdriveConfigResponse res
                HyperdriveConfigResponse.zero with
        | Err err =>
            ret (HyperdriveConfig.zero, Some (Errorf errUnmarshalError (ErrJSON err)))
        | Ok r => ret (HyperdriveConfigResponse.Result r, None)
        end
    end.

(** DeleteHyperdriveConfig deletes a Hyperdrive config. *)
Definition DeleteHyperdriveConfig (rc : ResourceContainer) (hyperdriveID : string)
  : M (option error) :=
  if String.eqb (Identifier rc) "" then ret (Some ErrMissingAccountID)
  else if String.eqb hyperdriveID "" then ret (Some ErrMissingHyperdriveConfigID)
  else
    let uri :=
      "/accounts/" ++ Identifier rc ++ "/hyperdrive/configs/" ++ hyperdriveID in
    '(_, err) <- makeRequestContext MethodDelete uri NoParams ;;
    match err with
    | Some err => ret (Some (Errorf errMakeRequestError err))
    | None => ret None
    end.

(** GetHyperdriveConfig returns a single Hyperdrive config based on the ID. *)
Definition GetHyperdriveConfig (rc : ResourceContainer) (hyperdriveID : string)
  : M (HyperdriveConfig * option error) :=
  if String.eqb (Identifier rc) "" then
    ret (HyperdriveConfig.zero, Some ErrMissingAccountID)
  else if String.eqb hyperdriveID "" then
    ret (HyperdriveConfig.zero, Some ErrMissingHyperdriveConfigID)
  else
    let uri :=
      "/accounts/" ++ Identifier rc ++ "/hyperdrive/configs/" ++ hyperdriveID in
    '(res, err) <- makeRequestContext MethodGet uri NoParams ;;
    match err with
    | Some err => ret (HyperdriveConfig.zero, Some err)
    | None =>
        match Unmarshal decode_HyperdriveConfigResponse res
                HyperdriveConfigResponse.zero with
        | Err err =>
            ret (HyperdriveConfig.zero, Some (Errorf errUnmarshalError (ErrJSON err)))
        | Ok r => ret (HyperdriveConfigResponse.Result r, None)
        end
    end.

(** UpdateHyperdriveConfig updates a Hyperdrive config. *)
Definition UpdateHyperdriveConfig (rc : ResourceContainer)
  (params : UpdateHyperdriveConfigParams) : M (HyperdriveConfig * option error) :=
  if String.eqb (Identifier rc) "" then
    ret (HyperdriveConfig.zero, Some ErrMissingAccountID)
  else if String.eqb (UpdateHyperdriveConfigParams.HyperdriveID params) "" then
    ret (HyperdriveConfig.zero, Some ErrMissingHyperdriveConfigID)
  else
    let uri :=
      "/accounts/" ++ Identifier rc ++ "/hyperdrive/configs/"
      ++ UpdateHyperdriveConfigParams.HyperdriveID params in
    '(res, err) <- makeRequestContext MethodPut uri (ParamsUpdate params) ;;
    match err with
    | Some err => ret (HyperdriveConfig.zero, Some err)
    | None =>
        match Unmarshal decode_HyperdriveConfigResponse res
                HyperdriveConfigResponse.zero with
        | Err err =>
            ret (HyperdriveConfig.zero, Some (Errorf errUnmarshalError (ErrJSON err)))
        | Ok r => ret (HyperdriveConfigResponse.Result r, None)
        end
    end.

End Operations.

(** * Invocations *)

(** One call of one of the five operations, with its arguments; [run] is the
    call itself and keeps the error it returns (nil is [None]). *)
Inductive Invocation : Type :=
| List (rc : ResourceContainer) (params : ListHyperdriveConfigParams)
| Create (rc : ResourceContainer) (params : CreateHyperdriveConfigParams)
| Get (rc : ResourceContainer) (hyperdriveID : string)
| Update (rc : ResourceContainer) (params : UpdateHyperdriveConfigParams)
| Delete (rc : ResourceContainer) (hyperdriveID : string).

Section Invocations.
Context {pkg : Package} {client : APIClient}.

Definition run (i : Invocation) : M (option error) :=
  fun api =>
    match i with
    | List rc params =>
        let (r, api') := ListHyperdriveConfigs rc params api in (snd r, api')
    | Create rc params =>
        let (r, api') := CreateHyperdriveConfig rc params api in (snd r, api')
    | Get rc hyperdriveID =>
        let (r, api') := GetHyperdriveConfig rc hyperdriveID api in (snd r, api')
    | Update rc params =>
        let (r, api') := UpdateHyperdriveConfig rc params api in (snd r, api')
    | Delete rc hyperdriveID => DeleteHyperdriveConfig rc hyperdriveID api
    end.

End Invocations.

(** The table of the specification, section 4.1: the local precondition
    checks of an operation, and the request it makes when they pass. *)
Definition account_of (i : Invocation) : string :=
  match i with
  | List rc _ | Create rc _ | Get rc _ | Update rc _ | Delete rc _ => Identifier rc
  end.

Definition nonempty (s : string) : bool := negb (String.eqb s "").

Definition preconditions (i : Invocation) : bool :=
  nonempty (account_of i) &&
  match i with
  | List _ _ => true
  | Create _ params =>
      nonempty (CreateHyperdriveConfigParams.Name params)
      && nonempty (CreateHyperdriveConfigParams.Password params)
  | Get _ hyperdriveID => nonempty hyperdriveID
  | Update _ params => nonempty (UpdateHyperdriveConfigParams.HyperdriveID params)
  | Delete _ hyperdriveID => nonempty hyperdriveID
  end.

Definition configs_path (acct : string) : string :=
  "/accounts/" ++ acct ++ "/hyperdrive/configs".

Definition config_path (acct id : string) : string :=
  configs_path acct ++ "/" ++ id.

Definition table_request (i : Invocation) : Request :=
  match i with
  | List rc _ =>
      {| req_method := MethodGet; req_uri := configs_path (Identifier rc);
         req_params := NoParams |}
  | Create rc params =>
      {| req_method := MethodPost; req_uri := configs_path (Identifier rc);
         req_params := ParamsCreate params |}
  | Get rc id =>
      {| req_method := MethodGet; req_uri := config_path (Identifier rc) id;
         req_params := NoParams |}
  | Update rc params =>
      {| req_method := MethodPut;
         req_uri := config_path (Identifier rc)
                      (UpdateHyperdriveConfigParams.HyperdriveID params);
         req_params := ParamsUpdate params |}
  | Delete rc id =>
      {| req_method := MethodDelete; req_uri := config_path (Identifier rc) id;
         req_params := NoParams |}
  end.

(** What the client answers, in this state of the receiver, to the request
    of the table: the bytes of the response and its error. *)
Definition reply {client : APIClient} (i : Invocation) (api : API)
  : string * option Failure :=
  fst (roundTrip (table_request i) (conn api)).

(** * Instances for the examples *)

(** A package whose envelope metadata is the success flag. *)
Definition example_package : Package :=
  {| Response := bool;
     Response_zero := false;
     Response_key := is_field "success";
     Response_set := fun k v cur =>
       match v with
       | JBool b => Ok b
       | JNull => Ok cur
       | _ => Err (UnmarshalTypeError (kind_of v) "Success")
       end;
     errUnmarshalError := "error unmarshalling the JSON response";
     errMakeRequestError := "error from makeRequest" |}.

(** A client that answers every request the same way. *)
Definition stub (reply : string * option string) : APIClient :=
  {| Conn := unit;
     Failure := string;
     roundTrip := fun _ c => (reply, c) |}.

Definition fresh (reply : string * option string) : @API (stub reply) :=
  @Build_API (stub reply) tt [].

Definition acct : ResourceContainer := {| Identifier := "acc1" |}.

Definition no_acct : ResourceContainer := {| Identifier := "" |}.

(** A config of which the service gave the identifier only. *)
Definition only_id (id : string) : HyperdriveConfig :=
  HyperdriveConfig.mk id "" HyperdriveConfigOrigin.zero HyperdriveConfigCaching.zero.

Definition list_body : string := q "{'result': [{'id':'a1'},{'id':'a2'}]}".

Definition get_body : string := q "{'result': {'id':'h1','name':'db1'}}".

Definition truncated_body : string := q "{'result': {'id':'h1','na".

(** Not a JSON text: a number does not start with [0] and go on. *)
Definition lenient_body : string := q "{'foo':01,'result':{'id':'h1'}}".

Definition create_params : CreateHyperdriveConfigParams :=
  CreateHyperdriveConfigParams.mk "db1" "secret"
    (HyperdriveConfigOrigin.mk "postgres" "db.example.com" 5432 "postgres" "u")
    HyperdriveConfigCaching.zero.

Definition no_name_params : CreateHyperdriveConfigParams :=
  CreateHyperdriveConfigParams.mk "" ""
    HyperdriveConfigOrigin.zero HyperdriveConfigCaching.zero.

Definition no_password_params : CreateHyperdriveConfigParams :=
  CreateHyperdriveConfigParams.mk "db1" ""
    HyperdriveConfigOrigin.zero HyperdriveConfigCaching.zero.

Definition no_id_params : UpdateHyperdriveConfigParams :=
  UpdateHyperdriveConfigParams.mk "" "db1" "secret"
    HyperdriveConfigOrigin.zero HyperdriveConfigCaching.zero.

Definition update_params : UpdateHyperdriveConfigParams :=
  UpdateHyperdriveConfigParams.mk "h1" "db1" "secret"
    (HyperdriveConfigOrigin.mk "postgres" "db.example.com" 5432 "postgres" "u")
    (HyperdriveConfigCaching.mk (Some false) 30 0).

(** * Sequences of calls, classes of errors *)

Section Sequences.
Context {pkg : Package} {client : APIClient}.
Local Open Scope api_scope.

(** A caller that makes one call after the other on the same receiver and
    keeps the errors. *)
Fixpoint run_all (l : list Invocation) : M (list (option error)) :=
  match l with
  | [] => ret []
  | i :: rest => e <- run i ;; es <- run_all rest ;; ret (e :: es)
  end.

(** The state of the client once it has answered these requests, in order. *)
Definition replay (rqs : list Request) (c : Conn) : Conn :=
  fold_left (fun c rq => snd (roundTrip rq c)) rqs c.

(** The error of the decoder on the bytes of a response, for the envelope
    the operation decodes into; Delete decodes nothing. *)
Definition decode_failure (i : Invocation) (res : string) : option JSONError :=
  match i with
  | List _ _ =>
      match Unmarshal decode_HyperdriveConfigListResponse res
              HyperdriveConfigListResponse.zero with
      | Ok _ => None
      | Err e => Some e
      end
  | Delete _ _ => None
  | Create _ _ | Get _ _ | Update _ _ =>
      match Unmarshal decode_HyperdriveConfigResponse res
              HyperdriveConfigResponse.zero with
      | Ok _ => None
      | Err e => Some e
      end
  end.

(** [errors.Unwrap], repeated: the error and what it wraps, outermost
    first. [errors.Is] looks for its target in this chain. *)
Fixpoint chain (e : error) : list error :=
  e :: match e with
       | Errorf _ err => chain err
       | _ => []
       end.

End Sequences.

(** The taxonomy of the specification, section 7. *)
Inductive ErrorClass : Type :=
| Validation
| Transport
| Decode.

Definition classify {client : APIClient} (e : error) : option ErrorClass :=
  match e with
  | ErrMissingAccountID | ErrMissingHyperdriveConfigID
  | ErrMissingHyperdriveConfigName | ErrMissingHyperdriveConfigPassword =>
      Some Validation
  | ErrClient _ | Errorf _ (ErrClient _) => Some Transport
  | Errorf _ (ErrJSON _) => Some Decode
  | _ => None
  end.

Definition is_delete (i : Invocation) : bool :=
  match i with
  | Delete _ _ => true
  | _ => false
  end.

(** * Texts *)

Fixpoint print_elems (l : list json) : string :=
  match l with
  | [] => ""
  | [e] => print e
  | e :: r => print e ++ "," ++ print_elems r
  end.

Definition is_number (j : json) : bool :=
  match j with
  | JNum _ => true
  | _ => false
  end.

(** * Texts of configs *)

Definition Marshal_HyperdriveConfig (c : HyperdriveConfig) : string :=
  print (encode_HyperdriveConfig c).

Definition Unmarshal_HyperdriveConfig (data : string) (v : HyperdriveConfig)
  : res HyperdriveConfig :=
  Unmarshal decode_HyperdriveConfig data v.

(** The numbers of the origin, of the caching and of the config fit Go's
    [int], as those of every Go value do. *)
Definition origin_fits (o : HyperdriveConfigOrigin) : bool :=
  int_ok (HyperdriveConfigOrigin.Port o).

Definition caching_fits (c : HyperdriveConfigCaching) : bool :=
  int_ok (HyperdriveConfigCaching.MaxAge c)
  && int_ok (HyperdriveConfigCaching.StaleWhileRevalidate c).

Definition config_fits (c : HyperdriveConfig) : bool :=
  origin_fits (HyperdriveConfig.Origin c)
  && caching_fits (HyperdriveConfig.Caching c).

(** The envelopes of the service with nothing but the result: a list of
    configs, one config. *)
Definition list_envelope (cs : list HyperdriveConfig) : string :=
  print (JObj [("result", JArr (map encode_HyperdriveConfig cs))]).

Definition config_envelope (c : HyperdriveConfig) : string :=
  print (JObj [("result", encode_HyperdriveConfig c)]).

(** The identifier has no slash in it. *)
Fixpoint no_slash (s : string) : bool :=
  match s with
  | EmptyString => true
  | String c r => negb (Ascii.eqb c "/") && no_slash r
  end.

(** Further instances for the examples. *)
Definition sample_config : HyperdriveConfig :=
  HyperdriveConfig.mk "h1" "db<1>"
    (HyperdriveConfigOrigin.mk "postgres" "db.example.com" 5432 "postgres" "")
    (HyperdriveConfigCaching.mk (Some false) 0 15).

(** A string that is not valid UTF-8: [a], the byte 255, [b]; and what
    the encoder and the decoder make of it, with U+FFFD in place of the
    byte. *)
Definition stray_byte : string :=
  String "a" (String "255" (String "b" EmptyString)).

Definition replaced_byte : string :=
  String "a" (String "239" (String "191" (String "189" (String "b" EmptyString)))).

(** A port of 19 digits that does not fit Go's [int], and one of 20
    digits. *)
Definition big_port_config : HyperdriveConfig :=
  HyperdriveConfig.mk "h2" "db2"
    (HyperdriveConfigOrigin.mk "" "" (2 ^ 63) "" "")
    HyperdriveConfigCaching.zero.

Definition long_port_config : HyperdriveConfig :=
  HyperdriveConfig.mk "h3" "db3"
    (HyperdriveConfigOrigin.mk "" "" (10 ^ 19) "" "")
    HyperdriveConfigCaching.zero.

Definition no_result_body : string := q "{'success': true}".

(** * The texts of the grammar *)

(** What the parser reads, as the decoder sees it. *)

Fixpoint all (p : ascii -> bool) (s : string) : bool :=
  match s with
  | EmptyString => true
  | String c r => p c && all p r
  end.

(** The number a string of digits writes. *)
Fixpoint uvalue (s : string) (acc : Z) : Z :=
  match s with
  | EmptyString => acc
  | String c r => uvalue r (acc * 10 + digit_value c)
  end.

(** The content of a string of the grammar, as the decoder sees it when it
    passes over the string: no bare quote, no zero byte, every backslash
    followed by a byte. [esc] tells that a backslash has just been read. *)
Fixpoint body_ok (esc : bool) (s : string) : bool :=
  match s with
  | EmptyString => negb esc
  | String c r =>
      if esc then negb (Ascii.eqb c nul) && body_ok false r
      else if Ascii.eqb c "\" then body_ok true r
      else negb (Ascii.eqb c dq) && negb (Ascii.eqb c nul) && body_ok false r
  end.

(** The first byte of the text, if any, passes the test. *)
Definition starts (p : ascii -> bool) (s : string) : bool :=
  match s with
  | String c _ => p c
  | EmptyString => false
  end.

(** The text goes on, after white space, with the end of a member or of an
    element, or ends. *)
Definition delimited (r : string) : bool :=
  match skip_ws r with
  | EmptyString => true
  | String c _ => Ascii.eqb c "," || Ascii.eqb c "}" || Ascii.eqb c "]"
  end.

(** The brackets of an object, or those of an array. *)
Definition brackets (opening closing : ascii) : Prop :=
  (opening = "{"%char /\ closing = "}"%char)
  \/ (opening = "["%char /\ closing = "]"%char).

(** The decoder of a value agrees with a rule on documents: on a text the
    parser reads as a value, up to the end of a member, of an element or of
    the text, the decoder gives what the rule gives for the value and stops
    where the parser stops; when the rule refuses the value the decoder
    refuses the text, or stops where no member, element or text can end. *)
Definition agrees {T : Type} (dec : decoder T) (sem : json -> T -> res T) : Prop :=
  forall f s v r cur,
    parse_value f s = Some (v, r) ->
    delimited r = true ->
    match sem v cur with
    | Ok y => dec s cur = Ok (y, r)
    | Err _ => forall x r', dec s cur = Ok (x, r') -> delimited r' = false
    end.

Definition field_agrees {T : Type} (fd : option (decoder T))
  (sem : json -> T -> res T) : Prop :=
  match fd with
  | Some dec => agrees dec sem
  | None => forall v cur, sem v cur = Ok cur
  end.

(** Every number of the document is an integer, and every string and every
    key is valid UTF-8. The encodings of the structs of [hyperdrive.go]
    whose strings are valid UTF-8 are such documents. *)
Fixpoint wellformed (j : json) : bool :=
  match j with
  | JNum (NLit _) => false
  | JStr s => valid_utf8 s
  | JArr es => forallb wellformed es
  | JObj ms => forallb (fun kv => valid_utf8 (fst kv) && wellformed (snd kv)) ms
  | _ => true
  end.

(** * The values of the examples and of the round trips *)

(** The strings of the origin and of the config are valid UTF-8. *)
Definition origin_strings (o : HyperdriveConfigOrigin) : bool :=
  valid_utf8 (HyperdriveConfigOrigin.Database o)
  && valid_utf8 (HyperdriveConfigOrigin.Host o)
  && valid_utf8 (HyperdriveConfigOrigin.Scheme o)
  && valid_utf8 (HyperdriveConfigOrigin.User o).

Definition config_strings (c : HyperdriveConfig) : bool :=
  valid_utf8 (HyperdriveConfig.ID c)
  && valid_utf8 (HyperdriveConfig.Name c)
  && origin_strings (HyperdriveConfig.Origin c).

(** The numbers of the origin, of the caching and of the config are
    written with up to 19 digits. *)
Definition origin_digits (o : HyperdriveConfigOrigin) : bool :=
  digits_ok (HyperdriveConfigOrigin.Port o).

Definition caching_digits (c : HyperdriveConfigCaching) : bool :=
  digits_ok (HyperdriveConfigCaching.MaxAge c)
  && digits_ok (HyperdriveConfigCaching.StaleWhileRevalidate c).

Definition config_digits (c : HyperdriveConfig) : bool :=
  origin_digits (HyperdriveConfig.Origin c)
  && caching_digits (HyperdriveConfig.Caching c).

(** The value with its numbers cut to 64 bits. *)
Definition wrap_origin (o : HyperdriveConfigOrigin) : HyperdriveConfigOrigin :=
  HyperdriveConfigOrigin.mk (HyperdriveConfigOrigin.Database o)
    (HyperdriveConfigOrigin.Host o) (wrap64 (HyperdriveConfigOrigin.Port o))
    (HyperdriveConfigOrigin.Scheme o) (HyperdriveConfigOrigin.User o).

Definition wrap_caching (c : HyperdriveConfigCaching) : HyperdriveConfigCaching :=
  HyperdriveConfigCaching.mk (HyperdriveConfigCaching.Disabled c)
    (wrap64 (HyperdriveConfigCaching.MaxAge c))
    (wrap64 (HyperdriveConfigCaching.StaleWhileRevalidate c)).

Definition wrap_config (c : HyperdriveConfig) : HyperdriveConfig :=
  HyperdriveConfig.mk (HyperdriveConfig.ID c) (HyperdriveConfig.Name c)
    (wrap_origin (HyperdriveConfig.Origin c))
    (wrap_caching (HyperdriveConfig.Caching c)).

(** The keys of the members in the goal, compared with the tags. *)
Ltac fields :=
  repeat match goal with
    | |- context [is_field ?a ?b] =>
        let v := eval vm_compute in (is_field a b) in
        change (is_field a b) with v; cbv iota
    end.

(** * The grammar *)

Section Grammar.

Lemma append_assoc (a b c : string) : (a ++ b) ++ c = a ++ (b ++ c).
Proof.
  induction a as [| x a IH]; cbn; [reflexivity | now rewrite IH].
Qed.

Lemma length_append (a b : string) :
  String.length (a ++ b) = (String.length a + String.length b)%nat.
Proof.
  induction a as [| c a IH]; cbn [String.append String.length];
    [reflexivity | now rewrite IH].
Qed.

Lemma skip_ws_length (s : string) :
  (String.length (skip_ws s) <= String.length s)%nat.
Proof.
  induction s as [| c s IH]; cbn [skip_ws]; [apply Nat.le_refl |].
  destruct (is_ws c); cbn [String.length]; lia.
Qed.

Lemma skip_ws_head (s : string) (c : ascii) (t : string) :
  skip_ws s = String c t -> is_ws c = false.
Proof.
  induction s as [| d s IH]; cbn [skip_ws]; [discriminate |].
  destruct (is_ws d) eqn:Hd; [exact IH |].
  now intros [= <- _].
Qed.

Lemma skip_ws_idem (s : string) : skip_ws (skip_ws s) = skip_ws s.
Proof.
  destruct (skip_ws s) as [| c t] eqn:E; [reflexivity |].
  cbn [skip_ws]. now rewrite (skip_ws_head s c t E).
Qed.

Lemma skip_ws_token (c : ascii) (s : string) :
  is_ws c = false -> skip_ws (String c s) = String c s.
Proof. intros H. cbn [skip_ws]. now rewrite H. Qed.

(** One step of each function of the parser, with tests in place of
    patterns. *)
Lemma parse_value_step (f : nat) (s : string) :
  parse_value (S f) s
  = match skip_ws s with
    | EmptyString => None
    | String c r =>
        if Ascii.eqb c "{" then
          match skip_ws r with
          | EmptyString =>
              option_map (fun '(ms, rest) => (JObj ms, rest)) (parse_members f "")
          | String c1 r1 =>
              if Ascii.eqb c1 "}" then Some (JObj [], r1)
              else option_map (fun '(ms, rest) => (JObj ms, rest))
                     (parse_members f (String c1 r1))
          end
        else if Ascii.eqb c "[" then
          match skip_ws r with
          | EmptyString =>
              option_map (fun '(es, rest) => (JArr es, rest)) (parse_elements f "")
          | String c1 r1 =>
              if Ascii.eqb c1 "]" then Some (JArr [], r1)
              else option_map (fun '(es, rest) => (JArr es, rest))
                     (parse_elements f (String c1 r1))
          end
        else if Ascii.eqb c dq then
          option_map (fun '(t, rest) => (JStr t, rest)) (lex_string r)
        else if Ascii.eqb c "t" then expect "true" (JBool true) (String c r)
        else if Ascii.eqb c "f" then expect "false" (JBool false) (String c r)
        else if Ascii.eqb c "n" then expect "null" JNull (String c r)
        else option_map (fun '(n, rest) => (JNum n, rest)) (lex_number (String c r))
    end.
Proof.
  cbn [parse_value]. destruct (skip_ws s) as [| c r]; [reflexivity |].
  destruct (Ascii.eqb c "{"); [| destruct (Ascii.eqb c "[")]; try reflexivity.
  - destruct (skip_ws r) as [| c1 r1]; [reflexivity |].
    destruct c1 as [[|] [|] [|] [|] [|] [|] [|] [|]]; reflexivity.
  - destruct (skip_ws r) as [| c1 r1]; [reflexivity |].
    destruct c1 as [[|] [|] [|] [|] [|] [|] [|] [|]]; reflexivity.
Qed.

Lemma parse_members_step (f : nat) (s : string) :
  parse_members (S f) s
  = match s with
    | EmptyString => None
    | String c r =>
        if Ascii.eqb c dq then
          match lex_string r with
          | None => None
          | Some (k, r1) =>
              match skip_ws r1 with
              | EmptyString => None
              | String c2 r2 =>
                  if Ascii.eqb c2 ":" then
                    match parse_value f r2 with
                    | None => None
                    | Some (v, r3) =>
                        match skip_ws r3 with
                        | EmptyString => None
                        | String c4 r4 =>
                            if Ascii.eqb c4 "," then
                              option_map (fun '(ms, rest) => ((k, v) :: ms, rest))
                                (parse_members f (skip_ws r4))
                            else if Ascii.eqb c4 "}" then Some ([(k, v)], r4)
                            else None
                        end
                    end
                  else None
              end
          end
        else None
    end.
Proof.
  cbn [parse_members]. destruct s as [| c r]; [reflexivity |].
  destruct (Ascii.eqb c dq); [| reflexivity].
  destruct (lex_string r) as [[k r1] |]; [| reflexivity].
  destruct (skip_ws r1) as [| c2 r2]; [reflexivity |].
  destruct c2 as [[|] [|] [|] [|] [|] [|] [|] [|]]; try reflexivity.
  cbn [Ascii.eqb Bool.eqb]. destruct (parse_value f r2) as [[v r3] |]; [| reflexivity].
  destruct (skip_ws r3) as [| c4 r4]; [reflexivity |].
  destruct c4 as [[|] [|] [|] [|] [|] [|] [|] [|]]; reflexivity.
Qed.

Lemma parse_elements_step (f : nat) (s : string) :
  parse_elements (S f) s
  = match parse_value f s with
    | None => None
    | Some (v, r1) =>
        match skip_ws r1 with
        | EmptyString => None
        | String c2 r2 =>
            if Ascii.eqb c2 "," then
              option_map (fun '(es, rest) => (v :: es, rest)) (parse_elements f r2)
            else if Ascii.eqb c2 "]" then Some ([v], r2)
            else None
        end
    end.
Proof.
  cbn [parse_elements]. destruct (parse_value f s) as [[v r1] |]; [| reflexivity].
  destruct (skip_ws r1) as [| c2 r2]; [reflexivity |].
  destruct c2 as [[|] [|] [|] [|] [|] [|] [|] [|]]; reflexivity.
Qed.

End Grammar.

(** * Numbers *)

Section Numbers.

Lemma wrap64_fits (z : Z) : int_ok z = true -> wrap64 z = z.
Proof.
  unfold int_ok, wrap64. intros [H1 H2]%andb_true_iff.
  apply Z.leb_le in H1. apply Z.ltb_lt in H2.
  rewrite Z.mod_small; lia.
Qed.

Lemma wrap64_add (a b : Z) : wrap64 (wrap64 a + b) = wrap64 (a + b).
Proof.
  unfold wrap64.
  replace ((a + 2 ^ 63) mod 2 ^ 64 - 2 ^ 63 + b + 2 ^ 63)
    with ((a + 2 ^ 63) mod 2 ^ 64 + b) by lia.
  rewrite Zplus_mod_idemp_l. do 2 f_equal. lia.
Qed.

Lemma wrap64_opp (a : Z) : wrap64 (- wrap64 a) = wrap64 (- a).
Proof.
  unfold wrap64.
  replace (- ((a + 2 ^ 63) mod 2 ^ 64 - 2 ^ 63) + 2 ^ 63)
    with (2 ^ 64 - (a + 2 ^ 63) mod 2 ^ 64) by lia.
  rewrite Zminus_mod_idemp_r. do 2 f_equal. lia.
Qed.

Lemma wrap64_idem (a : Z) : wrap64 (wrap64 a) = wrap64 a.
Proof.
  rewrite <- (Z.add_0_r (wrap64 a)) at 1. rewrite wrap64_add. now rewrite Z.add_0_r.
Qed.

Lemma digit_value_range (c : ascii) :
  is_digit c = true -> 0 <= digit_value c <= 9.
Proof.
  unfold is_digit, digit_value. intros [H1 H2]%andb_true_iff.
  apply Nat.leb_le in H1. apply Nat.leb_le in H2. lia.
Qed.

Lemma uvalue_acc (s : string) (acc : Z) :
  uvalue s acc = acc * 10 ^ Z.of_nat (String.length s) + uvalue s 0.
Proof.
  revert acc. induction s as [| c s IH]; intros acc.
  - cbn. lia.
  - cbn [uvalue String.length]. rewrite (IH (acc * 10 + digit_value c)).
    rewrite (IH (0 * 10 + digit_value c)).
    rewrite Nat2Z.inj_succ, Z.pow_succ_r by lia. ring.
Qed.

Lemma uvalue_range (s : string) :
  all is_digit s = true -> 0 <= uvalue s 0 < 10 ^ Z.of_nat (String.length s).
Proof.
  induction s as [| c s IH]; cbn [all uvalue String.length].
  - intros _. cbn. lia.
  - intros [Hc Hs]%andb_true_iff. rewrite uvalue_acc.
    pose proof (digit_value_range c Hc). specialize (IH Hs).
    rewrite Nat2Z.inj_succ, Z.pow_succ_r by lia. nia.
Qed.

(** The loop of [parseInt] adds up the number the digits write, in 64
    bits. *)
Lemma sum_digits_uvalue (b : string) (sum : Z) :
  sum_digits b (wrap64 sum) = wrap64 (sum + uvalue b 0).
Proof.
  revert sum. induction b as [| c b IH]; intros sum.
  - cbn [sum_digits uvalue]. now rewrite Z.add_0_r.
  - cbn [sum_digits uvalue]. rewrite wrap64_add, IH.
    rewrite (uvalue_acc b (0 * 10 + digit_value c)). f_equal. ring.
Qed.

Lemma sum_digits_zero (b : string) : sum_digits b 0 = wrap64 (uvalue b 0).
Proof. exact (sum_digits_uvalue b 0). Qed.

(** The digits the grammar reads write the number the grammar gives. *)
Lemma of_uint_acc_uvalue (d : Decimal.uint) (acc : positive) :
  Z.pos (Pos.of_uint_acc d acc)
  = uvalue (NilEmpty.string_of_uint d) (Z.pos acc).
Proof.
  revert acc.
  induction d; intros acc;
    cbn [Pos.of_uint_acc NilEmpty.string_of_uint uvalue]; try reflexivity;
    rewrite IHd; f_equal;
    match goal with
    | |- context [digit_value ?c] =>
        let v := eval vm_compute in (digit_value c) in
        change (digit_value c) with v
    end; lia.
Qed.

Lemma of_uint_uvalue (d : Decimal.uint) :
  Z.of_uint d = uvalue (NilEmpty.string_of_uint d) 0.
Proof.
  unfold Z.of_uint.
  induction d; cbn [Pos.of_uint NilEmpty.string_of_uint uvalue];
    try reflexivity; try exact IHd;
    cbn [Z.of_N]; rewrite of_uint_acc_uvalue; reflexivity.
Qed.

Lemma uint_of_string_value (ds : string) (u : Decimal.uint) :
  NilZero.uint_of_string ds = Some u -> Z.of_uint u = uvalue ds 0.
Proof.
  intros H.
  assert (H' : NilEmpty.uint_of_string ds = Some u)
    by (destruct ds; [discriminate H | exact H]).
  rewrite of_uint_uvalue. now rewrite (NilEmpty.sus ds u H').
Qed.

Lemma uint_of_string_digits (ds : string) (u : Decimal.uint) :
  NilEmpty.uint_of_string ds = Some u -> all is_digit ds = true.
Proof.
  revert u. induction ds as [| c ds IH]; intros u; [reflexivity |].
  cbn [NilEmpty.uint_of_string all].
  destruct (NilEmpty.uint_of_string ds) as [d |] eqn:E; [| discriminate].
  intros H. rewrite (IH d eq_refl), andb_true_r.
  apply uint_of_char_spec in H.
  repeat destruct H as [H | H]; destruct H as [-> _]; reflexivity.
Qed.

(** A string of digits that does not start with [0] has up to 19 digits
    exactly when its number is below [10^19]. *)
Lemma digits_count (c : ascii) (ds : string) :
  is_digit c = true ->
  all is_digit ds = true ->
  c <> "0"%char ->
  (String.length (String c ds) <=? 19)%nat = (uvalue (String c ds) 0 <? 10 ^ 19).
Proof.
  intros Hc Hds Hz.
  pose proof (uvalue_range (String c ds)) as Hr.
  cbn [all] in Hr. rewrite Hc, Hds in Hr. specialize (Hr eq_refl).
  cbn [uvalue] in *. rewrite uvalue_acc in *.
  pose proof (uvalue_range ds Hds) as Hd.
  assert (H1 : 1 <= digit_value c).
  { pose proof (digit_value_range c Hc).
    assert (digit_value c <> 0); [| lia].
    unfold digit_value. intros E. apply Hz.
    rewrite <- (ascii_nat_embedding c).
    replace (nat_of_ascii c) with 48%nat by lia. reflexivity. }
  cbn [String.length] in *.
  set (n := String.length ds) in *.
  destruct (Nat.leb_spec (S n) 19) as [Hn | Hn];
    destruct (Z.ltb_spec (( 0 * 10 + digit_value c) * 10 ^ Z.of_nat n + uvalue ds 0)
                (10 ^ 19)) as [Hv | Hv]; try reflexivity; exfalso.
  - assert (10 ^ Z.of_nat (S n) <= 10 ^ 19)
      by (apply Z.pow_le_mono_r; lia).
    lia.
  - assert (10 ^ 19 <= 10 ^ Z.of_nat n) by (apply Z.pow_le_mono_r; lia).
    nia.
Qed.

End Numbers.

(** * Strings *)

Ltac bits c := destruct c as [[|] [|] [|] [|] [|] [|] [|] [|]].

Section Strings.

Lemma hex_val_plain (c : ascii) (n : N) :
  hex_val c = Some n ->
  Ascii.eqb c "\" = false /\ Ascii.eqb c dq = false /\ Ascii.eqb c nul = false.
Proof. bits c; vm_compute; intros H; try discriminate H; repeat split. Qed.

Lemma getu4_plain (a b c d : ascii) (u : N) :
  getu4 a b c d = Some u ->
  body_ok false (String a (String b (String c (String d "")))) = true.
Proof.
  unfold getu4.
  destruct (hex_val a) eqn:Ha; [| discriminate].
  destruct (hex_val b) eqn:Hb; [| discriminate].
  destruct (hex_val c) eqn:Hc; [| discriminate].
  destruct (hex_val d) eqn:Hd; [| discriminate].
  intros _. cbn [body_ok].
  destruct (hex_val_plain a _ Ha) as (-> & -> & ->).
  destruct (hex_val_plain b _ Hb) as (-> & -> & ->).
  destruct (hex_val_plain c _ Hc) as (-> & -> & ->).
  destruct (hex_val_plain d _ Hd) as (-> & -> & ->).
  reflexivity.
Qed.

Lemma body_ok_app (a b : string) (esc : bool) :
  body_ok esc a = true -> body_ok false b = true -> body_ok esc (a ++ b) = true.
Proof.
  revert esc. induction a as [| c a IH]; intros esc; cbn [body_ok String.append].
  - destruct esc; [discriminate | auto].
  - destruct esc.
    + intros [H1 H2]%andb_true_iff Hb. rewrite H1. now apply IH.
    + destruct (Ascii.eqb c "\"); [now apply IH |].
      intros [H1 H2]%andb_true_iff Hb. rewrite H1. now apply IH.
Qed.

(** A unicode escape: the four digits, then the string goes on, after a
    second unicode escape when the two make a pair. *)
Lemma lex_string_u (h1 h2 h3 h4 : ascii) (r4 t r : string) :
  lex_string (String "\" (String "u"
    (String h1 (String h2 (String h3 (String h4 r4)))))) = Some (t, r) ->
  exists u,
    getu4 h1 h2 h3 h4 = Some u
    /\ ((exists t', lex_string r4 = Some (t', r))
        \/ (exists k1 k2 k3 k4 r8 t' u2,
               r4 = String "\" (String "u"
                      (String k1 (String k2 (String k3 (String k4 r8)))))
               /\ getu4 k1 k2 k3 k4 = Some u2
               /\ lex_string r8 = Some (t', r))).
Proof.
  cbn [lex_string Ascii.eqb Bool.eqb].
  destruct (getu4 h1 h2 h3 h4) as [u |]; [| discriminate].
  intros H. exists u. split; [reflexivity |].
  assert (L : forall w, option_map (fun '(t0, rest) => (w ++ t0, rest)) (lex_string r4)
                        = Some (t, r) -> exists t', lex_string r4 = Some (t', r)).
  { intros w. destruct (lex_string r4) as [[t' r'] |]; [| discriminate].
    cbn. intros [= _ ->]. now exists t'. }
  destruct (is_surrogate u); [| left; exact (L _ H)].
  destruct r4 as [| a r5]; [left; exact (L _ H) |].
  bits a; try (left; exact (L _ H)).
  destruct r5 as [| b r6]; [left; exact (L _ H) |].
  bits b; try (left; exact (L _ H)).
  destruct r6 as [| k1 [| k2 [| k3 [| k4 r8]]]]; try (left; exact (L _ H)).
  destruct (getu4 k1 k2 k3 k4) as [u2 |] eqn:E2; [| left; exact (L _ H)].
  destruct (decode_pair u u2); [| left; exact (L _ H)].
  right. exists k1, k2, k3, k4, r8.
  destruct (lex_string r8) as [[t' r'] |]; [| discriminate].
  cbn in H. injection H as _ ->. now exists t', u2.
Qed.

Lemma lex_string_body_n (n : nat) :
  forall s t r,
    (String.length s <= n)%nat ->
    lex_string s = Some (t, r) ->
    exists body, s = body ++ String dq r /\ body_ok false body = true.
Proof.
  induction n as [| n IH]; intros s t r Hn H.
  - destruct s; [discriminate H | cbn in Hn; lia].
  - destruct s as [| c s]; [discriminate H |].
    cbn [String.length] in Hn.
    destruct (Ascii.eqb_spec c dq) as [-> | Hq].
    { cbn in H. injection H as _ ->. exists "". split; reflexivity. }
    destruct (Ascii.eqb_spec c "\") as [-> | Hb].
    + destruct s as [| e s1]; [discriminate H |].
      destruct (Ascii.eqb_spec e "u") as [-> | Hu].
      * destruct s1 as [| h1 [| h2 [| h3 [| h4 r4]]]]; try discriminate H.
        destruct (lex_string_u h1 h2 h3 h4 r4 t r H) as (u & Hg & [(t' & Ht) | Hp]).
        -- destruct (IH r4 t' r) as (body & -> & Hbody);
             [cbn [String.length] in Hn; lia | exact Ht |].
           exists (String "\" (String "u" (String h1 (String h2 (String h3
                     (String h4 body)))))).
           split; [reflexivity |].
           change (body_ok false
                     (String "\" (String "u"
                        ((String h1 (String h2 (String h3 (String h4 "")))) ++ body)))
                   = true).
           cbn [body_ok Ascii.eqb Bool.eqb negb andb].
           apply body_ok_app; [exact (getu4_plain _ _ _ _ _ Hg) | exact Hbody].
        -- destruct Hp as (k1 & k2 & k3 & k4 & r8 & t' & u2 & -> & Hg2 & Ht).
           destruct (IH r8 t' r) as (body & -> & Hbody);
             [cbn [String.length] in Hn; lia | exact Ht |].
           exists (String "\" (String "u" (String h1 (String h2 (String h3
                     (String h4 (String "\" (String "u" (String k1 (String k2
                        (String k3 (String k4 body)))))))))))).
           split; [reflexivity |].
           change (body_ok false
                     (String "\" (String "u"
                        ((String h1 (String h2 (String h3 (String h4 "")))) ++
                         String "\" (String "u"
                           ((String k1 (String k2 (String k3 (String k4 ""))))
                            ++ body)))))
                   = true).
           cbn [body_ok Ascii.eqb Bool.eqb negb andb].
           apply body_ok_app; [exact (getu4_plain _ _ _ _ _ Hg) |].
           cbn [body_ok Ascii.eqb Bool.eqb negb andb].
           apply body_ok_app; [exact (getu4_plain _ _ _ _ _ Hg2) | exact Hbody].
      * assert (H' : match simple_escape e with
                     | Some x =>
                         option_map (fun '(t0, rest) => (String x t0, rest))
                           (lex_string s1)
                     | None => None
                     end = Some (t, r)).
        { revert H Hu. clear.
          bits e; intros H Hu; try exact H; now contradiction Hu. }
        clear H.
        destruct (simple_escape e) as [x |] eqn:Ee; [| discriminate H'].
        destruct (lex_string s1) as [[t' r'] |] eqn:Es; [| discriminate H'].
        cbn in H'. injection H' as _ ->.
        destruct (IH s1 t' r) as (body & -> & Hbody);
          [cbn [String.length] in Hn; lia | exact Es |].
        exists (String "\" (String e body)). split; [reflexivity |].
        cbn [body_ok Ascii.eqb Bool.eqb]. rewrite Hbody, andb_true_r.
        revert Ee. clear. bits e; vm_compute; congruence.
    + apply Ascii.eqb_neq in Hq. apply Ascii.eqb_neq in Hb.
      cbn [lex_string] in H. rewrite Hq, Hb in H.
      destruct (nat_of_ascii c <? 32)%nat eqn:Hc; [discriminate H |].
      destruct (lex_string s) as [[t' r'] |] eqn:Es; [| discriminate H].
      cbn in H. injection H as _ ->.
      destruct (IH s t' r) as (body & -> & Hbody); [lia | exact Es |].
      exists (String c body). split; [reflexivity |].
      cbn [body_ok]. rewrite Hb, Hq, Hbody. cbn [negb andb].
      rewrite andb_true_r. revert Hc. clear. bits c; vm_compute; congruence.
Qed.

(** A string the grammar reads is its content, which the decoder can pass
    over, and the closing quote. *)
Lemma lex_string_body (s t r : string) :
  lex_string s = Some (t, r) ->
  exists body, s = body ++ String dq r /\ body_ok false body = true.
Proof. exact (lex_string_body_n (String.length s) s t r (Nat.le_refl _)). Qed.

Lemma lex_string_length (s t r : string) :
  lex_string s = Some (t, r) -> (String.length r < String.length s)%nat.
Proof.
  intros H. destruct (lex_string_body s t r H) as (body & -> & _).
  rewrite length_append. cbn [String.length]. lia.
Qed.

Lemma skip_string_body (body r : string) :
  (body_ok false body = true -> skip_string (body ++ String dq r) = Some r)
  /\ (body_ok true body = true ->
      skip_string (String "\" (body ++ String dq r)) = Some r).
Proof.
  induction body as [| c body [IH1 IH2]]; split;
    cbn [body_ok negb String.append]; try discriminate.
  - intros _. reflexivity.
  - destruct (Ascii.eqb c "\") eqn:Hb.
    + apply Ascii.eqb_eq in Hb. subst c. exact IH2.
    + intros [[Hq Hn]%andb_true_iff H]%andb_true_iff.
      apply negb_true_iff in Hq. apply negb_true_iff in Hn.
      cbn [skip_string]. rewrite Hb, Hq, Hn. now apply IH1.
  - intros [Hn H]%andb_true_iff. apply negb_true_iff in Hn.
    cbn [skip_string Ascii.eqb Bool.eqb]. rewrite Hn. now apply IH1.
Qed.

Lemma scan_body (opening closing : ascii) (n : nat) (body r : string) :
  forall esc,
    body_ok esc body = true ->
    scan opening closing (if esc then Escaped else InString) n
      (body ++ String dq r)
    = scan opening closing Plain n r.
Proof.
  induction body as [| c body IH]; intros esc; cbn [body_ok String.append].
  - destruct esc; [discriminate |]. intros _. reflexivity.
  - destruct esc.
    + intros [Hn H]%andb_true_iff. apply negb_true_iff in Hn.
      cbn [scan]. rewrite Hn. exact (IH false H).
    + cbn [scan]. destruct (Ascii.eqb c "\").
      * intros H. exact (IH true H).
      * intros [[Hq Hn]%andb_true_iff H]%andb_true_iff.
        apply negb_true_iff in Hq. apply negb_true_iff in Hn.
        rewrite Hq, Hn. exact (IH false H).
Qed.

End Strings.

(** * Numbers of the grammar *)

Section Lexemes.

Lemma all_app (p : ascii -> bool) (a b : string) :
  all p (a ++ b) = all p a && all p b.
Proof.
  induction a as [| c a IH]; cbn [all String.append]; [reflexivity |].
  now rewrite IH, andb_assoc.
Qed.

Lemma span_digits_spec (s ds r : string) :
  span_digits s = (ds, r) ->
  s = ds ++ r /\ all is_digit ds = true /\ starts is_digit r = false.
Proof.
  revert ds r. induction s as [| c s IH]; intros ds r; cbn [span_digits].
  - intros [= <- <-]. repeat split.
  - destruct (is_digit c) eqn:Hc.
    + destruct (span_digits s) as [ds' r'] eqn:E. intros [= <- <-].
      destruct (IH ds' r' eq_refl) as (-> & Hd & Hr).
      cbn [all String.append]. now rewrite Hc, Hd.
    + intros [= <- <-]. cbn [starts]. repeat split. exact Hc.
Qed.

Lemma digit_float (c : ascii) : is_digit c = true -> is_float_char c = true.
Proof. unfold is_float_char. now intros ->. Qed.

Lemma all_digit_float (s : string) :
  all is_digit s = true -> all is_float_char s = true.
Proof.
  induction s as [| c s IH]; cbn [all]; [reflexivity |].
  intros [Hc Hs]%andb_true_iff. now rewrite (digit_float c Hc), IH.
Qed.

Lemma lex_int_part_inv (s ds r : string) :
  lex_int_part s = Some (ds, r) ->
  span_digits s = (ds, r)
  /\ (exists c t, ds = String c t /\ (c = "0"%char -> t = "")).
Proof.
  unfold lex_int_part. destruct (span_digits s) as [ds' r'].
  destruct ds' as [| c t]; [discriminate |].
  destruct (Ascii.eqb_spec c "0") as [-> | Hc].
  - destruct t as [| c' t']; [| discriminate].
    intros [= <- <-]. split; [reflexivity |]. now exists "0"%char, "".
  - intros H.
    assert (H' : Some (String c t, r') = Some (ds, r)).
    { revert H Hc. clear. bits c; intros H Hc; try exact H; now contradiction Hc. }
    injection H' as <- <-. split; [reflexivity |]. exists c, t.
    split; [reflexivity | intros E; now contradiction Hc].
Qed.

Lemma lex_frac_inv (s fr r : string) :
  lex_frac s = Some (fr, r) ->
  (fr = "" /\ r = s /\ starts (fun c => Ascii.eqb c ".") s = false)
  \/ (fr <> "" /\ starts (fun c => Ascii.eqb c ".") s = true
      /\ s = fr ++ r /\ all is_float_char fr = true).
Proof.
  unfold lex_frac. destruct s as [| c s]; [intros [= <- <-]; now left |].
  destruct (Ascii.eqb_spec c ".") as [-> | Hc].
  - destruct (span_digits s) as [ds r'] eqn:E.
    destruct (span_digits_spec s ds r' E) as (-> & Hd & _).
    destruct ds as [| d ds]; [discriminate |].
    intros [= <- <-]. right. repeat split; [discriminate |].
    exact (all_digit_float _ Hd).
  - intros H. left.
    assert (H' : Some ("", String c s) = Some (fr, r)).
    { revert H Hc. clear. bits c; intros H Hc; try exact H; now contradiction Hc. }
    injection H' as <- <-. repeat split. cbn [starts].
    apply Ascii.eqb_neq. congruence.
Qed.

Lemma lex_exp_inv (s ex r : string) :
  lex_exp s = Some (ex, r) ->
  (ex = "" /\ r = s
   /\ starts (fun c => Ascii.eqb c "e" || Ascii.eqb c "E") s = false)
  \/ (ex <> ""
      /\ starts (fun c => Ascii.eqb c "e" || Ascii.eqb c "E") s = true
      /\ s = ex ++ r /\ all is_float_char ex = true).
Proof.
  unfold lex_exp. destruct s as [| c s]; [intros [= <- <-]; now left |].
  cbn [starts].
  destruct (Ascii.eqb c "e" || Ascii.eqb c "E") eqn:Hc;
    [| intros [= <- <-]; now left].
  assert (Hf : is_float_char c = true).
  { unfold is_float_char. apply orb_true_iff in Hc as [-> | ->];
      now rewrite ?orb_true_r. }
  set (sg := match s with
             | String "+" r1 => ("+", r1)
             | String "-" r1 => ("-", r1)
             | _ => ("", s)
             end).
  assert (Hsg : s = fst sg ++ snd sg /\ all is_float_char (fst sg) = true).
  { subst sg. destruct s as [| d s]; [now split |].
    bits d; now split. }
  destruct sg as [g r1]. cbn [fst snd] in Hsg. destruct Hsg as [-> Hg].
  destruct (span_digits r1) as [ds r'] eqn:E.
  destruct (span_digits_spec r1 ds r' E) as (-> & Hd & _).
  destruct ds as [| d ds]; [discriminate |].
  intros [= <- <-]. right. repeat split; [discriminate | |].
  - cbn [String.append]. now rewrite !append_assoc.
  - cbn [all]. rewrite Hf, all_app, Hg. exact (all_digit_float _ Hd).
Qed.

(** A number of the grammar: the sign, the digits, and either nothing more
    (an integer) or a fraction or an exponent, which starts with [.], [e]
    or [E]. *)
Lemma lex_number_inv (s : string) (n : number) (r : string) :
  lex_number s = Some (n, r) ->
  exists neg s1 c t r1,
    lex_sign s = (neg, s1)
    /\ span_digits s1 = (String c t, r1)
    /\ (c = "0"%char -> t = "")
    /\ match n with
       | NInt z =>
           r = r1
           /\ exists u,
               NilZero.uint_of_string (String c t) = Some u
               /\ z = (if neg then - Z.of_uint u else Z.of_uint u)
       | NLit _ =>
           starts (fun c => Ascii.eqb c "." || Ascii.eqb c "e" || Ascii.eqb c "E")
             r1 = true
           /\ exists mid, r1 = mid ++ r /\ all is_float_char mid = true
       end.
Proof.
  unfold lex_number. destruct (lex_sign s) as [neg s1].
  destruct (lex_int_part s1) as [[ds r1] |] eqn:Ei; [| discriminate].
  destruct (lex_int_part_inv s1 ds r1 Ei) as (Hs & c & t & -> & Hz).
  destruct (lex_frac r1) as [[fr r2] |] eqn:Ef; [| discriminate].
  destruct (lex_exp r2) as [[ex r3] |] eqn:Ee; [| discriminate].
  intros H. exists neg, s1, c, t, r1. repeat split; [exact Hs | exact Hz |].
  destruct (lex_frac_inv r1 fr r2 Ef) as [(-> & -> & Hf) | (Hfr & Hf & -> & Hfa)].
  - destruct (lex_exp_inv r1 ex r3 Ee) as [(-> & -> & He) | (Hex & He & -> & Hea)].
    + destruct (NilZero.uint_of_string (String c t)) as [u |] eqn:Eu;
        [| discriminate].
      injection H as <- <-. split; [reflexivity |]. now exists u.
    + assert (H' : Some (NLit ((if neg then "-" else "") ++ String c t ++ "" ++ ex),
                         r3) = Some (n, r)).
      { destruct ex; [now contradiction Hex | exact H]. }
      injection H' as <- <-. split.
      * destruct ex as [| e ex]; [now contradiction Hex |].
        cbn [String.append starts] in *.
        destruct (Ascii.eqb e "."); [reflexivity | exact He].
      * now exists ex.
  - assert (H' : Some (NLit ((if neg then "-" else "") ++ String c t ++ fr ++ ex),
                       r3) = Some (n, r)).
    { destruct fr; [now contradiction Hfr | exact H]. }
    injection H' as <- <-. split.
    + destruct fr as [| e fr]; [now contradiction Hfr |].
      cbn [String.append starts] in *. now rewrite Hf.
    + destruct (lex_exp_inv r2 ex r3 Ee) as [(-> & -> & _) | (_ & _ & -> & Hea)].
      * now exists fr.
      * exists (fr ++ ex). split; [now rewrite append_assoc |].
        now rewrite all_app, Hfa, Hea.
Qed.

Lemma lex_sign_inv (s : string) (neg : bool) (s1 : string) :
  lex_sign s = (neg, s1) ->
  (neg = true /\ s = String "-" s1)
  \/ (neg = false /\ s = s1 /\ starts (Ascii.eqb "-") s = false).
Proof.
  unfold lex_sign. destruct s as [| c s]; [intros [= <- <-]; now right |].
  destruct (Ascii.eqb_spec c "-") as [-> | Hc].
  - intros [= <- <-]. now left.
  - intros H. right.
    assert (H' : (false, String c s) = (neg, s1)).
    { revert H Hc. clear. bits c; intros H Hc; try exact H; now contradiction Hc. }
    injection H' as <- <-. repeat split. cbn [starts].
    apply Ascii.eqb_neq. congruence.
Qed.

(** The text of a number: a sign or a digit, then bytes a number goes on
    with. *)
Lemma lex_number_span (s : string) (n : number) (r : string) :
  lex_number s = Some (n, r) ->
  exists c pre,
    s = String c (pre ++ r)
    /\ (is_digit c || Ascii.eqb c "-") = true
    /\ all is_float_char pre = true.
Proof.
  intros H.
  destruct (lex_number_inv s n r H) as (neg & s1 & c & t & r1 & Hs & Hd & _ & Hn).
  destruct (span_digits_spec s1 _ r1 Hd) as (-> & Hall & _).
  cbn [all] in Hall. apply andb_true_iff in Hall as [Hc Ht].
  assert (Hr : exists mid, r1 = mid ++ r /\ all is_float_char mid = true).
  { destruct n as [z | l].
    - destruct Hn as [-> _]. now exists "".
    - now destruct Hn as [_ Hm]. }
  destruct Hr as (mid & -> & Hmid).
  destruct (lex_sign_inv s neg _ Hs) as [(-> & ->) | (-> & -> & _)].
  - exists "-"%char, (String c t ++ mid). repeat split.
    + now rewrite append_assoc.
    + cbn [all String.append]. rewrite all_app, (digit_float c Hc),
        (all_digit_float t Ht), Hmid. reflexivity.
  - exists c, (t ++ mid). repeat split.
    + cbn [String.append]. now rewrite append_assoc.
    + now rewrite Hc.
    + now rewrite all_app, (all_digit_float t Ht), Hmid.
Qed.

Lemma lex_number_length (s : string) (n : number) (r : string) :
  lex_number s = Some (n, r) -> (String.length r < String.length s)%nat.
Proof.
  intros H. destruct (lex_number_span s n r H) as (c & pre & -> & _).
  cbn [String.length]. rewrite length_append. lia.
Qed.

Lemma strip_prefix_app (lit s r : string) :
  strip_prefix lit s = Some r -> s = lit ++ r.
Proof.
  revert s. induction lit as [| a lit IH]; intros s; cbn [strip_prefix].
  - now intros [= ->].
  - destruct s as [| b s]; [discriminate |].
    destruct (Ascii.eqb_spec a b) as [<- | _]; [| discriminate].
    intros H. cbn [String.append]. now rewrite (IH s H).
Qed.

End Lexemes.

(** * Values of the grammar *)

Section Values.

Lemma parse_value_nil (f : nat) : parse_value f "" = None.
Proof. destruct f; reflexivity. Qed.

Lemma parse_members_nil (f : nat) : parse_members f "" = None.
Proof. destruct f; reflexivity. Qed.

Lemma parse_elements_nil (f : nat) : parse_elements f "" = None.
Proof.
  destruct f as [| f]; [reflexivity |].
  rewrite parse_elements_step. now rewrite parse_value_nil.
Qed.

(** What the parser has read when it gives a value. *)
Lemma parse_value_inv (f : nat) (s : string) (v : json) (r : string) :
  parse_value f s = Some (v, r) ->
  exists f' c t,
    f = S f' /\ skip_ws s = String c t
    /\ match v with
       | JObj ms =>
           c = "{"%char
           /\ exists c1 r1,
               skip_ws t = String c1 r1
               /\ if Ascii.eqb c1 "}" then ms = [] /\ r = r1
                  else parse_members f' (String c1 r1) = Some (ms, r)
       | JArr es =>
           c = "["%char
           /\ exists c1 r1,
               skip_ws t = String c1 r1
               /\ if Ascii.eqb c1 "]" then es = [] /\ r = r1
                  else parse_elements f' (String c1 r1) = Some (es, r)
       | JStr x => c = dq /\ lex_string t = Some (x, r)
       | JBool b =>
           c = (if b then "t" else "f")%char
           /\ strip_prefix (if b then "true" else "false") (String c t) = Some r
       | JNull => c = "n"%char /\ strip_prefix "null" (String c t) = Some r
       | JNum n => lex_number (String c t) = Some (n, r)
       end.
Proof.
  destruct f as [| f']; [discriminate |].
  rewrite parse_value_step.
  destruct (skip_ws s) as [| c t]; [discriminate |].
  intros H. exists f', c, t. split; [reflexivity |]. split; [reflexivity |].
  destruct (Ascii.eqb_spec c "{") as [-> | H1].
  { destruct (skip_ws t) as [| c1 r1] eqn:Et.
    - rewrite parse_members_nil in H. discriminate H.
    - destruct (Ascii.eqb c1 "}") eqn:E1.
      + injection H as <- <-. split; [reflexivity |].
        exists c1, r1. rewrite E1. now repeat split.
      + destruct (parse_members f' (String c1 r1)) as [[ms r'] |] eqn:Em;
          [| discriminate H].
        cbn in H. injection H as <- <-. split; [reflexivity |].
        exists c1, r1. rewrite E1. now split. }
  destruct (Ascii.eqb_spec c "[") as [-> | H2].
  { destruct (skip_ws t) as [| c1 r1] eqn:Et.
    - rewrite parse_elements_nil in H. discriminate H.
    - destruct (Ascii.eqb c1 "]") eqn:E1.
      + injection H as <- <-. split; [reflexivity |].
        exists c1, r1. rewrite E1. now repeat split.
      + destruct (parse_elements f' (String c1 r1)) as [[es r'] |] eqn:Em;
          [| discriminate H].
        cbn in H. injection H as <- <-. split; [reflexivity |].
        exists c1, r1. rewrite E1. now split. }
  destruct (Ascii.eqb_spec c dq) as [-> | H3].
  { destruct (lex_string t) as [[x r'] |]; [| discriminate H].
    cbn in H. injection H as <- <-. now split. }
  unfold expect in H.
  destruct (Ascii.eqb_spec c "t") as [-> | H4].
  { destruct (strip_prefix "true" (String "t" t)) as [r' |] eqn:E;
      [| discriminate H].
    cbn in H. injection H as <- <-. now split. }
  destruct (Ascii.eqb_spec c "f") as [-> | H5].
  { destruct (strip_prefix "false" (String "f" t)) as [r' |] eqn:E;
      [| discriminate H].
    cbn in H. injection H as <- <-. now split. }
  destruct (Ascii.eqb_spec c "n") as [-> | H6].
  { destruct (strip_prefix "null" (String "n" t)) as [r' |] eqn:E;
      [| discriminate H].
    cbn in H. injection H as <- <-. now split. }
  destruct (lex_number (String c t)) as [[n r'] |] eqn:E; [| discriminate H].
  cbn in H. injection H as <- <-. reflexivity.
Qed.

(** What the parser has read when it gives the members of an object. *)
Lemma parse_members_inv (f : nat) (s : string) (ms : list (string * json))
  (r : string) :
  parse_members f s = Some (ms, r) ->
  exists f' t k r1 r2 v r3 c4 r4,
    f = S f' /\ s = String dq t
    /\ lex_string t = Some (k, r1)
    /\ skip_ws r1 = String ":" r2
    /\ parse_value f' r2 = Some (v, r3)
    /\ skip_ws r3 = String c4 r4
    /\ ((c4 = ","%char
         /\ exists ms', parse_members f' (skip_ws r4) = Some (ms', r)
                        /\ ms = (k, v) :: ms')
        \/ (c4 = "}"%char /\ r = r4 /\ ms = [(k, v)])).
Proof.
  destruct f as [| f']; [discriminate |].
  rewrite parse_members_step.
  destruct s as [| c t]; [discriminate |].
  destruct (Ascii.eqb_spec c dq) as [-> | _]; [| discriminate].
  destruct (lex_string t) as [[k r1] |] eqn:Ek; [| discriminate].
  destruct (skip_ws r1) as [| c2 r2] eqn:E1; [discriminate |].
  destruct (Ascii.eqb_spec c2 ":") as [-> | _]; [| discriminate].
  destruct (parse_value f' r2) as [[v r3] |] eqn:Ev; [| discriminate].
  destruct (skip_ws r3) as [| c4 r4] eqn:E3; [discriminate |].
  intros H. exists f', t, k, r1, r2, v, r3, c4, r4.
  do 2 (split; [reflexivity |]).
  split; [exact Ek |]. split; [exact E1 |]. split; [exact Ev |].
  split; [exact E3 |].
  destruct (Ascii.eqb_spec c4 ",") as [-> | _].
  - left. split; [reflexivity |].
    destruct (parse_members f' (skip_ws r4)) as [[ms' r'] |]; [| discriminate H].
    cbn in H. injection H as <- <-. now exists ms'.
  - destruct (Ascii.eqb_spec c4 "}") as [-> | _]; [| discriminate H].
    injection H as <- <-. now right.
Qed.

Lemma parse_elements_inv (f : nat) (s : string) (es : list json) (r : string) :
  parse_elements f s = Some (es, r) ->
  exists f' v r1 c2 r2,
    f = S f'
    /\ parse_value f' s = Some (v, r1)
    /\ skip_ws r1 = String c2 r2
    /\ ((c2 = ","%char
         /\ exists es', parse_elements f' r2 = Some (es', r) /\ es = v :: es')
        \/ (c2 = "]"%char /\ r = r2 /\ es = [v])).
Proof.
  destruct f as [| f']; [discriminate |].
  rewrite parse_elements_step.
  destruct (parse_value f' s) as [[v r1] |] eqn:Ev; [| discriminate].
  destruct (skip_ws r1) as [| c2 r2] eqn:E1; [discriminate |].
  intros H. exists f', v, r1, c2, r2.
  split; [reflexivity |]. split; [exact Ev |]. split; [exact E1 |].
  destruct (Ascii.eqb_spec c2 ",") as [-> | _].
  - left. split; [reflexivity |].
    destruct (parse_elements f' r2) as [[es' r'] |]; [| discriminate H].
    cbn in H. injection H as <- <-. now exists es'.
  - destruct (Ascii.eqb_spec c2 "]") as [-> | _]; [| discriminate H].
    injection H as <- <-. now right.
Qed.

(** *** The parser reads forward *)

Lemma parse_length (f : nat) :
  (forall s v r,
      parse_value f s = Some (v, r) -> (String.length r < String.length s)%nat)
  /\ (forall s ms r,
         parse_members f s = Some (ms, r) ->
         (String.length r < String.length s)%nat)
  /\ (forall s es r,
         parse_elements f s = Some (es, r) ->
         (String.length r < String.length s)%nat).
Proof.
  induction f as [| f (IHv & IHm & IHe)]; [repeat split; discriminate |].
  split; [| split].
  - intros s v r H.
    destruct (parse_value_inv _ _ _ _ H) as (f' & c & t & [= <-] & Es & Hv).
    pose proof (skip_ws_length s) as Ls. rewrite Es in Ls.
    cbn [String.length] in Ls.
    destruct v as [| b | n | x | es | ms].
    + destruct Hv as [_ Hv]. apply strip_prefix_app in Hv.
      apply (f_equal String.length) in Hv. rewrite length_append in Hv.
      cbn [String.length] in Hv. lia.
    + destruct Hv as [_ Hv]. apply strip_prefix_app in Hv.
      apply (f_equal String.length) in Hv. rewrite length_append in Hv.
      destruct b; cbn [String.length] in Hv; lia.
    + apply lex_number_length in Hv. cbn [String.length] in Hv. lia.
    + destruct Hv as [_ Hv]. apply lex_string_length in Hv. lia.
    + destruct Hv as (_ & c1 & r1 & Et & Hv).
      pose proof (skip_ws_length t) as Lt. rewrite Et in Lt.
      cbn [String.length] in Lt.
      destruct (Ascii.eqb c1 "]").
      * destruct Hv as [_ ->]. lia.
      * apply IHe in Hv. cbn [String.length] in Hv. lia.
    + destruct Hv as (_ & c1 & r1 & Et & Hv).
      pose proof (skip_ws_length t) as Lt. rewrite Et in Lt.
      cbn [String.length] in Lt.
      destruct (Ascii.eqb c1 "}").
      * destruct Hv as [_ ->]. lia.
      * apply IHm in Hv. cbn [String.length] in Hv. lia.
  - intros s ms r H.
    destruct (parse_members_inv _ _ _ _ H)
      as (f' & t & k & r1 & r2 & v & r3 & c4 & r4 & [= <-] & -> & Hk & E1 & Hv
          & E3 & Hc).
    apply lex_string_length in Hk. apply IHv in Hv.
    pose proof (skip_ws_length r1) as L1. rewrite E1 in L1.
    pose proof (skip_ws_length r3) as L3. rewrite E3 in L3.
    cbn [String.length] in *.
    destruct Hc as [(_ & ms' & Hm & _) | (_ & -> & _)]; [| lia].
    apply IHm in Hm. pose proof (skip_ws_length r4). lia.
  - intros s es r H.
    destruct (parse_elements_inv _ _ _ _ H)
      as (f' & v & r1 & c2 & r2 & [= <-] & Hv & E1 & Hc).
    apply IHv in Hv.
    pose proof (skip_ws_length r1) as L1. rewrite E1 in L1.
    cbn [String.length] in *.
    destruct Hc as [(_ & es' & He & _) | (_ & -> & _)]; [| lia].
    apply IHe in He. lia.
Qed.

End Values.

(** * Fuel, and passing over a value *)

Section Fuel.

Lemma number_head (c : ascii) :
  (is_digit c || Ascii.eqb c "-") = true ->
  Ascii.eqb c "{" = false /\ Ascii.eqb c "[" = false /\ Ascii.eqb c dq = false
  /\ Ascii.eqb c "t" = false /\ Ascii.eqb c "f" = false
  /\ Ascii.eqb c "n" = false.
Proof.
  bits c; vm_compute; intros H; try discriminate H; repeat split.
Qed.

(** The fuel the parser needs is bounded by what it reads. *)
Lemma parse_fuel (f : nat) :
  forall g,
    (forall s v r,
        parse_value f s = Some (v, r) ->
        (String.length s - String.length r <= g)%nat ->
        parse_value g s = Some (v, r))
    /\ (forall s ms r,
           parse_members f s = Some (ms, r) ->
           (String.length s - String.length r <= g)%nat ->
           parse_members g s = Some (ms, r))
    /\ (forall s es r,
           parse_elements f s = Some (es, r) ->
           (String.length s - String.length r <= g)%nat ->
           parse_elements g s = Some (es, r)).
Proof.
  induction f as [| f IH]; intros g; [repeat split; discriminate |].
  split; [| split].
  - intros s v r H Hg.
    pose proof (proj1 (parse_length _) _ _ _ H) as Hl.
    destruct g as [| g]; [lia |].
    destruct (IH g) as (_ & IHm & IHe).
    destruct (parse_value_inv _ _ _ _ H) as (f' & c & t & [= <-] & Es & Hv).
    pose proof (skip_ws_length s) as Ls. rewrite Es in Ls.
    cbn [String.length] in Ls.
    rewrite parse_value_step, Es. rewrite parse_value_step, Es in H.
    destruct v as [| b | n | x | es | ms].
    + destruct Hv as [-> _]. exact H.
    + destruct Hv as [-> _]. destruct b; exact H.
    + destruct (lex_number_span _ _ _ Hv) as (c' & pre & [= <- _] & Hc & _).
      destruct (number_head c Hc) as (E1 & E2 & E3 & E4 & E5 & E6).
      rewrite E1, E2, E3, E4, E5, E6 in *. exact H.
    + destruct Hv as [-> _]. exact H.
    + destruct Hv as (-> & c1 & r1 & Et & Hv).
      pose proof (skip_ws_length t) as Lt. rewrite Et in Lt.
      cbn [String.length] in Lt.
      cbn [Ascii.eqb Bool.eqb] in *. rewrite Et in *.
      destruct (Ascii.eqb c1 "]"); [exact H |].
      pose proof (proj2 (proj2 (parse_length _)) _ _ _ Hv) as Hl'.
      cbn [String.length] in Hl'.
      rewrite (IHe _ _ _ Hv); [reflexivity | cbn [String.length]; lia].
    + destruct Hv as (-> & c1 & r1 & Et & Hv).
      pose proof (skip_ws_length t) as Lt. rewrite Et in Lt.
      cbn [String.length] in Lt.
      cbn [Ascii.eqb Bool.eqb] in *. rewrite Et in *.
      destruct (Ascii.eqb c1 "}"); [exact H |].
      pose proof (proj1 (proj2 (parse_length _)) _ _ _ Hv) as Hl'.
      cbn [String.length] in Hl'.
      rewrite (IHm _ _ _ Hv); [reflexivity | cbn [String.length]; lia].
  - intros s ms r H Hg.
    pose proof (proj1 (proj2 (parse_length _)) _ _ _ H) as Hl.
    destruct g as [| g]; [lia |].
    destruct (IH g) as (IHv & IHm & _).
    destruct (parse_members_inv _ _ _ _ H)
      as (f' & t & k & r1 & r2 & v & r3 & c4 & r4 & [= <-] & -> & Hk & E1 & Hv
          & E3 & Hc).
    pose proof (lex_string_length _ _ _ Hk) as Lk.
    pose proof (proj1 (parse_length _) _ _ _ Hv) as Lv.
    pose proof (skip_ws_length r1) as L1. rewrite E1 in L1.
    pose proof (skip_ws_length r3) as L3. rewrite E3 in L3.
    cbn [String.length] in *.
    rewrite parse_members_step.
    cbn [Ascii.eqb Bool.eqb]. rewrite Hk, E1. cbn [Ascii.eqb Bool.eqb].
    destruct Hc as [(-> & ms' & Hm & ->) | (-> & -> & ->)].
    + pose proof (proj1 (proj2 (parse_length _)) _ _ _ Hm) as Lm.
      pose proof (skip_ws_length r4) as L4.
      rewrite (IHv _ _ _ Hv) by lia. rewrite E3. cbn [Ascii.eqb Bool.eqb].
      rewrite (IHm _ _ _ Hm) by lia. reflexivity.
    + rewrite (IHv _ _ _ Hv) by lia. rewrite E3. reflexivity.
  - intros s es r H Hg.
    pose proof (proj2 (proj2 (parse_length _)) _ _ _ H) as Hl.
    destruct g as [| g]; [lia |].
    destruct (IH g) as (IHv & _ & IHe).
    destruct (parse_elements_inv _ _ _ _ H)
      as (f' & v & r1 & c2 & r2 & [= <-] & Hv & E1 & Hc).
    pose proof (proj1 (parse_length _) _ _ _ Hv) as Lv.
    pose proof (skip_ws_length r1) as L1. rewrite E1 in L1.
    cbn [String.length] in *.
    rewrite parse_elements_step.
    destruct Hc as [(-> & es' & He & ->) | (-> & -> & ->)].
    + pose proof (proj2 (proj2 (parse_length _)) _ _ _ He) as Le.
      rewrite (IHv _ _ _ Hv) by lia. rewrite E1. cbn [Ascii.eqb Bool.eqb].
      rewrite (IHe _ _ _ He) by lia. reflexivity.
    + rewrite (IHv _ _ _ Hv) by lia. rewrite E1. reflexivity.
Qed.

(** A value the parser reads with some fuel, it reads with the fuel of
    [parse]. *)
Lemma parse_value_enough (f : nat) (s : string) (v : json) (r : string) :
  parse_value f s = Some (v, r) ->
  parse_value (S (String.length s)) s = Some (v, r).
Proof.
  intros H. apply (proj1 (parse_fuel f _) _ _ _ H). lia.
Qed.

End Fuel.

Section Skipping.

Lemma scan_plain (o c d : ascii) (n : nat) (r : string) :
  Ascii.eqb d o = false ->
  Ascii.eqb d c = false ->
  Ascii.eqb d dq = false ->
  Ascii.eqb d nul = false ->
  scan o c Plain n (String d r) = scan o c Plain n r.
Proof. intros H1 H2 H3 H4. cbn [scan]. now rewrite H1, H2, H3, H4. Qed.

Lemma scan_ws_char (o c d : ascii) (n : nat) (r : string) :
  brackets o c ->
  is_ws d = true ->
  scan o c Plain n (String d r) = scan o c Plain n r.
Proof.
  intros [[-> ->] | [-> ->]] Hd; apply scan_plain;
    revert Hd; clear; bits d; vm_compute; congruence.
Qed.

Lemma scan_skip_ws (o c : ascii) (n : nat) (s : string) :
  brackets o c ->
  scan o c Plain n s = scan o c Plain n (skip_ws s).
Proof.
  intros Hb. induction s as [| d s IH]; [reflexivity |].
  cbn [skip_ws]. destruct (is_ws d) eqn:Hd; [| reflexivity].
  now rewrite (scan_ws_char o c d n s Hb Hd).
Qed.

Lemma scan_float_char (o c d : ascii) (n : nat) (r : string) :
  brackets o c ->
  is_float_char d = true ->
  scan o c Plain n (String d r) = scan o c Plain n r.
Proof.
  intros [[-> ->] | [-> ->]] Hd; apply scan_plain;
    revert Hd; clear; bits d; vm_compute; congruence.
Qed.

Lemma scan_float (o c : ascii) (n : nat) (pre r : string) :
  brackets o c ->
  all is_float_char pre = true ->
  scan o c Plain n (pre ++ r) = scan o c Plain n r.
Proof.
  intros Hb. induction pre as [| d pre IH]; [reflexivity |].
  cbn [all String.append]. intros [Hd Hp]%andb_true_iff.
  rewrite (scan_float_char o c d n _ Hb Hd). now apply IH.
Qed.

Lemma scan_number (o c : ascii) (n : nat) (s : string) (x : number) (r : string) :
  brackets o c ->
  lex_number s = Some (x, r) ->
  scan o c Plain n s = scan o c Plain n r.
Proof.
  intros Hb H.
  destruct (lex_number_span s x r H) as (d & pre & -> & Hd & Hp).
  rewrite scan_float_char; [now apply scan_float | exact Hb |].
  unfold is_float_char. apply orb_true_iff in Hd as [-> | ->];
    now rewrite ?orb_true_r.
Qed.

Lemma scan_string (o c : ascii) (n : nat) (t x r : string) :
  lex_string t = Some (x, r) ->
  scan o c InString n t = scan o c Plain n r.
Proof.
  intros H. destruct (lex_string_body t x r H) as (body & -> & Hb).
  exact (scan_body o c n body r false Hb).
Qed.

Lemma scan_literal (o c : ascii) (n : nat) (lit s r : string) :
  brackets o c ->
  lit = "true" \/ lit = "false" \/ lit = "null" ->
  strip_prefix lit s = Some r ->
  scan o c Plain n s = scan o c Plain n r.
Proof.
  intros [[-> ->] | [-> ->]] Hl H; apply strip_prefix_app in H; subst s;
    destruct Hl as [-> | [-> | ->]]; reflexivity.
Qed.

(** What the parser reads as a value leaves the count of brackets as it
    was; what it reads as the members of an object, or the elements of an
    array, does so up to the bracket that closes them. *)
Lemma scan_parse (o c : ascii) (Hb : brackets o c) (f : nat) :
  (forall s v r n,
      parse_value f s = Some (v, r) ->
      scan o c Plain n s = scan o c Plain n r)
  /\ (forall s ms r n,
         parse_members f s = Some (ms, r) ->
         scan o c Plain n s = scan o c Plain n (String "}" r))
  /\ (forall s es r n,
         parse_elements f s = Some (es, r) ->
         scan o c Plain n s = scan o c Plain n (String "]" r)).
Proof.
  induction f as [| f (IHv & IHm & IHe)]; [repeat split; discriminate |].
  split; [| split].
  - intros s v r n H.
    destruct (parse_value_inv _ _ _ _ H) as (f' & d & t & [= <-] & Es & Hv).
    rewrite (scan_skip_ws o c n s Hb), Es.
    destruct v as [| b | x | x | es | ms].
    + destruct Hv as [_ Hv]. apply (scan_literal o c n "null"); auto.
    + destruct Hv as [_ Hv].
      destruct b; [apply (scan_literal o c n "true")
                  | apply (scan_literal o c n "false")]; auto.
    + now apply (scan_number o c n _ x).
    + destruct Hv as [-> Hv].
      rewrite <- (scan_string o c n t x r Hv).
      destruct Hb as [[-> ->] | [-> ->]]; reflexivity.
    + destruct Hv as (-> & c1 & r1 & Et & Hv).
      assert (He : scan o c Plain n (String c1 r1)
                   = scan o c Plain n (String "]" r)).
      { destruct (Ascii.eqb_spec c1 "]") as [-> | _].
        - now destruct Hv as [_ ->].
        - now apply IHe with (es := es). }
      destruct Hb as [[-> ->] | [-> ->]].
      * transitivity (scan "{" "}" Plain n t); [reflexivity |].
        rewrite (scan_skip_ws "{" "}" n t), Et, He by (now left). reflexivity.
      * transitivity (scan "[" "]" Plain (S n) t); [reflexivity |].
        rewrite (scan_skip_ws "[" "]" (S n) t), Et by (now right).
        destruct (Ascii.eqb_spec c1 "]") as [-> | _].
        -- now destruct Hv as [_ ->].
        -- rewrite (proj2 (proj2 (conj IHv (conj IHm IHe))) _ es r (S n) Hv).
           reflexivity.
    + destruct Hv as (-> & c1 & r1 & Et & Hv).
      destruct Hb as [[-> ->] | [-> ->]].
      * transitivity (scan "{" "}" Plain (S n) t); [reflexivity |].
        rewrite (scan_skip_ws "{" "}" (S n) t), Et by (now left).
        destruct (Ascii.eqb_spec c1 "}") as [-> | _].
        -- now destruct Hv as [_ ->].
        -- rewrite (IHm _ ms r (S n) Hv). reflexivity.
      * transitivity (scan "[" "]" Plain n t); [reflexivity |].
        rewrite (scan_skip_ws "[" "]" n t), Et by (now right).
        destruct (Ascii.eqb_spec c1 "}") as [-> | _].
        -- now destruct Hv as [_ ->].
        -- rewrite (IHm _ ms r n Hv). reflexivity.
  - intros s ms r n H.
    destruct (parse_members_inv _ _ _ _ H)
      as (f' & t & k & r1 & r2 & v & r3 & c4 & r4 & [= <-] & -> & Hk & E1 & Hv
          & E3 & Hc).
    assert (H1 : scan o c Plain n (String dq t) = scan o c Plain n r1).
    { rewrite <- (scan_string o c n t k r1 Hk).
      destruct Hb as [[-> ->] | [-> ->]]; reflexivity. }
    assert (H2 : scan o c Plain n r1 = scan o c Plain n r2).
    { rewrite (scan_skip_ws o c n r1 Hb), E1.
      destruct Hb as [[-> ->] | [-> ->]]; reflexivity. }
    rewrite H1, H2, (IHv _ _ _ n Hv), (scan_skip_ws o c n r3 Hb), E3.
    destruct Hc as [(-> & ms' & Hm & _) | (-> & -> & _)]; [| reflexivity].
    rewrite <- (IHm _ _ _ n Hm), <- (scan_skip_ws o c n r4 Hb).
    destruct Hb as [[-> ->] | [-> ->]]; reflexivity.
  - intros s es r n H.
    destruct (parse_elements_inv _ _ _ _ H)
      as (f' & v & r1 & c2 & r2 & [= <-] & Hv & E1 & Hc).
    rewrite (IHv _ _ _ n Hv), (scan_skip_ws o c n r1 Hb), E1.
    destruct Hc as [(-> & es' & He & _) | (-> & -> & _)]; [| reflexivity].
    rewrite <- (IHe _ _ _ n He).
    destruct Hb as [[-> ->] | [-> ->]]; reflexivity.
Qed.

Lemma skip_float_app (pre r : string) :
  all is_float_char pre = true ->
  starts is_float_char r = false ->
  skip_float (pre ++ r) = r.
Proof.
  intros Hp Hr. induction pre as [| d pre IH]; cbn [String.append].
  - destruct r as [| e r]; [reflexivity |].
    cbn [starts] in Hr. cbn [skip_float]. now rewrite Hr.
  - cbn [all] in Hp. apply andb_true_iff in Hp as [Hd Hp].
    cbn [skip_float]. rewrite Hd. now apply IH.
Qed.

Lemma delimited_not_float (r : string) :
  delimited r = true -> starts is_float_char r = false.
Proof.
  unfold delimited. destruct r as [| d r]; [reflexivity |].
  cbn [skip_ws starts]. destruct (is_ws d) eqn:Hd.
  - intros _. revert Hd. clear. bits d; vm_compute; congruence.
  - clear. bits d; vm_compute; congruence.
Qed.

(** The decoder passes over a value of the grammar exactly. *)
Lemma skip_value_parse (f : nat) (s : string) (v : json) (r : string) :
  parse_value f s = Some (v, r) ->
  delimited r = true ->
  skip_value s = Ok (tt, r).
Proof.
  intros H Hd.
  destruct (parse_value_inv _ _ _ _ H) as (f' & d & t & -> & Es & Hv).
  unfold skip_value. rewrite Es.
  destruct v as [| b | x | x | es | ms].
  - destruct Hv as [-> ->]. reflexivity.
  - destruct Hv as [-> Hv]. destruct b; cbn [Ascii.eqb Bool.eqb orb is_digit];
      now rewrite Hv.
  - destruct (lex_number_span _ x r Hv) as (d' & pre & [= <- ->] & Hc & Hp).
    destruct (number_head d Hc) as (-> & -> & -> & _). rewrite Hc.
    now rewrite (skip_float_app pre r Hp (delimited_not_float r Hd)).
  - destruct Hv as [-> Hv]. cbn [Ascii.eqb Bool.eqb].
    destruct (lex_string_body t x r Hv) as (body & -> & Hb).
    now rewrite (proj1 (skip_string_body body r) Hb).
  - destruct Hv as (-> & c1 & r1 & Et & Hv). cbn [Ascii.eqb Bool.eqb].
    rewrite (scan_skip_ws "[" "]" 0 t), Et by (now right).
    destruct (Ascii.eqb_spec c1 "]") as [-> | _].
    + now destruct Hv as [_ ->].
    + now rewrite (proj2 (proj2 (scan_parse "[" "]" (or_intror (conj eq_refl eq_refl))
                                   f')) _ es r 0%nat Hv).
  - destruct Hv as (-> & c1 & r1 & Et & Hv). cbn [Ascii.eqb Bool.eqb].
    rewrite (scan_skip_ws "{" "}" 0 t), Et by (now left).
    destruct (Ascii.eqb_spec c1 "}") as [-> | _].
    + now destruct Hv as [_ ->].
    + now rewrite (proj1 (proj2 (scan_parse "{" "}" (or_introl (conj eq_refl eq_refl))
                                   f')) _ ms r 0%nat Hv).
Qed.

End Skipping.

(** * The decoder and the grammar *)

Section Agreement.
Local Open Scope res_scope.

Lemma agrees_ext {T : Type} (dec dec' : decoder T) (sem sem' : json -> T -> res T) :
  (forall s cur, dec s cur = dec' s cur) ->
  (forall v cur, sem v cur = sem' v cur) ->
  agrees dec' sem' -> agrees dec sem.
Proof.
  intros Hd Hs A f s v r cur Hp Hr. rewrite Hd, Hs. now apply (A f).
Qed.

(** A field of a struct: the decoder and the rule of the type of the
    field, on the value the field holds. *)
Lemma agrees_field {S T : Type} (get : S -> T) (put : T -> S -> S)
  (dec : decoder T) (sem : json -> T -> res T) :
  agrees dec sem ->
  agrees (fun s o => into (dec s (get o)) (fun x => put x o))
    (fun v o => x <- sem v (get o) ;; Ok (put x o)).
Proof.
  intros A f s v r cur Hp Hr. specialize (A f s v r (get cur) Hp Hr).
  destruct (sem v (get cur)) as [y | e]; cbn [bind].
  - now rewrite A.
  - intros x r'. destruct (dec s (get cur)) as [[y r''] | e']; [| discriminate].
    cbn [into]. intros [= _ <-]. now apply (A y).
Qed.

Lemma starts_not_delimited (r : string) :
  starts (fun c => Ascii.eqb c "." || Ascii.eqb c "e" || Ascii.eqb c "E") r = true ->
  delimited r = false.
Proof.
  destruct r as [| c r]; [discriminate |]. cbn [starts]. unfold delimited.
  intros H.
  assert (Hw : is_ws c = false /\ (Ascii.eqb c "," || Ascii.eqb c "}"
                                   || Ascii.eqb c "]") = false).
  { revert H. clear. bits c; vm_compute; intros H; try discriminate H; now split. }
  destruct Hw as [Hw Hc]. cbn [skip_ws]. now rewrite Hw.
Qed.

Lemma read_string_agrees (field field' : string) :
  agrees (read_string field) (decode_string field').
Proof.
  intros f s v r cur Hp Hr.
  destruct (parse_value_inv _ _ _ _ Hp) as (f' & c & t & -> & Es & Hv).
  unfold read_string. rewrite Es.
  destruct v as [| b | n | x | es | ms]; cbn [decode_string].
  - destruct Hv as [-> Hv]. cbn [Ascii.eqb Bool.eqb]. unfold read_null.
    now rewrite Hv.
  - destruct Hv as [-> _]. destruct b; intros x r'; discriminate.
  - destruct (lex_number_span _ _ _ Hv) as (c' & pre & [= <- _] & Hc & _).
    destruct (number_head c Hc) as (E1 & E2 & E3 & E4 & E5 & E6).
    rewrite E1, E2, E3, E6, Hc. intros x r'; discriminate.
  - destruct Hv as [-> Hv]. cbn [Ascii.eqb Bool.eqb]. now rewrite Hv.
  - destruct Hv as [-> _]. intros x r'; discriminate.
  - destruct Hv as [-> _]. intros x r'; discriminate.
Qed.

Lemma read_bool_ptr_agrees : agrees read_bool_ptr decode_bool_ptr.
Proof.
  intros f s v r cur Hp Hr.
  destruct (parse_value_inv _ _ _ _ Hp) as (f' & c & t & -> & Es & Hv).
  unfold read_bool_ptr. rewrite Es.
  destruct v as [| b | n | x | es | ms]; cbn [decode_bool_ptr].
  - destruct Hv as [-> Hv]. cbn [Ascii.eqb Bool.eqb]. unfold read_null.
    now rewrite Hv.
  - destruct Hv as [-> Hv]. destruct b; cbn [Ascii.eqb Bool.eqb];
      now rewrite Hv.
  - destruct (lex_number_span _ _ _ Hv) as (c' & pre & [= <- _] & Hc & _).
    destruct (number_head c Hc) as (E1 & E2 & E3 & E4 & E5 & E6).
    rewrite E4, E5, E6. intros x r'; discriminate.
  - destruct Hv as [-> _]. intros y r'; discriminate.
  - destruct Hv as [-> _]. intros y r'; discriminate.
  - destruct Hv as [-> _]. intros y r'; discriminate.
Qed.

(** *** Numbers *)

Lemma digits_fit (c : ascii) (t : string) :
  all is_digit (String c t) = true ->
  (c = "0"%char -> t = "") ->
  (19 <? String.length (String c t))%nat = negb (uvalue (String c t) 0 <? 10 ^ 19).
Proof.
  intros Hd Hz. cbn [all] in Hd. apply andb_true_iff in Hd as [Hc Ht].
  destruct (Ascii.eqb_spec c "0") as [-> | Hn].
  - rewrite (Hz eq_refl). reflexivity.
  - rewrite <- (digits_count c t Hc Ht Hn).
    destruct (Nat.leb_spec (String.length (String c t)) 19);
      destruct (Nat.ltb_spec 19 (String.length (String c t))); try reflexivity; lia.
Qed.

Lemma parseInt_value (neg : bool) (b : string) :
  parseInt neg b
  = if (19 <? String.length b)%nat then None
    else Some (wrap64 (if neg then - uvalue b 0 else uvalue b 0)).
Proof.
  unfold parseInt. destruct (19 <? String.length b)%nat; [reflexivity |].
  rewrite sum_digits_zero. destruct neg; [| reflexivity].
  now rewrite wrap64_opp.
Qed.

Lemma span_digits_cons (c : ascii) (t ds r : string) :
  span_digits (String c t) = (ds, r) ->
  ds <> "" ->
  is_digit c = true /\ exists ds', ds = String c ds' /\ span_digits t = (ds', r).
Proof.
  cbn [span_digits]. destruct (is_digit c); [| intros [= <- _] H; now contradiction H].
  destruct (span_digits t) as [ds' r']. intros [= <- <-] _.
  split; [reflexivity |]. now exists ds'.
Qed.

Lemma read_int_agrees (field field' : string) :
  agrees (read_int field) (decode_int field').
Proof.
  intros f s v r cur Hp Hr.
  destruct (parse_value_inv _ _ _ _ Hp) as (f' & c & t & -> & Es & Hv).
  destruct v as [| b | n | x | es | ms]; cbn [decode_int kind_of].
  - destruct Hv as [-> Hv]. unfold read_int. rewrite Es.
    change (is_digit "n" || Ascii.eqb "n" "-") with false.
    cbn [Ascii.eqb Bool.eqb]. unfold read_null. now rewrite Hv.
  - destruct Hv as [-> _]. unfold read_int. rewrite Es.
    destruct b; intros x r'; discriminate.
  - destruct (lex_number_inv _ _ _ Hv)
      as (neg & s1 & c' & t' & r1 & Hs & Hd & Hz & Hn).
    destruct (span_digits_spec _ _ _ Hd) as (_ & Hall & _).
    pose proof (digits_fit c' t' Hall Hz) as Hfit.
    assert (Hrange : 0 <= uvalue (String c' t') 0)
      by (apply (uvalue_range _ Hall)).
    assert (Hread :
              match read_int field s cur with
              | Ok (z, rest) =>
                  rest = r1
                  /\ (uvalue (String c' t') 0 <? 10 ^ 19) = true
                  /\ z = wrap64 (if neg then - uvalue (String c' t') 0
                                 else uvalue (String c' t') 0)
              | Err _ => (uvalue (String c' t') 0 <? 10 ^ 19) = false
              end).
    { unfold read_int. rewrite Es.
      destruct (lex_sign_inv _ _ _ Hs) as [(-> & [= -> ->]) | (-> & <- & Hm)].
      - cbn [Ascii.eqb Bool.eqb]. rewrite orb_true_r, Hd.
        rewrite parseInt_value, Hfit.
        destruct (uvalue (String c' t') 0 <? 10 ^ 19); cbn [negb]; auto.
      - destruct (span_digits_cons _ _ _ _ Hd) as (Hc & ds' & [= -> ->] & Ht);
          [discriminate |].
        destruct (Ascii.eqb_spec c "0") as [-> | Hc0].
        + rewrite (Hz eq_refl) in *.
          destruct (span_digits_spec _ _ _ Ht) as (-> & _). repeat split.
        + rewrite Hc. cbn [orb]. rewrite Ht.
          assert (Em : Ascii.eqb c "-" = false).
          { revert Hc. clear. bits c; vm_compute; congruence. }
          rewrite Em, parseInt_value, Hfit.
          destruct (uvalue (String c ds') 0 <? 10 ^ 19); cbn [negb]; auto. }
    destruct n as [z | l].
    + destruct Hn as (-> & u & Hu & ->).
      rewrite (uint_of_string_value _ _ Hu). unfold digits_ok.
      assert (Habs : Z.abs (if neg then - uvalue (String c' t') 0
                            else uvalue (String c' t') 0)
                     = uvalue (String c' t') 0) by (destruct neg; lia).
      rewrite Habs.
      destruct (read_int field s cur) as [[z rest] | e].
      * destruct Hread as (-> & -> & ->). reflexivity.
      * rewrite Hread. intros x r'; discriminate.
    + destruct Hn as (Hst & _). intros x r' E. rewrite E in Hread.
      destruct Hread as (-> & _). now apply starts_not_delimited.
  - destruct Hv as [-> _]. unfold read_int. rewrite Es. intros y r'; discriminate.
  - destruct Hv as [-> _]. unfold read_int. rewrite Es. intros y r'; discriminate.
  - destruct Hv as [-> _]. unfold read_int. rewrite Es. intros y r'; discriminate.
Qed.

End Agreement.

Section Structs.
Local Open Scope res_scope.

Lemma fold_left_err {T : Type} (set : string -> json -> T -> res T)
  (ms : list (string * json)) (e : JSONError) :
  fold_left (fun acc kv => v <- acc ;; set (fst kv) (snd kv) v) ms (Err e)
  = Err e.
Proof. induction ms as [| kv ms IH]; [reflexivity | exact IH]. Qed.

Lemma decode_members_cons {T : Type} (set : string -> json -> T -> res T)
  (k : string) (v : json) (ms : list (string * json)) (cur : T) :
  decode_members set ((k, v) :: ms) cur
  = (x <- set k v cur ;; decode_members set ms x).
Proof.
  unfold decode_members. cbn [fold_left fst snd bind].
  destruct (set k v cur); [reflexivity | apply fold_left_err].
Qed.

Lemma decode_members_nil {T : Type} (set : string -> json -> T -> res T)
  (cur : T) :
  decode_members set [] cur = Ok cur.
Proof. reflexivity. Qed.

Lemma read_members_ws {T : Type} (field : string -> option (decoder T))
  (g : nat) (s : string) (cur : T) :
  read_members field g (skip_ws s) cur = read_members field g s cur.
Proof.
  destruct g as [| g]; [reflexivity |].
  cbn [read_members]. now rewrite skip_ws_idem.
Qed.

Lemma delimited_token (r : string) (c : ascii) (t : string) :
  skip_ws r = String c t ->
  c = ","%char \/ c = "}"%char \/ c = "]"%char ->
  delimited r = true.
Proof.
  intros E H. unfold delimited. rewrite E.
  destruct H as [-> | [-> | ->]]; reflexivity.
Qed.

Lemma not_delimited (r : string) :
  delimited r = false ->
  exists c t,
    skip_ws r = String c t
    /\ Ascii.eqb c "," = false /\ Ascii.eqb c "}" = false
    /\ Ascii.eqb c "]" = false.
Proof.
  unfold delimited. destruct (skip_ws r) as [| c t]; [discriminate |].
  intros H. exists c, t. split; [reflexivity |].
  destruct (Ascii.eqb c ","); [discriminate H |].
  destruct (Ascii.eqb c "}"); [discriminate H |].
  destruct (Ascii.eqb c "]"); [discriminate H |]. now repeat split.
Qed.

Section Members.
Context {T : Type} (field : string -> option (decoder T))
  (set : string -> json -> T -> res T).
Hypothesis fields : forall k, field_agrees (field k) (set k).

(** The value of one member, as the decoder of the struct takes it. *)
Lemma read_member_value (f : nat) (k r2 : string) (v : json) (r3 : string)
  (cur : T) :
  parse_value f r2 = Some (v, r3) ->
  delimited r3 = true ->
  match set k v cur with
  | Ok y =>
      match field k with
      | Some dec => dec r2 cur
      | None => into (skip_value r2) (fun _ => cur)
      end = Ok (y, r3)
  | Err _ =>
      forall x r',
        match field k with
        | Some dec => dec r2 cur
        | None => into (skip_value r2) (fun _ => cur)
        end = Ok (x, r') -> delimited r' = false
  end.
Proof.
  intros Hv Hd. pose proof (fields k) as A. unfold field_agrees in A.
  destruct (field k) as [dec |].
  - exact (A f r2 v r3 cur Hv Hd).
  - rewrite A. now rewrite (skip_value_parse f r2 v r3 Hv Hd).
Qed.

Lemma read_members_agrees (f : nat) :
  forall s ms r g cur,
    parse_members f s = Some (ms, r) ->
    (String.length s <= g)%nat ->
    match decode_members set ms cur with
    | Ok y => read_members field g s cur = Ok (y, r)
    | Err _ => exists e, read_members field g s cur = Err e
    end.
Proof.
  induction f as [| f IH]; intros s ms r g cur H Hg; [discriminate H |].
  destruct (parse_members_inv _ _ _ _ H)
    as (f' & t & k & r1 & r2 & v & r3 & c4 & r4 & [= <-] & -> & Hk & E1 & Hv
        & E3 & Hc).
  pose proof (lex_string_length _ _ _ Hk) as Lk.
  pose proof (proj1 (parse_length _) _ _ _ Hv) as Lv.
  pose proof (skip_ws_length r1) as L1. rewrite E1 in L1.
  pose proof (skip_ws_length r3) as L3. rewrite E3 in L3.
  pose proof (skip_ws_length r4) as L4.
  cbn [String.length] in *.
  destruct g as [| g]; [lia |].
  assert (Hd : delimited r3 = true).
  { apply (delimited_token r3 c4 r4 E3).
    destruct Hc as [(-> & _) | (-> & _)]; auto. }
  pose proof (read_member_value f k r2 v r3 cur Hv Hd) as A.
  cbn [read_members]. rewrite (skip_ws_token dq) by reflexivity.
  cbn [Ascii.eqb Bool.eqb]. rewrite Hk, E1. cbn [Ascii.eqb Bool.eqb].
  assert (Hms : decode_members set ms cur
                = (x <- set k v cur ;; decode_members set (tl ms) x))
    by (destruct Hc as [(_ & ms' & _ & ->) | (_ & _ & ->)];
        apply decode_members_cons).
  rewrite Hms. clear Hms.
  destruct (set k v cur) as [y | e]; cbn [bind].
  - rewrite A, E3.
    destruct Hc as [(-> & ms' & Hm & ->) | (-> & -> & ->)];
      cbn [Ascii.eqb Bool.eqb tl].
    + rewrite <- read_members_ws. apply (IH _ _ _ g y Hm). lia.
    + reflexivity.
  - destruct (match field k with
              | Some dec => dec r2 cur
              | None => into (skip_value r2) (fun _ => cur)
              end) as [[x r'] | e'] eqn:E; [| now exists e'].
    destruct (not_delimited r' (A x r' eq_refl)) as (c & t' & -> & -> & -> & _).
    now exists SyntaxError.
Qed.

(** The decoder of a struct agrees with the rule of the struct when the
    decoder of each field agrees with the rule of the field. *)
Lemma read_struct_agrees : agrees (read_struct field) (decode_struct set).
Proof.
  intros f s v r cur Hp Hr.
  destruct (parse_value_inv _ _ _ _ Hp) as (f' & c & t & -> & Es & Hv).
  unfold read_struct. rewrite Es.
  destruct v as [| b | n | x | es | ms]; cbn [decode_struct].
  - destruct Hv as [-> Hv]. cbn [Ascii.eqb Bool.eqb]. unfold read_null.
    now rewrite Hv.
  - destruct Hv as [-> _]. destruct b; intros x r'; discriminate.
  - destruct (lex_number_span _ _ _ Hv) as (c' & pre & [= <- _] & Hc & _).
    destruct (number_head c Hc) as (E1 & E2 & E3 & E4 & E5 & E6).
    rewrite E1, E6. intros x r'; discriminate.
  - destruct Hv as [-> _]. intros y r'; discriminate.
  - destruct Hv as [-> _]. intros y r'; discriminate.
  - destruct Hv as (-> & c1 & r1 & Et & Hv). cbn [Ascii.eqb Bool.eqb].
    rewrite Et. destruct (Ascii.eqb c1 "}").
    + destruct Hv as [-> ->]. reflexivity.
    + pose proof (read_members_agrees f' _ _ _ (S (String.length r1)) cur Hv
                    (Nat.le_refl _)) as A.
      destruct (decode_members set ms cur) as [y | e]; [exact A |].
      destruct A as [e' ->]. intros x r'; discriminate.
Qed.

End Members.

Section Elements.
Context {T : Type} (dec : decoder T) (sem : json -> T -> res T) (zero : T).
Hypothesis element : agrees dec sem.

Lemma read_elems_agrees (f : nat) :
  forall s es r g,
    parse_elements f s = Some (es, r) ->
    (String.length s <= g)%nat ->
    match decode_elems (fun e => sem e zero) es with
    | Ok l => read_elems dec zero g s = Ok (l, r)
    | Err _ => exists e, read_elems dec zero g s = Err e
    end.
Proof.
  induction f as [| f IH]; intros s es r g H Hg; [discriminate H |].
  destruct (parse_elements_inv _ _ _ _ H)
    as (f' & v & r1 & c2 & r2 & [= <-] & Hv & E1 & Hc).
  pose proof (proj1 (parse_length _) _ _ _ Hv) as Lv.
  pose proof (skip_ws_length r1) as L1. rewrite E1 in L1.
  cbn [String.length] in *.
  destruct g as [| g]; [lia |].
  assert (Hd : delimited r1 = true).
  { apply (delimited_token r1 c2 r2 E1).
    destruct Hc as [(-> & _) | (-> & _)]; auto. }
  pose proof (element f s v r1 zero Hv Hd) as A.
  cbn [read_elems].
  assert (Hes : decode_elems (fun e => sem e zero) es
                = (x <- sem v zero ;;
                   xs <- decode_elems (fun e => sem e zero) (tl es) ;;
                   Ok (x :: xs)))
    by (destruct Hc as [(_ & es' & _ & ->) | (_ & _ & ->)]; reflexivity).
  rewrite Hes. clear Hes.
  destruct (sem v zero) as [y | e]; cbn [bind].
  - rewrite A, E1.
    destruct Hc as [(-> & es' & He & ->) | (-> & -> & ->)];
      cbn [Ascii.eqb Bool.eqb tl decode_elems bind].
    + assert (Hg' : (String.length r2 <= g)%nat) by lia.
      pose proof (IH _ _ _ g He Hg') as B.
      destruct (decode_elems (fun e => sem e zero) es') as [l | e]; cbn [bind].
      * now rewrite B.
      * destruct B as [e' ->]. now exists e'.
    + reflexivity.
  - destruct (dec s zero) as [[x r'] | e'] eqn:E; [| now exists e'].
    destruct (not_delimited r' (A x r' eq_refl)) as (c & t' & -> & -> & _ & ->).
    now exists SyntaxError.
Qed.

(** The decoder of a slice agrees with the rule of the slice when the
    decoder of the elements agrees with their rule. *)
Lemma read_slice_agrees (field field' : string) :
  agrees (read_slice field dec zero)
    (fun v _ => decode_slice field' (fun e => sem e zero) v).
Proof.
  intros f s v r cur Hp Hr.
  destruct (parse_value_inv _ _ _ _ Hp) as (f' & c & t & -> & Es & Hv).
  unfold read_slice. rewrite Es.
  destruct v as [| b | n | x | es | ms]; cbn [decode_slice].
  - destruct Hv as [-> Hv]. cbn [Ascii.eqb Bool.eqb]. unfold read_null.
    now rewrite Hv.
  - destruct Hv as [-> _]. destruct b; intros x r'; discriminate.
  - destruct (lex_number_span _ _ _ Hv) as (c' & pre & [= <- _] & Hc & _).
    destruct (number_head c Hc) as (E1 & E2 & E3 & E4 & E5 & E6).
    rewrite E2, E6, Hc. intros x r'; discriminate.
  - destruct Hv as [-> _]. intros y r'; discriminate.
  - destruct Hv as (-> & c1 & r1 & Et & Hv). cbn [Ascii.eqb Bool.eqb].
    rewrite Et. destruct (Ascii.eqb c1 "]").
    + destruct Hv as [-> ->]. reflexivity.
    + pose proof (read_elems_agrees f' _ _ _ (S (String.length r1)) Hv
                    (Nat.le_refl _)) as A.
      destruct (decode_elems (fun e => sem e zero) es) as [l | e]; cbn [bind].
      * now rewrite A.
      * destruct A as [e' ->]. intros x r'; discriminate.
  - destruct Hv as [-> _]. intros y r'; discriminate.
Qed.

End Elements.

(** The whole text. *)
Lemma Unmarshal_agrees {T : Type} (dec : decoder T) (sem : json -> T -> res T)
  (s : string) (j : json) (v : T) :
  agrees dec sem ->
  parse s = Some j ->
  match sem j v with
  | Ok y => Unmarshal dec s v = Ok y
  | Err _ => exists e, Unmarshal dec s v = Err e
  end.
Proof.
  intros A. unfold parse.
  destruct (parse_value (S (String.length s)) s) as [[j' r] |] eqn:Hp;
    [| discriminate].
  destruct (skip_ws r) as [| c t] eqn:Er; [| discriminate].
  intros [= ->].
  assert (Hd : delimited r = true) by (unfold delimited; now rewrite Er).
  specialize (A _ s j r v Hp Hd). unfold Unmarshal.
  destruct (sem j v) as [y | e].
  - now rewrite A, Er.
  - destruct (dec s v) as [[x r'] | e']; [| now exists e'].
    destruct (not_delimited r' (A x r' eq_refl)) as (c & t' & -> & _).
    now exists SyntaxError.
Qed.

End Structs.

(** * The decoders of the structs *)

(** The tests of the keys in the goal, answered by the hypotheses. *)
Ltac keys :=
  repeat match goal with
    | H : is_field ?a ?k = _ |- context [is_field ?a ?k] => rewrite H
    | H : Response_key ?k = _ |- context [Response_key ?k] => rewrite H
    end.

(** One field of a struct: its decoder and its rule are those of its type,
    at the place of the field. *)
Ltac entry dec sem get put leaf :=
  apply (agrees_ext _ (fun s o => into (dec s (get o)) (fun x => put x o)) _
           (fun v o => bind (sem v (get o)) (fun x => Ok (put x o))));
  [ intros ? []; reflexivity
  | intros ? []; cbv delta [set_HyperdriveConfigOrigin set_HyperdriveConfigCaching
                             set_HyperdriveConfig set_HyperdriveConfigListResponse
                             set_HyperdriveConfigResponse] beta;
    keys; reflexivity
  | exact (agrees_field get put dec sem leaf) ].

Ltac no_entry :=
  cbn [field_agrees]; intros ? [];
  cbv delta [set_HyperdriveConfigOrigin set_HyperdriveConfigCaching
               set_HyperdriveConfig set_HyperdriveConfigListResponse
               set_HyperdriveConfigResponse] beta;
  keys; reflexivity.

Section TagsAgree.
Local Open Scope res_scope.

Lemma origin_fields (k : string) :
  field_agrees (field_HyperdriveConfigOrigin k) (set_HyperdriveConfigOrigin k).
Proof.
  unfold field_HyperdriveConfigOrigin.
  destruct (is_field "database" k) eqn:E1.
  { entry (read_string "Database") (decode_string "Database")
      HyperdriveConfigOrigin.Database
      (fun x o => HyperdriveConfigOrigin.mk x (HyperdriveConfigOrigin.Host o)
                    (HyperdriveConfigOrigin.Port o) (HyperdriveConfigOrigin.Scheme o)
                    (HyperdriveConfigOrigin.User o))
      (read_string_agrees "Database" "Database"). }
  destruct (is_field "host" k) eqn:E2.
  { entry (read_string "Host") (decode_string "Host")
      HyperdriveConfigOrigin.Host
      (fun x o => HyperdriveConfigOrigin.mk (HyperdriveConfigOrigin.Database o) x
                    (HyperdriveConfigOrigin.Port o) (HyperdriveConfigOrigin.Scheme o)
                    (HyperdriveConfigOrigin.User o))
      (read_string_agrees "Host" "Host"). }
  destruct (is_field "port" k) eqn:E3.
  { entry (read_int "Port") (decode_int "Port")
      HyperdriveConfigOrigin.Port
      (fun x o => HyperdriveConfigOrigin.mk (HyperdriveConfigOrigin.Database o)
                    (HyperdriveConfigOrigin.Host o) x (HyperdriveConfigOrigin.Scheme o)
                    (HyperdriveConfigOrigin.User o))
      (read_int_agrees "Port" "Port"). }
  destruct (is_field "scheme" k) eqn:E4.
  { entry (read_string "Scheme") (decode_string "Scheme")
      HyperdriveConfigOrigin.Scheme
      (fun x o => HyperdriveConfigOrigin.mk (HyperdriveConfigOrigin.Database o)
                    (HyperdriveConfigOrigin.Host o) (HyperdriveConfigOrigin.Port o) x
                    (HyperdriveConfigOrigin.User o))
      (read_string_agrees "Scheme" "Scheme"). }
  destruct (is_field "user" k) eqn:E5.
  { entry (read_string "User") (decode_string "User")
      HyperdriveConfigOrigin.User
      (fun x o => HyperdriveConfigOrigin.mk (HyperdriveConfigOrigin.Database o)
                    (HyperdriveConfigOrigin.Host o) (HyperdriveConfigOrigin.Port o)
                    (HyperdriveConfigOrigin.Scheme o) x)
      (read_string_agrees "User" "User"). }
  no_entry.
Qed.

Lemma caching_fields (k : string) :
  field_agrees (field_HyperdriveConfigCaching k) (set_HyperdriveConfigCaching k).
Proof.
  unfold field_HyperdriveConfigCaching.
  destruct (is_field "disabled" k) eqn:E1.
  { entry read_bool_ptr decode_bool_ptr
      HyperdriveConfigCaching.Disabled
      (fun x c => HyperdriveConfigCaching.mk x (HyperdriveConfigCaching.MaxAge c)
                    (HyperdriveConfigCaching.StaleWhileRevalidate c))
      read_bool_ptr_agrees. }
  destruct (is_field "max_age" k) eqn:E2.
  { entry (read_int "MaxAge") (decode_int "MaxAge")
      HyperdriveConfigCaching.MaxAge
      (fun x c => HyperdriveConfigCaching.mk (HyperdriveConfigCaching.Disabled c) x
                    (HyperdriveConfigCaching.StaleWhileRevalidate c))
      (read_int_agrees "MaxAge" "MaxAge"). }
  destruct (is_field "stale_while_revalidate" k) eqn:E3.
  { entry (read_int "StaleWhileRevalidate") (decode_int "StaleWhileRevalidate")
      HyperdriveConfigCaching.StaleWhileRevalidate
      (fun x c => HyperdriveConfigCaching.mk (HyperdriveConfigCaching.Disabled c)
                    (HyperdriveConfigCaching.MaxAge c) x)
      (read_int_agrees "StaleWhileRevalidate" "StaleWhileRevalidate"). }
  no_entry.
Qed.

Lemma origin_agrees :
  agrees decode_HyperdriveConfigOrigin (decode_struct set_HyperdriveConfigOrigin).
Proof. exact (read_struct_agrees _ _ origin_fields). Qed.

Lemma caching_agrees :
  agrees decode_HyperdriveConfigCaching doc_HyperdriveConfigCaching.
Proof. exact (read_struct_agrees _ _ caching_fields). Qed.

Lemma config_fields (k : string) :
  field_agrees (field_HyperdriveConfig k) (set_HyperdriveConfig k).
Proof.
  unfold field_HyperdriveConfig.
  destruct (is_field "id" k) eqn:E1.
  { entry (read_string "ID") (decode_string "ID")
      HyperdriveConfig.ID
      (fun x c => HyperdriveConfig.mk x (HyperdriveConfig.Name c)
                    (HyperdriveConfig.Origin c) (HyperdriveConfig.Caching c))
      (read_string_agrees "ID" "ID"). }
  destruct (is_field "name" k) eqn:E2.
  { entry (read_string "Name") (decode_string "Name")
      HyperdriveConfig.Name
      (fun x c => HyperdriveConfig.mk (HyperdriveConfig.ID c) x
                    (HyperdriveConfig.Origin c) (HyperdriveConfig.Caching c))
      (read_string_agrees "Name" "Name"). }
  destruct (is_field "origin" k) eqn:E3.
  { entry decode_HyperdriveConfigOrigin (decode_struct set_HyperdriveConfigOrigin)
      HyperdriveConfig.Origin
      (fun x c => HyperdriveConfig.mk (HyperdriveConfig.ID c)
                    (HyperdriveConfig.Name c) x (HyperdriveConfig.Caching c))
      origin_agrees. }
  destruct (is_field "caching" k) eqn:E4.
  { entry decode_HyperdriveConfigCaching (decode_struct set_HyperdriveConfigCaching)
      HyperdriveConfig.Caching
      (fun x c => HyperdriveConfig.mk (HyperdriveConfig.ID c)
                    (HyperdriveConfig.Name c) (HyperdriveConfig.Origin c) x)
      caching_agrees. }
  no_entry.
Qed.

Lemma config_agrees : agrees decode_HyperdriveConfig doc_HyperdriveConfig.
Proof. exact (read_struct_agrees _ _ config_fields). Qed.

Context {pkg : Package}.

Lemma read_Response_agrees (k : string) :
  agrees (read_Response k) (Response_set k).
Proof.
  intros f s v r cur Hp Hr. unfold read_Response.
  rewrite (parse_value_enough f s v r Hp).
  destruct (Response_set k v cur); [reflexivity | intros x r'; discriminate].
Qed.

Lemma list_response_fields (k : string) :
  field_agrees (field_HyperdriveConfigListResponse k)
    (set_HyperdriveConfigListResponse k).
Proof.
  unfold field_HyperdriveConfigListResponse.
  destruct (is_field "result" k) eqn:E1.
  { entry (read_slice "Result" decode_HyperdriveConfig HyperdriveConfig.zero)
      (fun (v : json) (_ : option (list HyperdriveConfig)) =>
         decode_slice "Result"
           (fun e => doc_HyperdriveConfig e HyperdriveConfig.zero) v)
      (@HyperdriveConfigListResponse.Result pkg)
      (fun x r => HyperdriveConfigListResponse.mk pkg
                    (HyperdriveConfigListResponse.Response r) x)
      (read_slice_agrees decode_HyperdriveConfig doc_HyperdriveConfig
         HyperdriveConfig.zero config_agrees "Result" "Result"). }
  destruct (Response_key k) eqn:E2.
  { entry (read_Response k) (Response_set k)
      (@HyperdriveConfigListResponse.Response pkg)
      (fun x r => HyperdriveConfigListResponse.mk pkg x
                    (HyperdriveConfigListResponse.Result r))
      (read_Response_agrees k). }
  no_entry.
Qed.

Lemma config_response_fields (k : string) :
  field_agrees (field_HyperdriveConfigResponse k) (set_HyperdriveConfigResponse k).
Proof.
  unfold field_HyperdriveConfigResponse.
  destruct (is_field "result" k) eqn:E1.
  { entry decode_HyperdriveConfig (decode_struct set_HyperdriveConfig)
      (@HyperdriveConfigResponse.Result pkg)
      (fun x r => HyperdriveConfigResponse.mk pkg
                    (HyperdriveConfigResponse.Response r) x)
      config_agrees. }
  destruct (Response_key k) eqn:E2.
  { entry (read_Response k) (Response_set k)
      (@HyperdriveConfigResponse.Response pkg)
      (fun x r => HyperdriveConfigResponse.mk pkg x
                    (HyperdriveConfigResponse.Result r))
      (read_Response_agrees k). }
  no_entry.
Qed.

(** The decoders of the two envelopes agree with the rules of the
    envelopes. *)
Lemma list_response_agrees :
  agrees decode_HyperdriveConfigListResponse doc_HyperdriveConfigListResponse.
Proof. exact (read_struct_agrees _ _ list_response_fields). Qed.

Lemma config_response_agrees :
  agrees decode_HyperdriveConfigResponse doc_HyperdriveConfigResponse.
Proof. exact (read_struct_agrees _ _ config_response_fields). Qed.

End TagsAgree.

(** * Facts about the encoder *)

Section Escapes.

Lemma lex_string_escape_char (c : ascii) (t : string) :
  lex_string (escape_char c ++ t)
  = option_map (fun '(x, rest) => (String c x, rest)) (lex_string t).
Proof. bits c; reflexivity. Qed.

(** A byte from 128 up is read as it is. *)
Lemma lex_string_high (c : ascii) (t : string) :
  (N_of_ascii c <? 128)%N = false ->
  lex_string (String c t)
  = option_map (fun '(x, rest) => (String c x, rest)) (lex_string t).
Proof. bits c; intros H; try discriminate H; reflexivity. Qed.

Lemma between_high (lo hi : N) (c : ascii) :
  (128 <= lo)%N -> between lo hi c = true -> (N_of_ascii c <? 128)%N = false.
Proof.
  unfold between. intros Hlo [H1 _]%andb_true_iff.
  apply N.leb_le in H1. apply N.ltb_ge. lia.
Qed.

Lemma second_high (lo hi : N) (c1 : ascii) (r1 : string) :
  (128 <= lo)%N ->
  second lo hi (String c1 r1) = true -> (N_of_ascii c1 <? 128)%N = false.
Proof. intros Hlo. cbn [second]. now apply between_high. Qed.

(** The bytes after the first of a character are from 128 up. *)
Lemma rune_width_bytes (c : ascii) (r : string) :
  match rune_width c r, r with
  | 2%nat, String c1 _ => (N_of_ascii c1 <? 128)%N = false
  | 3%nat, String c1 (String c2 _) =>
      (N_of_ascii c1 <? 128)%N = false /\ (N_of_ascii c2 <? 128)%N = false
  | 4%nat, String c1 (String c2 (String c3 _)) =>
      (N_of_ascii c1 <? 128)%N = false /\ (N_of_ascii c2 <? 128)%N = false
      /\ (N_of_ascii c3 <? 128)%N = false
  | _, _ => True
  end.
Proof.
  unfold rune_width.
  repeat match goal with
    | |- context [if ?b then _ else _] => destruct b eqn:?
    end; try exact I;
    repeat match goal with
      | H : (_ && _) = true |- _ => apply andb_true_iff in H as [? ?]
      end;
    destruct r as [| c1 [| c2 [| c3 r3]]]; try exact I;
    repeat match goal with
      | H : second _ _ _ = true |- _ => apply second_high in H; [| lia]
      | H : third _ = true |- _ =>
          cbn [third] in H; apply between_high in H; [| lia]
      | H : fourth _ = true |- _ =>
          cbn [fourth] in H; apply between_high in H; [| lia]
      end; auto.
Qed.

Lemma separator_bytes (c c1 c2 : ascii) (e t : string) :
  separator c c1 c2 = Some e ->
  lex_string (e ++ t)
  = option_map (fun '(x, rest) => (String c (String c1 (String c2 x)), rest))
      (lex_string t).
Proof.
  unfold separator.
  destruct (Ascii.eqb_spec c "226") as [-> | _]; [| discriminate].
  destruct (Ascii.eqb_spec c1 "128") as [-> | _]; [| discriminate].
  cbn [andb].
  destruct (Ascii.eqb_spec c2 "168") as [-> | _].
  - intros [= <-]. cbn. now destruct (lex_string t) as [[x rest] |].
  - destruct (Ascii.eqb_spec c2 "169") as [-> | _]; [| discriminate].
    intros [= <-]. cbn. now destruct (lex_string t) as [[x rest] |].
Qed.

Lemma lex_string_escape_n (n : nat) :
  forall s rest,
    (String.length s <= n)%nat ->
    valid_utf8 s = true ->
    lex_string (escape s ++ String dq rest) = Some (s, rest).
Proof.
  induction n as [| n IH]; intros s rest Hn Hs.
  - destruct s; [reflexivity | cbn in Hn; lia].
  - destruct s as [| c r]; [reflexivity |].
    cbn [String.length] in Hn. cbn [valid_utf8 escape] in *.
    destruct (N_of_ascii c <? 128)%N eqn:Hc.
    + rewrite append_assoc, lex_string_escape_char, (IH r rest); [reflexivity | lia |].
      exact Hs.
    + pose proof (rune_width_bytes c r) as Hb.
      destruct (rune_width c r) as [| [| [| [| [| w]]]]]; try discriminate Hs.
      * destruct r as [| c1 r1]; [discriminate Hs |].
        cbn [String.length String.append] in *.
        rewrite (lex_string_high c _ Hc), (lex_string_high c1 _ Hb).
        rewrite (IH r1 rest); [reflexivity | lia | exact Hs].
      * destruct r as [| c1 [| c2 r2]]; try discriminate Hs.
        cbn [String.length] in *. destruct Hb as [H1 H2].
        destruct (separator c c1 c2) as [e |] eqn:Ee.
        -- rewrite append_assoc, (separator_bytes c c1 c2 e _ Ee).
           rewrite (IH r2 rest); [reflexivity | lia | exact Hs].
        -- cbn [String.append].
           rewrite (lex_string_high c _ Hc), (lex_string_high c1 _ H1),
             (lex_string_high c2 _ H2).
           rewrite (IH r2 rest); [reflexivity | lia | exact Hs].
      * destruct r as [| c1 [| c2 [| c3 r3]]]; try discriminate Hs.
        cbn [String.length String.append] in *. destruct Hb as (H1 & H2 & H3).
        rewrite (lex_string_high c _ Hc), (lex_string_high c1 _ H1),
          (lex_string_high c2 _ H2), (lex_string_high c3 _ H3).
        rewrite (IH r3 rest); [reflexivity | lia | exact Hs].
Qed.

(** A string of valid UTF-8 is read back from what the encoder writes
    for it. *)
Lemma lex_string_escape (s rest : string) :
  valid_utf8 s = true ->
  lex_string (escape s ++ String dq rest) = Some (s, rest).
Proof. exact (lex_string_escape_n (String.length s) s rest (Nat.le_refl _)). Qed.

End Escapes.

Section JsonFacts.

Lemma print_object (ms : list (string * json)) :
  print (JObj ms) = "{" ++ print_members ms ++ "}".
Proof. reflexivity. Qed.

Lemma plain_char_spec (c : ascii) :
  plain_char c = true ->
  escape_char c = String c EmptyString
  /\ Ascii.eqb c dq = false
  /\ Ascii.eqb c "\" = false
  /\ (nat_of_ascii c <? 32)%nat = false
  /\ (N_of_ascii c <? 128)%N = true.
Proof.
  bits c; vm_compute; intros H; try discriminate H; repeat split.
Qed.

Lemma escape_plain (s : string) : plain s = true -> escape s = s.
Proof.
  induction s as [| c s IH]; cbn [plain escape]; [reflexivity |].
  intros [Hc Hs]%andb_true_iff.
  destruct (plain_char_spec c Hc) as (-> & _ & _ & _ & ->). cbn. now rewrite IH.
Qed.

Lemma lex_string_plain (s rest : string) :
  plain s = true -> lex_string (s ++ String dq rest) = Some (s, rest).
Proof.
  induction s as [| c s IH]; cbn [plain String.append].
  - intros _. reflexivity.
  - intros [Hc Hs]%andb_true_iff.
    destruct (plain_char_spec c Hc) as (_ & H1 & H2 & H3 & _).
    cbn [lex_string]. rewrite H1, H2, H3, (IH Hs). reflexivity.
Qed.

(** *** Numbers *)

Lemma closes_inv (rest : string) :
  closes rest = true ->
  exists r, rest = String "," r \/ rest = String "}" r \/ rest = String "]" r.
Proof.
  destruct rest as [| c r]; cbn [closes]; [discriminate |].
  intros H. exists r.
  destruct (Ascii.eqb_spec c ","); [left; now subst |].
  destruct (Ascii.eqb_spec c "}"); [right; left; now subst |].
  destruct (Ascii.eqb_spec c "]"); [right; right; now subst |].
  discriminate.
Qed.

Ltac closing H :=
  let r := fresh "r" in
  destruct (closes_inv _ H) as [r [-> | [-> | ->]]].

Lemma span_digits_uint (u : Decimal.uint) (rest : string) :
  closes rest = true ->
  span_digits (NilEmpty.string_of_uint u ++ rest)
  = (NilEmpty.string_of_uint u, rest).
Proof.
  intros H.
  induction u; cbn [NilEmpty.string_of_uint String.append span_digits];
    try (rewrite IHu; reflexivity).
  closing H; reflexivity.
Qed.

Lemma to_uint_no_leading_zero (p : positive) (d : Decimal.uint) :
  Pos.to_uint p <> Decimal.D0 d.
Proof.
  intros E.
  assert (N : Decimal.unorm (Pos.to_uint p) = Pos.to_uint p).
  { rewrite <- (DecimalPos.Unsigned.to_of (Pos.to_uint p)).
    now rewrite DecimalPos.Unsigned.of_to. }
  rewrite E, DecimalFacts.unorm_D0 in N.
  assert (Hd : d = Decimal.Nil \/ d <> Decimal.Nil)
    by (destruct d; [now left | right; discriminate ..]).
  destruct Hd as [-> | Hd].
  - now apply (DecimalPos.Unsigned.to_uint_nonzero p).
  - pose proof (DecimalFacts.nb_digits_unorm d Hd) as L.
    rewrite N in L. cbn [Decimal.nb_digits] in L. lia.
Qed.

Lemma lex_number_pos (p : positive) (rest : string) :
  closes rest = true ->
  lex_number (print_int (Z.pos p) ++ rest) = Some (NInt (Z.pos p), rest)
  /\ lex_number (print_int (Z.neg p) ++ rest) = Some (NInt (Z.neg p), rest).
Proof.
  intros H.
  unfold print_int. cbn [Z.to_int NilZero.string_of_int].
  pose proof (to_uint_no_leading_zero p) as Hz.
  pose proof (DecimalPos.Unsigned.to_uint_nonnil p) as Hn.
  assert (Hv : Z.of_uint (Pos.to_uint p) = Z.pos p).
  { unfold Z.of_uint. now rewrite DecimalPos.Unsigned.of_to. }
  set (u := Pos.to_uint p) in *.
  assert (Hs : NilZero.string_of_uint u = NilEmpty.string_of_uint u).
  { destruct u; try reflexivity. now contradiction Hn. }
  assert (Hi : lex_int_part (NilEmpty.string_of_uint u ++ rest)
               = Some (NilEmpty.string_of_uint u, rest)).
  { unfold lex_int_part. rewrite (span_digits_uint u rest H).
    destruct u as [| d | d | d | d | d | d | d | d | d | d];
      try reflexivity; [now contradiction Hn | now contradiction (Hz d)]. }
  assert (Hg : lex_sign (NilEmpty.string_of_uint u ++ rest)
               = (false, NilEmpty.string_of_uint u ++ rest)).
  { destruct u; try reflexivity. now contradiction Hn. }
  assert (Hf : lex_frac rest = Some (EmptyString, rest)
               /\ lex_exp rest = Some (EmptyString, rest)).
  { closing H; split; reflexivity. }
  destruct Hf as [Hf He].
  assert (Hu : NilZero.uint_of_string (NilEmpty.string_of_uint u) = Some u).
  { rewrite <- Hs. now apply NilZero.usu. }
  rewrite Hs. split.
  - unfold lex_number. rewrite Hg, Hi, Hf, He, Hu, Hv. reflexivity.
  - unfold lex_number. cbn [String.append lex_sign]. rewrite Hi, Hf, He, Hu, Hv.
    reflexivity.
Qed.

Lemma lex_number_int (z : Z) (rest : string) :
  closes rest = true ->
  lex_number (print_int z ++ rest) = Some (NInt z, rest).
Proof.
  intros H. destruct z as [| p | p].
  - closing H; reflexivity.
  - now apply lex_number_pos.
  - now apply lex_number_pos.
Qed.

(** *** Values and flat objects *)

Lemma print_int_head (z : Z) :
  exists c t, print_int z = String c t /\ (is_digit c || Ascii.eqb c "-") = true.
Proof.
  unfold print_int. destruct z as [| p | p]; cbn [Z.to_int NilZero.string_of_int].
  - now exists "0"%char, EmptyString.
  - pose proof (DecimalPos.Unsigned.to_uint_nonnil p) as Hn.
    destruct (Pos.to_uint p); [now contradiction Hn | ..];
      eexists _, _; split; reflexivity.
  - eexists _, _; split; reflexivity.
Qed.

Lemma parse_value_number (f : nat) (c : ascii) (t : string) :
  (is_digit c || Ascii.eqb c "-") = true ->
  parse_value (S f) (String c t)
  = option_map (fun '(n, rest) => (JNum n, rest)) (lex_number (String c t)).
Proof.
  bits c; intros H; try discriminate H; reflexivity.
Qed.

Lemma parse_value_scalar (f : nat) (v : json) (rest : string) :
  scalar v = true ->
  closes rest = true ->
  parse_value (S f) (print v ++ rest) = Some (v, rest).
Proof.
  intros Hv Hc.
  destruct v as [| [|] | [z | l] | | |]; try discriminate Hv; try reflexivity.
  cbn [print].
  destruct (print_int_head z) as (c & t & E & Hd).
  pose proof (lex_number_int z rest Hc) as L.
  rewrite E in *. cbn [String.append] in *.
  now rewrite (parse_value_number f c _ Hd), L.
Qed.

Lemma quote_append (k rest : string) :
  plain k = true -> quote k ++ rest = String dq (k ++ String dq rest).
Proof.
  intros Hk. unfold quote. rewrite (escape_plain k Hk).
  cbn [String.append]. f_equal.
  induction k as [| c k IH]; cbn [String.append plain] in *; [reflexivity |].
  apply andb_true_iff in Hk. f_equal. now apply IH.
Qed.

Lemma print_members_head (kv : string * json) (ms : list (string * json))
  (rest : string) :
  plain (fst kv) = true ->
  exists t, print_members (kv :: ms) ++ rest = String dq t.
Proof.
  intros Hk. destruct kv as [k v].
  destruct ms as [| kv' ms]; cbn [print_members fst] in *;
    rewrite !append_assoc, (quote_append k _ Hk); eauto.
Qed.

(** One step of [parse_members] on a text that starts with a quote. *)
Lemma parse_members_quote (f : nat) (r : string) :
  parse_members (S f) (String dq r)
  = match lex_string r with
    | None => None
    | Some (k, r1) =>
        match skip_ws r1 with
        | String ":" r2 =>
            match parse_value f r2 with
            | None => None
            | Some (v, r3) =>
                match skip_ws r3 with
                | String "," r4 =>
                    option_map (fun '(ms, rest) => ((k, v) :: ms, rest))
                      (parse_members f (skip_ws r4))
                | String "}" r4 => Some ([(k, v)], r4)
                | _ => None
                end
            end
        | _ => None
        end
    end.
Proof. reflexivity. Qed.

(** A flat object reads back as it was written. *)
Lemma parse_members_flat (ms : list (string * json)) :
  forall (f : nat) (rest : string),
    ms <> [] ->
    forallb flat_member ms = true ->
    (length ms <= f)%nat ->
    parse_members (S f) (print_members ms ++ String "}" rest) = Some (ms, rest).
Proof.
  induction ms as [| [k v] ms IH]; intros f rest Hne Hflat Hf; [easy |].
  cbn [forallb] in Hflat. apply andb_true_iff in Hflat as [Hkv Hms].
  unfold flat_member in Hkv. cbn [fst snd] in Hkv.
  apply andb_true_iff in Hkv as [Hk Hv].
  destruct f as [| f]; [cbn in Hf; lia |].
  destruct ms as [| kv' ms].
  - cbn [print_members].
    rewrite !append_assoc, (quote_append k _ Hk).
    rewrite parse_members_quote, (lex_string_plain k _ Hk).
    cbn [String.append]. rewrite (skip_ws_token ":") by reflexivity.
    rewrite (parse_value_scalar f v (String "}" rest) Hv eq_refl).
    now rewrite (skip_ws_token "}") by reflexivity.
  - assert (Hk' : plain (fst kv') = true).
    { cbn [forallb] in Hms. apply andb_true_iff in Hms as [Hkv' _].
      unfold flat_member in Hkv'. now apply andb_true_iff in Hkv' as [? _]. }
    destruct (print_members_head kv' ms (String "}" rest) Hk') as [t Et].
    assert (Hrec : parse_members (S f)
                     (skip_ws (print_members (kv' :: ms) ++ String "}" rest))
                   = Some (kv' :: ms, rest)).
    { rewrite Et, (skip_ws_token dq) by reflexivity. rewrite <- Et.
      apply IH; [discriminate | exact Hms | cbn [length] in *; lia]. }
    change (print_members ((k, v) :: kv' :: ms))
      with (quote k ++ ":" ++ print v ++ "," ++ print_members (kv' :: ms)).
    rewrite !append_assoc, (quote_append k _ Hk).
    rewrite parse_members_quote, (lex_string_plain k _ Hk).
    cbn [String.append]. rewrite (skip_ws_token ":") by reflexivity.
    rewrite (parse_value_scalar f v
               (String "," (print_members (kv' :: ms) ++ String "}" rest))
               Hv eq_refl).
    rewrite (skip_ws_token ",") by reflexivity.
    now rewrite Hrec.
Qed.

Lemma print_members_length (ms : list (string * json)) :
  (length ms <= String.length (print_members ms))%nat.
Proof.
  induction ms as [| [k v] ms IH]; [apply Nat.le_refl |].
  destruct ms as [| kv' ms].
  - cbn [print_members length]. unfold quote.
    cbn [String.append String.length]. lia.
  - change (print_members ((k, v) :: kv' :: ms))
      with (quote k ++ ":" ++ print v ++ "," ++ print_members (kv' :: ms)).
    rewrite !length_append. cbn [length] in *. unfold quote.
    cbn [String.length]. lia.
Qed.

Lemma parse_flat_object (ms : list (string * json)) :
  forallb flat_member ms = true ->
  parse (print (JObj ms)) = Some (JObj ms).
Proof.
  intros Hflat. rewrite print_object. unfold parse.
  destruct ms as [| kv ms]; [reflexivity |].
  assert (Hk : plain (fst kv) = true).
  { cbn [forallb] in Hflat. apply andb_true_iff in Hflat as [H _].
    unfold flat_member in H. now apply andb_true_iff in H as [? _]. }
  destruct (print_members_head kv ms "}" Hk) as [t Et].
  pose proof (print_members_length (kv :: ms)) as Hlen.
  cbn [String.append String.length].
  rewrite length_append. cbn [String.length].
  replace (String.length (print_members (kv :: ms)) + 1)%nat
    with (S (String.length (print_members (kv :: ms)))) by lia.
  set (n := String.length (print_members (kv :: ms))) in *.
  change (parse_value (S (S (S n))) (String "{" ?s))
    with (match skip_ws s with
          | String "}" r' => Some (JObj [], r')
          | r' => option_map (fun '(ms, rest) => (JObj ms, rest))
                    (parse_members (S (S n)) r')
          end).
  rewrite Et, (skip_ws_token dq) by reflexivity.
  replace (match String dq t with
           | String "}" r' => Some (JObj [], r')
           | r' => option_map (fun '(ms, rest) => (JObj ms, rest))
                    (parse_members (S (S n)) r')
           end)
    with (option_map (fun '(ms, rest) => (JObj ms, rest))
            (parse_members (S (S n)) (String dq t))) by reflexivity.
  rewrite <- Et.
  rewrite (parse_members_flat (kv :: ms) (S n) "");
    [reflexivity | discriminate | exact Hflat | lia].
Qed.

Lemma encode_caching_flat (c : HyperdriveConfigCaching) :
  exists ms, encode_HyperdriveConfigCaching c = JObj ms
             /\ forallb flat_member ms = true.
Proof.
  destruct c as [d m s]. unfold encode_HyperdriveConfigCaching.
  cbn [HyperdriveConfigCaching.Disabled HyperdriveConfigCaching.MaxAge
         HyperdriveConfigCaching.StaleWhileRevalidate].
  eexists; split; [reflexivity |].
  unfold member_int, member_bool_ptr.
  destruct d as [[|] |]; destruct (m =? 0); destruct (s =? 0); reflexivity.
Qed.

End JsonFacts.

(** * The decoder reads what the encoder writes *)

Section RoundTrip.

Lemma print_array (es : list json) :
  print (JArr es) = "[" ++ print_elems es ++ "]".
Proof. reflexivity. Qed.

Lemma quote_append_any (k rest : string) :
  quote k ++ rest = String dq (escape k ++ String dq rest).
Proof.
  unfold quote. cbn [String.append]. f_equal. now rewrite append_assoc.
Qed.

Lemma print_starts (j : json) :
  wellformed j = true ->
  exists c t,
    print j = String c t /\ is_ws c = false
    /\ Ascii.eqb c "]" = false /\ Ascii.eqb c "}" = false.
Proof.
  destruct j as [| [|] | [z | l] | s | es | ms]; intros Hj;
    try discriminate Hj;
    try (eexists _, _; split; [reflexivity | repeat split]).
  destruct (print_int_head z) as (c & t & E & Hd).
  exists c, t. split; [exact E |].
  bits c; try discriminate Hd; repeat split.
Qed.

Lemma print_length_pos (j : json) :
  wellformed j = true -> (1 <= String.length (print j))%nat.
Proof.
  intros Hj. destruct (print_starts j Hj) as (c & t & E & _).
  rewrite E. cbn [String.length]. lia.
Qed.

Lemma print_elems_cons (e : json) (r : list json) :
  print_elems (e :: r)
  = match r with
    | [] => print e
    | _ :: _ => print e ++ "," ++ print_elems r
    end.
Proof. destruct r; reflexivity. Qed.

Lemma print_members_cons (k : string) (v : json) (r : list (string * json)) :
  print_members ((k, v) :: r)
  = match r with
    | [] => quote k ++ ":" ++ print v
    | _ :: _ => quote k ++ ":" ++ print v ++ "," ++ print_members r
    end.
Proof. destruct r; reflexivity. Qed.

Lemma print_elems_starts (e : json) (r : list json) (rest : string) :
  wellformed e = true ->
  exists c t,
    print_elems (e :: r) ++ rest = String c t /\ is_ws c = false
    /\ Ascii.eqb c "]" = false.
Proof.
  intros He. destruct (print_starts e He) as (c & t & E & Hw & Hb & _).
  rewrite print_elems_cons.
  destruct r; rewrite ?append_assoc, E; cbn [String.append]; eauto.
Qed.

Lemma print_members_starts (kv : string * json) (r : list (string * json))
  (rest : string) :
  exists t, print_members (kv :: r) ++ rest = String dq t.
Proof.
  destruct kv as [k v]. rewrite print_members_cons.
  destruct r; rewrite !append_assoc, quote_append_any; eauto.
Qed.

Lemma parse_value_string (f : nat) (t : string) :
  parse_value (S f) (String dq t)
  = option_map (fun '(x, rest) => (JStr x, rest)) (lex_string t).
Proof. reflexivity. Qed.

Lemma parse_value_object (f : nat) (t : string) :
  parse_value (S f) (String "{" (String dq t))
  = option_map (fun '(ms, rest) => (JObj ms, rest))
      (parse_members f (String dq t)).
Proof. reflexivity. Qed.

Lemma parse_value_array (f : nat) (c : ascii) (t : string) :
  is_ws c = false ->
  Ascii.eqb c "]" = false ->
  parse_value (S f) (String "[" (String c t))
  = option_map (fun '(es, rest) => (JArr es, rest))
      (parse_elements f (String c t)).
Proof.
  bits c; intros H1 H2; try discriminate H1; try discriminate H2; reflexivity.
Qed.

Lemma parse_elements_next (f : nat) (s : string) :
  parse_elements (S f) s
  = match parse_value f s with
    | None => None
    | Some (v, r1) =>
        match skip_ws r1 with
        | String "," r2 =>
            option_map (fun '(es, rest) => (v :: es, rest)) (parse_elements f r2)
        | String "]" r2 => Some ([v], r2)
        | _ => None
        end
    end.
Proof. reflexivity. Qed.

Lemma quote_length (k : string) :
  String.length (quote k) = S (S (String.length (escape k))).
Proof.
  unfold quote. cbn [String.length]. rewrite length_append. cbn. lia.
Qed.

(** With fuel for the length of the text, a document without fractions
    whose strings are valid UTF-8 is read back as it was written, whatever
    follows it. *)
Lemma parse_print_fuel (f : nat) :
  (forall j rest,
      wellformed j = true ->
      (String.length (print j) <= f)%nat ->
      is_number j = false \/ closes rest = true ->
      parse_value f (print j ++ rest) = Some (j, rest))
  /\ (forall ms rest,
         ms <> [] ->
         forallb (fun kv => valid_utf8 (fst kv) && wellformed (snd kv)) ms = true ->
         (String.length (print_members ms) <= f)%nat ->
         parse_members f (print_members ms ++ String "}" rest) = Some (ms, rest))
  /\ (forall es rest,
         es <> [] ->
         forallb wellformed es = true ->
         (S (String.length (print_elems es)) <= f)%nat ->
         parse_elements f (print_elems es ++ String "]" rest) = Some (es, rest)).
Proof.
  induction f as [| f (IHv & IHm & IHe)].
  - split; [| split].
    + intros j rest Hj Hl _. pose proof (print_length_pos j Hj). lia.
    + intros [| [k v] ms] rest Hne _ Hl; [easy |].
      rewrite print_members_cons in Hl.
      destruct ms; rewrite !length_append, quote_length in Hl; lia.
    + intros es rest _ _ Hl. lia.
  - split; [| split].
    + intros j rest Hj Hl Hr.
      destruct j as [| [|] | [z | l] | s | es | ms]; try reflexivity.
      * destruct Hr as [Hr | Hr]; [discriminate Hr |].
        now apply parse_value_scalar.
      * discriminate Hj.
      * cbn [print wellformed] in *.
        now rewrite quote_append_any, parse_value_string, (lex_string_escape s _ Hj).
      * rewrite print_array in *. destruct es as [| e es]; [reflexivity |].
        cbn [wellformed] in Hj. pose proof Hj as Hes.
        cbn [forallb] in Hj. apply andb_true_iff in Hj as [He _].
        rewrite !length_append in Hl. cbn [String.length] in Hl.
        rewrite !append_assoc.
        change ("[" ++ ?x) with (String "[" x).
        change ("]" ++ ?x) with (String "]" x).
        destruct (print_elems_starts e es (String "]" rest) He)
          as (c & t & Et & Hw & Hb).
        rewrite Et, (parse_value_array f c t Hw Hb), <- Et.
        rewrite (IHe (e :: es) rest); [reflexivity | discriminate | exact Hes |].
        lia.
      * rewrite print_object in *. destruct ms as [| kv ms]; [reflexivity |].
        cbn [wellformed] in Hj.
        rewrite !length_append in Hl. cbn [String.length] in Hl.
        rewrite !append_assoc.
        change ("{" ++ ?x) with (String "{" x).
        change ("}" ++ ?x) with (String "}" x).
        destruct (print_members_starts kv ms (String "}" rest)) as (t & Et).
        rewrite Et, (parse_value_object f t), <- Et.
        rewrite (IHm (kv :: ms) rest); [reflexivity | discriminate | exact Hj |].
        lia.
    + intros [| [k v] ms] rest Hne Hms Hl; [easy |].
      cbn [forallb fst snd] in Hms. apply andb_true_iff in Hms as [Hkv Hms].
      apply andb_true_iff in Hkv as [Hk Hv].
      pose proof (print_length_pos v Hv) as Hpv.
      rewrite print_members_cons in *.
      destruct ms as [| kv' ms].
      * rewrite !length_append, quote_length in Hl. cbn [String.length] in Hl.
        rewrite !append_assoc, quote_append_any.
        rewrite parse_members_quote, (lex_string_escape k _ Hk).
        change (":" ++ ?x) with (String ":" x).
        rewrite (skip_ws_token ":") by reflexivity.
        rewrite (IHv v (String "}" rest) Hv); [| lia | now right].
        now rewrite (skip_ws_token "}") by reflexivity.
      * rewrite !length_append, quote_length in Hl. cbn [String.length] in Hl.
        destruct (print_members_starts kv' ms (String "}" rest)) as (t & Et).
        assert (Hrec : parse_members f
                         (skip_ws (print_members (kv' :: ms) ++ String "}" rest))
                       = Some (kv' :: ms, rest)).
        { rewrite Et, (skip_ws_token dq) by reflexivity. rewrite <- Et.
          apply IHm; [discriminate | exact Hms | lia]. }
        rewrite !append_assoc, quote_append_any.
        rewrite parse_members_quote, (lex_string_escape k _ Hk).
        change (":" ++ ?x) with (String ":" x).
        change ("," ++ ?x) with (String "," x).
        rewrite (skip_ws_token ":") by reflexivity.
        rewrite (IHv v (String "," (print_members (kv' :: ms) ++ String "}" rest))
                   Hv); [| lia | now right].
        rewrite (skip_ws_token ",") by reflexivity.
        now rewrite Hrec.
    + intros [| e es] rest Hne Hes Hl; [easy |].
      pose proof Hes as Hes'.
      cbn [forallb] in Hes. apply andb_true_iff in Hes as [He Hes].
      rewrite print_elems_cons in *. rewrite parse_elements_next.
      destruct es as [| e' es].
      * rewrite (IHv e (String "]" rest) He); [| lia | now right].
        now rewrite (skip_ws_token "]") by reflexivity.
      * rewrite !length_append in Hl. cbn [String.length] in Hl.
        rewrite !append_assoc.
        change ("," ++ ?x) with (String "," x).
        rewrite (IHv e (String "," (print_elems (e' :: es) ++ String "]" rest))
                   He); [| lia | now right].
        rewrite (skip_ws_token ",") by reflexivity.
        rewrite (IHe (e' :: es) rest); [reflexivity | discriminate | exact Hes |].
        lia.
Qed.

Lemma append_empty (s : string) : s ++ "" = s.
Proof. induction s as [| c s IH]; cbn; [reflexivity | now rewrite IH]. Qed.

(** An object without fractions whose strings are valid UTF-8, written by
    the encoder, is read back as the same object. *)
Lemma parse_print_object (ms : list (string * json)) :
  wellformed (JObj ms) = true -> parse (print (JObj ms)) = Some (JObj ms).
Proof.
  intros Hj. unfold parse.
  destruct (parse_print_fuel (S (String.length (print (JObj ms))))) as (Hv & _).
  rewrite <- (append_empty (print (JObj ms))) at 2.
  rewrite (Hv (JObj ms) "" Hj); [reflexivity | lia | now left].
Qed.

End RoundTrip.

(** * The tags of the structs *)

Section Encodings.
Local Open Scope res_scope.

Lemma fits_digits (z : Z) : int_ok z = true -> digits_ok z = true.
Proof.
  unfold int_ok, digits_ok. intros [H1 H2]%andb_true_iff.
  apply Z.leb_le in H1. apply Z.ltb_lt in H2. apply Z.ltb_lt.
  assert (2 ^ 63 < 10 ^ 19) by reflexivity. lia.
Qed.

Lemma wrap_origin_fits (o : HyperdriveConfigOrigin) :
  origin_fits o = true -> wrap_origin o = o /\ origin_digits o = true.
Proof.
  destruct o as [d h p s u]. unfold origin_fits, origin_digits, wrap_origin.
  cbn [HyperdriveConfigOrigin.Database HyperdriveConfigOrigin.Host
         HyperdriveConfigOrigin.Port HyperdriveConfigOrigin.Scheme
         HyperdriveConfigOrigin.User].
  intros Hp. now rewrite (wrap64_fits p Hp), (fits_digits p Hp).
Qed.

Lemma wrap_caching_fits (c : HyperdriveConfigCaching) :
  caching_fits c = true -> wrap_caching c = c /\ caching_digits c = true.
Proof.
  destruct c as [d m s]. unfold caching_fits, caching_digits, wrap_caching.
  cbn [HyperdriveConfigCaching.Disabled HyperdriveConfigCaching.MaxAge
         HyperdriveConfigCaching.StaleWhileRevalidate].
  intros [Hm Hs]%andb_true_iff.
  now rewrite (wrap64_fits m Hm), (wrap64_fits s Hs), (fits_digits m Hm),
    (fits_digits s Hs).
Qed.

Lemma wrap_config_fits (c : HyperdriveConfig) :
  config_fits c = true -> wrap_config c = c /\ config_digits c = true.
Proof.
  destruct c as [i n o c]. unfold config_fits, config_digits, wrap_config.
  cbn [HyperdriveConfig.ID HyperdriveConfig.Name HyperdriveConfig.Origin
         HyperdriveConfig.Caching].
  intros [Ho Hc]%andb_true_iff.
  destruct (wrap_origin_fits o Ho) as [-> ->].
  destruct (wrap_caching_fits c Hc) as [-> ->]. now split.
Qed.

(** What the rules of the tags give for the encoding of a value: the value,
    when its numbers have up to 19 digits, with the numbers cut to 64
    bits; an error when one has more. *)
Lemma decode_encode_origin (o : HyperdriveConfigOrigin) :
  origin_digits o = true ->
  decode_struct set_HyperdriveConfigOrigin (encode_HyperdriveConfigOrigin o)
    HyperdriveConfigOrigin.zero = Ok (wrap_origin o).
Proof.
  destruct o as [d h p s u]. unfold origin_digits, wrap_origin.
  cbn [HyperdriveConfigOrigin.Database HyperdriveConfigOrigin.Host
         HyperdriveConfigOrigin.Port HyperdriveConfigOrigin.Scheme
         HyperdriveConfigOrigin.User]. intros Hp.
  unfold encode_HyperdriveConfigOrigin, member_int, member_string.
  cbn [HyperdriveConfigOrigin.Database HyperdriveConfigOrigin.Host
         HyperdriveConfigOrigin.Port HyperdriveConfigOrigin.Scheme
         HyperdriveConfigOrigin.User andb].
  destruct (String.eqb_spec d "") as [-> | _];
    destruct (String.eqb_spec h "") as [-> | _];
    destruct (Z.eqb_spec p 0) as [-> | _];
    destruct (String.eqb_spec s "") as [-> | _];
    destruct (String.eqb_spec u "") as [-> | _];
    cbn [app decode_struct decode_members fold_left fst snd];
    unfold set_HyperdriveConfigOrigin, HyperdriveConfigOrigin.zero; fields;
    cbn [bind decode_int decode_string]; rewrite ?Hp;
    cbn [bind decode_int decode_string]; reflexivity.
Qed.

Lemma decode_encode_caching (c : HyperdriveConfigCaching) :
  caching_digits c = true ->
  doc_HyperdriveConfigCaching (encode_HyperdriveConfigCaching c)
    HyperdriveConfigCaching.zero = Ok (wrap_caching c).
Proof.
  destruct c as [d m s]. unfold caching_digits, wrap_caching.
  cbn [HyperdriveConfigCaching.Disabled HyperdriveConfigCaching.MaxAge
         HyperdriveConfigCaching.StaleWhileRevalidate].
  intros [Hm Hs]%andb_true_iff.
  unfold encode_HyperdriveConfigCaching, member_int, member_bool_ptr.
  cbn [HyperdriveConfigCaching.Disabled HyperdriveConfigCaching.MaxAge
         HyperdriveConfigCaching.StaleWhileRevalidate andb].
  destruct d as [[|] |];
    destruct (Z.eqb_spec m 0) as [-> | _]; destruct (Z.eqb_spec s 0) as [-> | _];
    cbn [app doc_HyperdriveConfigCaching decode_struct decode_members
           fold_left fst snd];
    unfold set_HyperdriveConfigCaching, HyperdriveConfigCaching.zero; fields;
    cbn [bind decode_int decode_bool_ptr]; rewrite ?Hm, ?Hs;
    cbn [bind decode_int decode_bool_ptr]; rewrite ?Hm, ?Hs; reflexivity.
Qed.

Lemma wellformed_origin (o : HyperdriveConfigOrigin) :
  origin_strings o = true -> wellformed (encode_HyperdriveConfigOrigin o) = true.
Proof.
  destruct o as [d h p s u]. unfold origin_strings.
  cbn [HyperdriveConfigOrigin.Database HyperdriveConfigOrigin.Host
         HyperdriveConfigOrigin.Port HyperdriveConfigOrigin.Scheme
         HyperdriveConfigOrigin.User].
  intros [[[Hd Hh]%andb_true_iff Hs]%andb_true_iff Hu]%andb_true_iff.
  unfold encode_HyperdriveConfigOrigin, member_int, member_string.
  cbn [HyperdriveConfigOrigin.Database HyperdriveConfigOrigin.Host
         HyperdriveConfigOrigin.Port HyperdriveConfigOrigin.Scheme
         HyperdriveConfigOrigin.User andb].
  destruct (String.eqb d ""); destruct (String.eqb h ""); destruct (p =? 0);
    destruct (String.eqb s ""); destruct (String.eqb u "");
    cbn [app wellformed forallb fst snd andb valid_utf8];
    rewrite ?Hd, ?Hh, ?Hs, ?Hu; reflexivity.
Qed.

Lemma wellformed_caching (c : HyperdriveConfigCaching) :
  wellformed (encode_HyperdriveConfigCaching c) = true.
Proof.
  destruct c as [d m s].
  unfold encode_HyperdriveConfigCaching, member_int, member_bool_ptr.
  cbn [HyperdriveConfigCaching.Disabled HyperdriveConfigCaching.MaxAge
         HyperdriveConfigCaching.StaleWhileRevalidate andb].
  destruct d as [[|] |]; destruct (m =? 0); destruct (s =? 0); reflexivity.
Qed.

(** What [set_HyperdriveConfig] does with the keys of the structs. *)
Lemma set_config_id (v : json) (i n : string) (o : HyperdriveConfigOrigin)
  (c : HyperdriveConfigCaching) :
  set_HyperdriveConfig "id" v (HyperdriveConfig.mk i n o c)
  = (x <- decode_string "ID" v i ;; Ok (HyperdriveConfig.mk x n o c)).
Proof. reflexivity. Qed.

Lemma set_config_name (v : json) (i n : string) (o : HyperdriveConfigOrigin)
  (c : HyperdriveConfigCaching) :
  set_HyperdriveConfig "name" v (HyperdriveConfig.mk i n o c)
  = (x <- decode_string "Name" v n ;; Ok (HyperdriveConfig.mk i x o c)).
Proof. reflexivity. Qed.

Lemma set_config_password (v : json) (cfg : HyperdriveConfig) :
  set_HyperdriveConfig "password" v cfg = Ok cfg.
Proof. destruct cfg. reflexivity. Qed.

Lemma set_config_origin (v : json) (i n : string) (o : HyperdriveConfigOrigin)
  (c : HyperdriveConfigCaching) :
  set_HyperdriveConfig "origin" v (HyperdriveConfig.mk i n o c)
  = (x <- decode_struct set_HyperdriveConfigOrigin v o ;;
     Ok (HyperdriveConfig.mk i n x c)).
Proof. reflexivity. Qed.

Lemma set_config_caching (v : json) (i n : string) (o : HyperdriveConfigOrigin)
  (c : HyperdriveConfigCaching) :
  set_HyperdriveConfig "caching" v (HyperdriveConfig.mk i n o c)
  = (x <- decode_struct set_HyperdriveConfigCaching v c ;;
     Ok (HyperdriveConfig.mk i n o x)).
Proof. reflexivity. Qed.

(** The members [origin] and [caching] of an encoding, read into a config
    whose origin and caching are zero. *)
Lemma decode_origin_caching (i n : string) (o : HyperdriveConfigOrigin)
  (c : HyperdriveConfigCaching) :
  origin_digits o = true ->
  caching_digits c = true ->
  decode_members set_HyperdriveConfig
    [("origin", encode_HyperdriveConfigOrigin o);
     ("caching", encode_HyperdriveConfigCaching c)]
    (HyperdriveConfig.mk i n HyperdriveConfigOrigin.zero
       HyperdriveConfigCaching.zero)
  = Ok (HyperdriveConfig.mk i n (wrap_origin o) (wrap_caching c)).
Proof.
  intros Ho Hc.
  rewrite decode_members_cons, set_config_origin, (decode_encode_origin o Ho).
  cbn [bind].
  rewrite decode_members_cons, set_config_caching.
  change (decode_struct set_HyperdriveConfigCaching)
    with doc_HyperdriveConfigCaching.
  rewrite (decode_encode_caching c Hc). reflexivity.
Qed.

Lemma decode_encode_config (c : HyperdriveConfig) :
  config_digits c = true ->
  doc_HyperdriveConfig (encode_HyperdriveConfig c) HyperdriveConfig.zero
  = Ok (wrap_config c).
Proof.
  destruct c as [i n o c]. unfold config_digits, wrap_config.
  cbn [HyperdriveConfig.ID HyperdriveConfig.Name HyperdriveConfig.Origin
         HyperdriveConfig.Caching].
  intros [Ho Hc]%andb_true_iff.
  unfold doc_HyperdriveConfig, encode_HyperdriveConfig, member_string.
  cbn [HyperdriveConfig.ID HyperdriveConfig.Name HyperdriveConfig.Origin
         HyperdriveConfig.Caching andb decode_struct].
  unfold HyperdriveConfig.zero.
  destruct (String.eqb_spec i "") as [-> | _];
    destruct (String.eqb_spec n "") as [-> | _]; cbn [app];
    rewrite ?decode_members_cons, ?set_config_id, ?set_config_name;
    cbn [bind decode_string];
    rewrite ?decode_members_cons, ?set_config_id, ?set_config_name;
    cbn [bind decode_string];
    now apply decode_origin_caching.
Qed.

Lemma wellformed_config (c : HyperdriveConfig) :
  config_strings c = true -> wellformed (encode_HyperdriveConfig c) = true.
Proof.
  destruct c as [i n o c]. unfold config_strings.
  cbn [HyperdriveConfig.ID HyperdriveConfig.Name HyperdriveConfig.Origin
         HyperdriveConfig.Caching].
  intros [[Hi Hn]%andb_true_iff Ho]%andb_true_iff.
  unfold encode_HyperdriveConfig, member_string.
  cbn [HyperdriveConfig.ID HyperdriveConfig.Name HyperdriveConfig.Origin
         HyperdriveConfig.Caching andb wellformed].
  rewrite !forallb_app. cbn [forallb fst snd valid_utf8 andb].
  rewrite (wellformed_origin o Ho), wellformed_caching.
  destruct (String.eqb i ""); destruct (String.eqb n "");
    cbn [forallb fst snd wellformed andb]; rewrite ?Hi, ?Hn; reflexivity.
Qed.

(** A number of 20 digits or more. *)
Lemma origin_long (o : HyperdriveConfigOrigin) :
  origin_digits o = false ->
  exists e,
    decode_struct set_HyperdriveConfigOrigin (encode_HyperdriveConfigOrigin o)
      HyperdriveConfigOrigin.zero = Err e.
Proof.
  destruct o as [d h p s u]. unfold origin_digits.
  cbn [HyperdriveConfigOrigin.Port]. intros Hp.
  unfold encode_HyperdriveConfigOrigin, member_int, member_string.
  cbn [HyperdriveConfigOrigin.Database HyperdriveConfigOrigin.Host
         HyperdriveConfigOrigin.Port HyperdriveConfigOrigin.Scheme
         HyperdriveConfigOrigin.User andb].
  destruct (Z.eqb_spec p 0) as [-> | _]; [discriminate Hp |].
  eexists.
  destruct (String.eqb_spec d "") as [-> | _];
    destruct (String.eqb_spec h "") as [-> | _];
    destruct (String.eqb_spec s "") as [-> | _];
    destruct (String.eqb_spec u "") as [-> | _];
    cbn [app decode_struct decode_members fold_left fst snd];
    unfold set_HyperdriveConfigOrigin, HyperdriveConfigOrigin.zero; fields;
    cbn [bind decode_int decode_string]; rewrite ?Hp;
    cbn [bind decode_int decode_string]; reflexivity.
Qed.

Lemma caching_long (c : HyperdriveConfigCaching) :
  caching_digits c = false ->
  exists e,
    decode_struct set_HyperdriveConfigCaching
      (encode_HyperdriveConfigCaching c) HyperdriveConfigCaching.zero = Err e.
Proof.
  destruct c as [d m s]. unfold caching_digits.
  cbn [HyperdriveConfigCaching.MaxAge HyperdriveConfigCaching.StaleWhileRevalidate].
  intros H.
  unfold encode_HyperdriveConfigCaching, member_int, member_bool_ptr.
  cbn [HyperdriveConfigCaching.Disabled HyperdriveConfigCaching.MaxAge
         HyperdriveConfigCaching.StaleWhileRevalidate andb].
  destruct (digits_ok m) eqn:Hm; cbn [andb] in H.
  - destruct (Z.eqb_spec s 0) as [-> | _]; [discriminate H |].
    eexists.
    destruct d as [[|] |]; destruct (Z.eqb_spec m 0) as [-> | _];
      cbn [app decode_struct decode_members fold_left fst snd];
      unfold set_HyperdriveConfigCaching, HyperdriveConfigCaching.zero; fields;
      cbn [bind decode_int decode_bool_ptr]; rewrite ?Hm, ?H;
      cbn [bind decode_int decode_bool_ptr]; rewrite ?Hm, ?H; reflexivity.
  - destruct (Z.eqb_spec m 0) as [-> | _]; [discriminate Hm |].
    eexists.
    destruct d as [[|] |]; destruct (s =? 0);
      cbn [app decode_struct decode_members fold_left fst snd];
      unfold set_HyperdriveConfigCaching, HyperdriveConfigCaching.zero; fields;
      cbn [bind decode_int decode_bool_ptr]; rewrite ?Hm;
      cbn [bind decode_int decode_bool_ptr]; reflexivity.
Qed.

Lemma config_long (c : HyperdriveConfig) :
  config_digits c = false ->
  exists e,
    doc_HyperdriveConfig (encode_HyperdriveConfig c) HyperdriveConfig.zero = Err e.
Proof.
  destruct c as [i n o c]. unfold config_digits.
  cbn [HyperdriveConfig.Origin HyperdriveConfig.Caching]. intros H.
  assert (Hoc : exists e,
             decode_members set_HyperdriveConfig
               [("origin", encode_HyperdriveConfigOrigin o);
                ("caching", encode_HyperdriveConfigCaching c)]
               (HyperdriveConfig.mk i n HyperdriveConfigOrigin.zero
                  HyperdriveConfigCaching.zero)
             = Err e).
  { destruct (origin_digits o) eqn:Ho; cbn [andb] in H.
    - destruct (caching_long c H) as [e He]. exists e.
      rewrite decode_members_cons, set_config_origin,
        (decode_encode_origin o Ho).
      cbn [bind].
      now rewrite decode_members_cons, set_config_caching, He.
    - destruct (origin_long o Ho) as [e He]. exists e.
      now rewrite decode_members_cons, set_config_origin, He. }
  destruct Hoc as [e He]. exists e.
  unfold doc_HyperdriveConfig, encode_HyperdriveConfig, member_string.
  cbn [HyperdriveConfig.ID HyperdriveConfig.Name HyperdriveConfig.Origin
         HyperdriveConfig.Caching andb decode_struct].
  unfold HyperdriveConfig.zero.
  destruct (String.eqb_spec i "") as [-> | _];
    destruct (String.eqb_spec n "") as [-> | _]; cbn [app];
    rewrite ?decode_members_cons, ?set_config_id, ?set_config_name;
    cbn [bind decode_string];
    rewrite ?decode_members_cons, ?set_config_id, ?set_config_name;
    cbn [bind decode_string];
    exact He.
Qed.

(** *** The texts *)

Lemma unmarshal_marshal_caching (c : HyperdriveConfigCaching) :
  int_ok (HyperdriveConfigCaching.MaxAge c) = true ->
  int_ok (HyperdriveConfigCaching.StaleWhileRevalidate c) = true ->
  Unmarshal_HyperdriveConfigCaching (Marshal_HyperdriveConfigCaching c)
    HyperdriveConfigCaching.zero = Ok c.
Proof.
  intros Hm Hs.
  assert (Hf : caching_fits c = true)
    by (unfold caching_fits; now rewrite Hm, Hs).
  destruct (wrap_caching_fits c Hf) as [Hw Hd].
  unfold Unmarshal_HyperdriveConfigCaching, Marshal_HyperdriveConfigCaching.
  destruct (encode_caching_flat c) as (ms & E & Hflat).
  pose proof (Unmarshal_agrees _ _ _ _ HyperdriveConfigCaching.zero caching_agrees
                (parse_flat_object ms Hflat)) as A.
  rewrite <- E, (decode_encode_caching c Hd), Hw in A. exact A.
Qed.

(** The text of a config, read by the tags of [HyperdriveConfig]. *)
Lemma unmarshal_marshal_config (c : HyperdriveConfig) :
  config_strings c = true ->
  config_digits c = true ->
  Unmarshal_HyperdriveConfig (Marshal_HyperdriveConfig c) HyperdriveConfig.zero
  = Ok (wrap_config c).
Proof.
  intros Hs Hd.
  unfold Unmarshal_HyperdriveConfig, Marshal_HyperdriveConfig.
  pose proof (wellformed_config c Hs) as Hw.
  destruct (encode_HyperdriveConfig c) as [| | | | | ms] eqn:E;
    try (unfold encode_HyperdriveConfig in E; discriminate E).
  pose proof (Unmarshal_agrees _ _ _ _ HyperdriveConfig.zero config_agrees
                (parse_print_object ms Hw)) as A.
  pose proof (decode_encode_config c Hd) as D. rewrite E in D.
  rewrite D in A. exact A.
Qed.

End Encodings.

(** * Properties *)

(** ** Unfolding one operation *)

Section Unfolding.
Context {pkg : Package} {client : APIClient}.

Lemma eqb_empty_true (s : string) : s = "" -> String.eqb s "" = true.
Proof. intros ->. reflexivity. Qed.

Lemma eqb_empty_false (s : string) : s <> "" -> String.eqb s "" = false.
Proof. intros H. now apply String.eqb_neq. Qed.

(** What a request does to the receiver: the client moves on, the trace
    grows by the request. *)
Lemma makeRequestContext_eq (m : Method) (uri : string) (p : Params) (api : API)
  (res : string) (err : option Failure) (c : Conn) :
  roundTrip {| req_method := m; req_uri := uri; req_params := p |} (conn api)
  = ((res, err), c) ->
  makeRequestContext m uri p api
  = ((res, option_map ErrClient err),
     {| conn := c;
        calls := calls api
                 ++ [{| req_method := m; req_uri := uri; req_params := p |}] |}).
Proof.
  intros H. unfold makeRequestContext. now rewrite H.
Qed.

Lemma config_path_eq (acct id : string) :
  config_path acct id = "/accounts/" ++ acct ++ "/hyperdrive/configs/" ++ id.
Proof.
  unfold config_path, configs_path. rewrite !append_assoc. reflexivity.
Qed.

End Unfolding.

Ltac unfold_ops :=
  unfold run, ListHyperdriveConfigs, CreateHyperdriveConfig, GetHyperdriveConfig,
    UpdateHyperdriveConfig, DeleteHyperdriveConfig, mbind, ret.

(** Rewrites the tests of the guards with the facts at hand. *)
Ltac guards :=
  repeat match goal with
    | H : ?s = "" |- context [String.eqb ?s ""] =>
        rewrite (eqb_empty_true s H)
    | H : ?s <> "" |- context [String.eqb ?s ""] =>
        rewrite (eqb_empty_false s H)
    end.

(** Splits on the answer of the client to the one request in the goal. *)
Ltac answer :=
  match goal with
  | |- context [makeRequestContext ?m ?u ?p ?api] =>
      let res := fresh "res" in
      let err := fresh "err" in
      let c := fresh "c" in
      let E := fresh "E" in
      destruct (roundTrip {| req_method := m; req_uri := u; req_params := p |}
                  (conn api)) as [[res err] c] eqn:E;
      rewrite (makeRequestContext_eq m u p api res err c E)
  end.

(** The same, when the answer to the request of the table is known. *)
Ltac answered H :=
  let H' := fresh in
  pose proof H as H';
  unfold reply, table_request in H';
  rewrite ?config_path_eq in H'; unfold configs_path in H';
  answer;
  match goal with
  | E : roundTrip _ _ = _ |- _ =>
      try rewrite E in H'; cbn [fst] in H'; injection H' as -> ->; clear E
  end; cbn [option_map fst snd].

Section Properties.
Context {pkg : Package} {client : APIClient}.

(** ** C1: the account identifier is checked first *)

(** C1. When the identifier of the account container is the empty string,
    each of the five operations returns [ErrMissingAccountID] (with the zero
    result where it has one) and leaves the receiver as it was: the state of
    the client and the trace of requests are unchanged, no request is made. *)
Theorem empty_account_no_request (rc : ResourceContainer) (api : API) :
  Identifier rc = "" ->
  (forall params,
      ListHyperdriveConfigs rc params api = ((Some [], Some ErrMissingAccountID), api))
  /\ (forall params,
         CreateHyperdriveConfig rc params api
         = ((HyperdriveConfig.zero, Some ErrMissingAccountID), api))
  /\ (forall hyperdriveID,
         GetHyperdriveConfig rc hyperdriveID api
         = ((HyperdriveConfig.zero, Some ErrMissingAccountID), api))
  /\ (forall params,
         UpdateHyperdriveConfig rc params api
         = ((HyperdriveConfig.zero, Some ErrMissingAccountID), api))
  /\ (forall hyperdriveID,
         DeleteHyperdriveConfig rc hyperdriveID api = (Some ErrMissingAccountID, api)).
Proof.
  intros Hrc. repeat split; intros; unfold_ops; guards; reflexivity.
Qed.

(** ** C2: the checks of Create *)

(** C2. With a non-empty account identifier, Create returns
    [ErrMissingHyperdriveConfigName] when the name is empty, whatever the
    password (so also when both are empty), and
    [ErrMissingHyperdriveConfigPassword] when the name is not empty and the
    password is; in both cases no request is made. *)
Theorem create_checks_name_then_password (rc : ResourceContainer)
  (params : CreateHyperdriveConfigParams) (api : API) :
  Identifier rc <> "" ->
  (CreateHyperdriveConfigParams.Name params = "" ->
   CreateHyperdriveConfig rc params api
   = ((HyperdriveConfig.zero, Some ErrMissingHyperdriveConfigName), api))
  /\ (CreateHyperdriveConfigParams.Name params <> "" ->
      CreateHyperdriveConfigParams.Password params = "" ->
      CreateHyperdriveConfig rc params api
      = ((HyperdriveConfig.zero, Some ErrMissingHyperdriveConfigPassword), api)).
Proof.
  intros Hrc. split; intros; unfold_ops; guards; reflexivity.
Qed.

(** ** C3: the config identifier is checked second *)

(** C3, as amended. With an empty config id and a non-empty account
    identifier, Get, Update and Delete return [ErrMissingHyperdriveConfigID];
    with an empty config id and an empty account identifier the account
    check comes first and they return [ErrMissingAccountID]. No request is
    made in either case. *)
Theorem empty_config_id_after_account (rc : ResourceContainer) (api : API) :
  (Identifier rc <> "" ->
   GetHyperdriveConfig rc "" api
   = ((HyperdriveConfig.zero, Some ErrMissingHyperdriveConfigID), api)
   /\ (forall params,
          UpdateHyperdriveConfigParams.HyperdriveID params = "" ->
          UpdateHyperdriveConfig rc params api
          = ((HyperdriveConfig.zero, Some ErrMissingHyperdriveConfigID), api))
   /\ DeleteHyperdriveConfig rc "" api = (Some ErrMissingHyperdriveConfigID, api))
  /\ (Identifier rc = "" ->
      GetHyperdriveConfig rc "" api
      = ((HyperdriveConfig.zero, Some ErrMissingAccountID), api)
      /\ (forall params,
             UpdateHyperdriveConfigParams.HyperdriveID params = "" ->
             UpdateHyperdriveConfig rc params api
             = ((HyperdriveConfig.zero, Some ErrMissingAccountID), api))
      /\ DeleteHyperdriveConfig rc "" api = (Some ErrMissingAccountID, api)).
Proof.
  split; intros Hrc; repeat split; intros; unfold_ops; guards; reflexivity.
Qed.

(** ** C7: the request of each operation *)

(** C7. After any call the trace has grown by exactly the request of the
    table when the local checks pass, and by nothing when one fails: the path
    is [/accounts/{account_id}/hyperdrive/configs], followed by
    [/{config_id}] for Get, Update and Delete and for them only; the verbs are
    GET, POST, GET, PUT and DELETE; the parameters are passed as the body by
    Create and Update and no body is passed by List, Get and Delete. *)
Theorem request_follows_table (i : Invocation) (api : API) :
  calls (snd (run i api))
  = (calls api ++ (if preconditions i then [table_request i] else []))%list
  /\ match i with
     | Create _ params =>
         req_params (table_request i) = ParamsCreate params
         /\ request_body (req_params (table_request i))
            = Some (print (encode_CreateHyperdriveConfigParams params))
     | Update _ params =>
         req_params (table_request i) = ParamsUpdate params
         /\ request_body (req_params (table_request i))
            = Some (Marshal_UpdateHyperdriveConfigParams params)
     | List _ _ | Get _ _ | Delete _ _ =>
         req_params (table_request i) = NoParams
         /\ request_body (req_params (table_request i)) = None
     end.
Proof.
  split.
  - destruct i; unfold_ops;
      unfold preconditions, nonempty, account_of, table_request, config_path,
        configs_path;
      repeat match goal with
        | |- context [String.eqb ?a ""] => destruct (String.eqb a "") eqn:?
        end; cbn [negb andb fst snd calls];
      rewrite ?List.app_nil_r; try reflexivity;
      rewrite ?append_assoc; cbn [String.append]; answer;
      destruct err; cbn [option_map];
      repeat match goal with
        | |- context [Unmarshal ?d ?r ?z] => destruct (Unmarshal d r z)
        end; reflexivity.
  - destruct i; split; reflexivity.
Qed.

(** ** C8: all or nothing *)

(** C8. When an operation returns an error that is not nil, the value it
    returns with it is the one the source writes at every error return:
    the empty slice [[]HyperdriveConfig{}] for List, the zero
    [HyperdriveConfig{}] for Create, Get and Update. *)
Theorem error_means_zero_result (rc : ResourceContainer) (api : API) :
  (forall params,
      snd (fst (ListHyperdriveConfigs rc params api)) <> None ->
      fst (fst (ListHyperdriveConfigs rc params api)) = Some [])
  /\ (forall params,
         snd (fst (CreateHyperdriveConfig rc params api)) <> None ->
         fst (fst (CreateHyperdriveConfig rc params api)) = HyperdriveConfig.zero)
  /\ (forall hyperdriveID,
         snd (fst (GetHyperdriveConfig rc hyperdriveID api)) <> None ->
         fst (fst (GetHyperdriveConfig rc hyperdriveID api)) = HyperdriveConfig.zero)
  /\ (forall params,
         snd (fst (UpdateHyperdriveConfig rc params api)) <> None ->
         fst (fst (UpdateHyperdriveConfig rc params api)) = HyperdriveConfig.zero).
Proof.
  repeat split; intros ?; unfold_ops;
    repeat match goal with
      | |- context [String.eqb ?a ""] => destruct (String.eqb a "") eqn:?
      end; cbn [fst snd]; try reflexivity;
    answer; destruct err; cbn [option_map fst snd]; try reflexivity;
    match goal with
    | |- context [Unmarshal ?d ?r ?z] => destruct (Unmarshal d r z)
    end; cbn [fst snd]; try reflexivity; intros H; now contradiction H.
Qed.

(** ** C10 and C4: transport errors and decode errors *)

(** C10. When the request of an operation fails with the client's error
    [f], Delete returns [fmt.Errorf("%s: %w", errMakeRequestError, f)], and
    List, Create, Get and Update return [f] itself, with the zero result; so
    the test for the prefix [errMakeRequestError] holds of the error of a
    Delete and of no other operation's. *)
Theorem only_delete_wraps_transport_error (rc : ResourceContainer) (api : API)
  (res : string) (f : Failure) :
  Identifier rc <> "" ->
  (forall hyperdriveID,
      hyperdriveID <> "" ->
      reply (Delete rc hyperdriveID) api = (res, Some f) ->
      fst (DeleteHyperdriveConfig rc hyperdriveID api)
      = Some (Errorf errMakeRequestError (ErrClient f)))
  /\ (forall params,
         reply (List rc params) api = (res, Some f) ->
         fst (ListHyperdriveConfigs rc params api) = (Some [], Some (ErrClient f)))
  /\ (forall params,
         CreateHyperdriveConfigParams.Name params <> "" ->
         CreateHyperdriveConfigParams.Password params <> "" ->
         reply (Create rc params) api = (res, Some f) ->
         fst (CreateHyperdriveConfig rc params api)
         = (HyperdriveConfig.zero, Some (ErrClient f)))
  /\ (forall hyperdriveID,
         hyperdriveID <> "" ->
         reply (Get rc hyperdriveID) api = (res, Some f) ->
         fst (GetHyperdriveConfig rc hyperdriveID api)
         = (HyperdriveConfig.zero, Some (ErrClient f)))
  /\ (forall params,
         UpdateHyperdriveConfigParams.HyperdriveID params <> "" ->
         reply (Update rc params) api = (res, Some f) ->
         fst (UpdateHyperdriveConfig rc params api)
         = (HyperdriveConfig.zero, Some (ErrClient f)))
  /\ has_prefix errMakeRequestError (Errorf errMakeRequestError (ErrClient f)) = true
  /\ has_prefix errMakeRequestError (ErrClient f) = false.
Proof.
  intros Hrc.
  repeat split; intros; unfold_ops; guards;
    try match goal with
      | Hf : reply _ _ = _ |- _ => answered Hf
      end; try reflexivity.
  cbn [has_prefix]. apply String.eqb_refl.
Qed.

(** No operation returns, for a request that failed, an error that wraps an
    error of the decoder. *)
Lemma transport_failure_not_decode (i : Invocation) (api : API) (res : string)
  (f : Failure) (prefix : string) (e : JSONError) :
  reply i api = (res, Some f) ->
  fst (run i api) <> Some (Errorf prefix (ErrJSON e)).
Proof.
  intros Hf.
  destruct i; unfold_ops;
    repeat match goal with
      | |- context [String.eqb ?a ""] => destruct (String.eqb a "") eqn:?
      end; cbn [fst snd]; try discriminate;
    answered Hf; discriminate.
Qed.

(** C4, as amended. When the request of the operation succeeds and the
    decoder returns an error on the bytes of the response, List returns this
    error wrapped by [fmt.Errorf] under the prefix
    [failed to unmarshal filters JSON data], and Create, Get and Update return
    it wrapped under [errUnmarshalError], each with the zero result. Such an
    error differs from every error any of the five operations returns when
    its request failed, whatever the client's error; the four operations that
    decode return the client's error as it is, with no wrapper at all. The
    premise is the decoder's error and not the shape of the bytes: the
    decoder reads the members it has a field for and steps over the others
    without checking them, so it does not refuse every text that is not
    JSON. *)
Theorem decode_error_is_marked (rc : ResourceContainer) (api : API) (res : string)
  (e : JSONError) :
  Identifier rc <> "" ->
  (forall params,
      reply (List rc params) api = (res, None) ->
      Unmarshal decode_HyperdriveConfigListResponse res
        HyperdriveConfigListResponse.zero = Err e ->
      fst (ListHyperdriveConfigs rc params api)
      = (Some [],
         Some (Errorf "failed to unmarshal filters JSON data" (ErrJSON e))))
  /\ (Unmarshal decode_HyperdriveConfigResponse res HyperdriveConfigResponse.zero
      = Err e ->
      (forall params,
          CreateHyperdriveConfigParams.Name params <> "" ->
          CreateHyperdriveConfigParams.Password params <> "" ->
          reply (Create rc params) api = (res, None) ->
          fst (CreateHyperdriveConfig rc params api)
          = (HyperdriveConfig.zero, Some (Errorf errUnmarshalError (ErrJSON e))))
      /\ (forall hyperdriveID,
             hyperdriveID <> "" ->
             reply (Get rc hyperdriveID) api = (res, None) ->
             fst (GetHyperdriveConfig rc hyperdriveID api)
             = (HyperdriveConfig.zero, Some (Errorf errUnmarshalError (ErrJSON e))))
      /\ (forall params,
             UpdateHyperdriveConfigParams.HyperdriveID params <> "" ->
             reply (Update rc params) api = (res, None) ->
             fst (UpdateHyperdriveConfig rc params api)
             = (HyperdriveConfig.zero,
                Some (Errorf errUnmarshalError (ErrJSON e)))))
  /\ (forall prefix i api' res' f,
         reply i api' = (res', Some f) ->
         fst (run i api') <> Some (Errorf prefix (ErrJSON e)))
  /\ (forall i api' res' f,
         is_delete i = false ->
         preconditions i = true ->
         reply i api' = (res', Some f) ->
         fst (run i api') = Some (ErrClient f)).
Proof.
  intros Hrc.
  split; [| split; [| split]].
  - intros params Hok He. unfold_ops; guards. answered Hok. now rewrite He.
  - intros He. repeat split; intros; unfold_ops; guards;
      match goal with
      | Hok : reply _ _ = _ |- _ => answered Hok
      end; now rewrite He.
  - intros prefix i api' res' f Hf.
    now apply transport_failure_not_decode with (res := res') (f := f).
  - intros i api' res' f Hd Hp Hf.
    destruct i; try discriminate Hd; unfold_ops;
      unfold preconditions, nonempty, account_of in Hp;
      repeat match goal with
        | |- context [String.eqb ?a ""] => destruct (String.eqb a "") eqn:?
        end; try discriminate Hp;
      answered Hf; reflexivity.
Qed.

(** ** C5: the result is the [result] member *)

Lemma list_body_decodes :
  Unmarshal decode_HyperdriveConfigListResponse list_body
    HyperdriveConfigListResponse.zero
  = Ok (HyperdriveConfigListResponse.mk pkg Response_zero
          (Some [only_id "a1"; only_id "a2"])).
Proof. vm_compute. reflexivity. Qed.

Lemma get_body_decodes :
  Unmarshal decode_HyperdriveConfigResponse get_body HyperdriveConfigResponse.zero
  = Ok (HyperdriveConfigResponse.mk pkg Response_zero
          (HyperdriveConfig.mk "h1" "db1" HyperdriveConfigOrigin.zero
             HyperdriveConfigCaching.zero)).
Proof. vm_compute. reflexivity. Qed.

(** C5. When the request of the operation succeeds and the bytes decode,
    List, Create, Get and Update return the field [Result] of the decoded
    envelope and a nil error, and Delete returns a nil error. On the bytes
    [{"result": [{"id":"a1"},{"id":"a2"}]}] List returns two configs, of
    identifiers [a1] and [a2] in this order; on
    [{"result": {"id":"h1","name":"db1"}}] Get returns the config of
    identifier [h1] and name [db1] whose origin and caching are zero. *)
Theorem result_is_unwrapped (rc : ResourceContainer) (api : API) (res : string) :
  Identifier rc <> "" ->
  (forall params r,
      reply (List rc params) api = (res, None) ->
      Unmarshal decode_HyperdriveConfigListResponse res
        HyperdriveConfigListResponse.zero = Ok r ->
      fst (ListHyperdriveConfigs rc params api) = (HyperdriveConfigListResponse.Result r, None))
  /\ (forall r,
         Unmarshal decode_HyperdriveConfigResponse res HyperdriveConfigResponse.zero
         = Ok r ->
         (forall params,
             CreateHyperdriveConfigParams.Name params <> "" ->
             CreateHyperdriveConfigParams.Password params <> "" ->
             reply (Create rc params) api = (res, None) ->
             fst (CreateHyperdriveConfig rc params api)
             = (HyperdriveConfigResponse.Result r, None))
         /\ (forall hyperdriveID,
                hyperdriveID <> "" ->
                reply (Get rc hyperdriveID) api = (res, None) ->
                fst (GetHyperdriveConfig rc hyperdriveID api)
                = (HyperdriveConfigResponse.Result r, None))
         /\ (forall params,
                UpdateHyperdriveConfigParams.HyperdriveID params <> "" ->
                reply (Update rc params) api = (res, None) ->
                fst (UpdateHyperdriveConfig rc params api)
                = (HyperdriveConfigResponse.Result r, None)))
  /\ (forall hyperdriveID,
         hyperdriveID <> "" ->
         reply (Delete rc hyperdriveID) api = (res, None) ->
         fst (DeleteHyperdriveConfig rc hyperdriveID api) = None)
  /\ (forall params,
         reply (List rc params) api = (list_body, None) ->
         fst (ListHyperdriveConfigs rc params api)
         = (Some [only_id "a1"; only_id "a2"], None))
  /\ (forall hyperdriveID,
         hyperdriveID <> "" ->
         reply (Get rc hyperdriveID) api = (get_body, None) ->
         fst (GetHyperdriveConfig rc hyperdriveID api)
         = (HyperdriveConfig.mk "h1" "db1" HyperdriveConfigOrigin.zero
              HyperdriveConfigCaching.zero, None)).
Proof.
  intros Hrc.
  split; [| split; [| split; [| split]]].
  - intros params r Hok Hr. unfold_ops; guards. answered Hok. now rewrite Hr.
  - intros r Hr. repeat split; intros; unfold_ops; guards;
      match goal with
      | Hok : reply _ _ = _ |- _ => answered Hok
      end; now rewrite Hr.
  - intros id Hid Hok. unfold_ops; guards. answered Hok. reflexivity.
  - intros params Hok. unfold_ops; guards. answered Hok.
    now rewrite list_body_decodes.
  - intros id Hid Hok. unfold_ops; guards. answered Hok.
    now rewrite get_body_decodes.
Qed.

(** ** C6: the identifier of Update *)

(** C6. A call of Update that passes the local checks makes one request,
    whose path ends with the config identifier and whose parameters are the
    struct as a whole; the encoding of the struct has the four members
    [name], [password], [origin] and [caching] and no member for
    [HyperdriveID], so the body is the same text whatever the identifier. *)
Theorem update_id_in_path_only (rc : ResourceContainer)
  (params : UpdateHyperdriveConfigParams) (api : API) :
  Identifier rc <> "" ->
  UpdateHyperdriveConfigParams.HyperdriveID params <> "" ->
  calls (snd (UpdateHyperdriveConfig rc params api))
  = (calls api
     ++ [{| req_method := MethodPut;
            req_uri := "/accounts/" ++ Identifier rc ++ "/hyperdrive/configs/"
                       ++ UpdateHyperdriveConfigParams.HyperdriveID params;
            req_params := ParamsUpdate params |}])%list
  /\ encode_UpdateHyperdriveConfigParams params
     = JObj [("name", JStr (UpdateHyperdriveConfigParams.Name params));
             ("password", JStr (UpdateHyperdriveConfigParams.Password params));
             ("origin",
              encode_HyperdriveConfigOrigin
                (UpdateHyperdriveConfigParams.Origin params));
             ("caching",
              encode_HyperdriveConfigCaching
                (UpdateHyperdriveConfigParams.Caching params))]
  /\ (forall id,
         request_body
           (ParamsUpdate
              (UpdateHyperdriveConfigParams.mk id
                 (UpdateHyperdriveConfigParams.Name params)
                 (UpdateHyperdriveConfigParams.Password params)
                 (UpdateHyperdriveConfigParams.Origin params)
                 (UpdateHyperdriveConfigParams.Caching params)))
         = request_body (ParamsUpdate params)).
Proof.
  intros Hrc Hid. repeat split.
  - unfold_ops; guards. answer. destruct err; cbn [option_map];
      [reflexivity |].
    match goal with
    | |- context [Unmarshal ?d ?r ?z] => destruct (Unmarshal d r z)
    end; reflexivity.
Qed.

(** ** C9: the three states of [disabled] *)

(** C9. Encoding a [HyperdriveConfigCaching] whose two numbers fit Go's
    [int] and decoding the text into a zero value gives the value back:
    a nil [Disabled] is written as no member and read back as nil, a pointer
    to false is written as [false] and read back as a pointer to false, a
    pointer to true likewise. The member [disabled] is in the encoding
    exactly when the pointer is not nil. *)
Theorem caching_round_trip (c : HyperdriveConfigCaching) :
  int_ok (HyperdriveConfigCaching.MaxAge c) = true ->
  int_ok (HyperdriveConfigCaching.StaleWhileRevalidate c) = true ->
  Unmarshal_HyperdriveConfigCaching (Marshal_HyperdriveConfigCaching c)
    HyperdriveConfigCaching.zero = Ok c
  /\ exists ms,
      encode_HyperdriveConfigCaching c = JObj ms
      /\ match HyperdriveConfigCaching.Disabled c with
         | Some b => In ("disabled", JBool b) ms
         | None => forall v, ~ In ("disabled", v) ms
         end.
Proof.
  intros Hm Hs. split; [now apply unmarshal_marshal_caching |].
  destruct c as [d m s]. unfold encode_HyperdriveConfigCaching.
  cbn [HyperdriveConfigCaching.Disabled HyperdriveConfigCaching.MaxAge
         HyperdriveConfigCaching.StaleWhileRevalidate].
  eexists; split; [reflexivity |].
  unfold member_int, member_bool_ptr. cbn [andb].
  destruct d as [b |].
  - now left.
  - intros v. destruct (m =? 0); destruct (s =? 0); cbn [app In];
      intros H; repeat destruct H as [H | H]; try discriminate H; exact H.
Qed.

End Properties.

(** * The properties at work *)

Lemma empty_account_no_request_witness :
  fst (@DeleteHyperdriveConfig example_package (stub ("", None)) no_acct "h1"
         (fresh ("", None)))
  = Some ErrMissingAccountID
  /\ calls (snd (@ListHyperdriveConfigs example_package (stub ("", None))
                  no_acct tt (fresh ("", None)))) = [].
Proof.
  pose proof (@empty_account_no_request example_package (stub ("", None)) no_acct
                (fresh ("", None)) eq_refl) as (HL & _ & _ & _ & HD).
  split.
  - now rewrite (HD "h1").
  - now rewrite (HL tt).
Defined.

Lemma create_checks_name_then_password_witness :
  fst (@CreateHyperdriveConfig example_package (stub ("", None)) acct
         no_name_params (fresh ("", None)))
  = (HyperdriveConfig.zero, Some ErrMissingHyperdriveConfigName)
  /\ fst (@CreateHyperdriveConfig example_package (stub ("", None)) acct
            no_password_params (fresh ("", None)))
     = (HyperdriveConfig.zero, Some ErrMissingHyperdriveConfigPassword).
Proof.
  assert (Hacct : Identifier acct <> "") by discriminate.
  split.
  - now rewrite (proj1 (@create_checks_name_then_password example_package
                          (stub ("", None)) acct no_name_params
                          (fresh ("", None)) Hacct) eq_refl).
  - rewrite (proj2 (@create_checks_name_then_password example_package
                      (stub ("", None)) acct no_password_params
                      (fresh ("", None)) Hacct));
      [reflexivity | discriminate | reflexivity].
Defined.

(** C3, as it is stated, fails: with both identifiers empty the account
    check comes first, and Get, Update and Delete return
    [ErrMissingAccountID], which is not [ErrMissingHyperdriveConfigID]. *)
Lemma empty_config_id_with_empty_account :
  snd (fst (@GetHyperdriveConfig example_package (stub ("", None)) no_acct ""
              (fresh ("", None))))
  = Some ErrMissingAccountID
  /\ snd (fst (@UpdateHyperdriveConfig example_package (stub ("", None)) no_acct
                 no_id_params (fresh ("", None))))
     = Some ErrMissingAccountID
  /\ fst (@DeleteHyperdriveConfig example_package (stub ("", None)) no_acct ""
            (fresh ("", None)))
     = Some ErrMissingAccountID
  /\ Some (@ErrMissingAccountID (stub ("", None)))
     <> Some ErrMissingHyperdriveConfigID.
Proof.
  repeat split; discriminate.
Qed.

Lemma empty_config_id_after_account_witness :
  fst (@GetHyperdriveConfig example_package (stub ("", None)) acct ""
         (fresh ("", None)))
  = (HyperdriveConfig.zero, Some ErrMissingHyperdriveConfigID)
  /\ fst (@DeleteHyperdriveConfig example_package (stub ("", None)) no_acct ""
            (fresh ("", None)))
     = Some ErrMissingAccountID.
Proof.
  assert (Hacct : Identifier acct <> "") by discriminate.
  pose proof (@empty_config_id_after_account example_package (stub ("", None))
                acct (fresh ("", None))) as [H1 _].
  pose proof (@empty_config_id_after_account example_package (stub ("", None))
                no_acct (fresh ("", None))) as [_ H2].
  split.
  - now rewrite (proj1 (H1 Hacct)).
  - now rewrite (proj2 (proj2 (H2 eq_refl))).
Defined.

Lemma error_means_zero_result_witness :
  snd (fst (@GetHyperdriveConfig example_package (stub (truncated_body, None))
              acct "h1" (fresh (truncated_body, None)))) <> None
  /\ fst (fst (@GetHyperdriveConfig example_package (stub (truncated_body, None))
                 acct "h1" (fresh (truncated_body, None))))
     = HyperdriveConfig.zero.
Proof.
  assert (H : snd (fst (@GetHyperdriveConfig example_package
                          (stub (truncated_body, None)) acct "h1"
                          (fresh (truncated_body, None)))) <> None)
    by (vm_compute; discriminate).
  split; [exact H |].
  exact (proj1 (proj2 (proj2 (@error_means_zero_result example_package
                                (stub (truncated_body, None)) acct
                                (fresh (truncated_body, None))))) "h1" H).
Defined.

Lemma only_delete_wraps_transport_error_witness :
  fst (@DeleteHyperdriveConfig example_package (stub ("", Some "boom")) acct "h1"
         (fresh ("", Some "boom")))
  = Some (Errorf "error from makeRequest"
            (@ErrClient (stub ("", Some "boom")) "boom"))
  /\ fst (@GetHyperdriveConfig example_package (stub ("", Some "boom")) acct "h1"
            (fresh ("", Some "boom")))
     = (HyperdriveConfig.zero, Some (@ErrClient (stub ("", Some "boom")) "boom")).
Proof.
  assert (Hacct : Identifier acct <> "") by discriminate.
  pose proof (@only_delete_wraps_transport_error example_package
                (stub ("", Some "boom")) acct (fresh ("", Some "boom")) ""
                ("boom" : @Failure (stub ("", Some "boom")))
                Hacct) as (HD & _ & _ & HG & _).
  split.
  - apply (HD "h1"); [discriminate | reflexivity].
  - apply (HG "h1"); [discriminate | reflexivity].
Defined.

(** C4, as it is stated, fails: the request succeeds, the bytes of the
    response are not JSON (a number starts with [0] and goes on), and Get
    returns the config of the member [result] with a nil error. The decoder
    passes over the value of a member it has no field for without checking
    it. *)
Lemma malformed_body_is_decoded :
  parse lenient_body = None
  /\ @reply (stub (lenient_body, None)) (Get acct "h1") (fresh (lenient_body, None))
     = (lenient_body, None)
  /\ fst (@GetHyperdriveConfig example_package (stub (lenient_body, None)) acct
            "h1" (fresh (lenient_body, None)))
     = (only_id "h1", None).
Proof. repeat split. Qed.

Lemma decode_error_is_marked_witness :
  fst (@GetHyperdriveConfig example_package (stub (truncated_body, None)) acct
         "h1" (fresh (truncated_body, None)))
  = (HyperdriveConfig.zero,
     Some (Errorf "error unmarshalling the JSON response" (ErrJSON SyntaxError)))
  /\ fst (@ListHyperdriveConfigs example_package (stub (truncated_body, None))
            acct tt (fresh (truncated_body, None)))
     = (Some [],
        Some (Errorf "failed to unmarshal filters JSON data" (ErrJSON SyntaxError))).
Proof.
  assert (Hacct : Identifier acct <> "") by discriminate.
  pose proof (@decode_error_is_marked example_package
                (stub (truncated_body, None)) acct
                (fresh (truncated_body, None)) truncated_body SyntaxError
                Hacct) as (HL & HC & _ & _).
  split.
  - destruct (HC eq_refl) as (_ & HG & _).
    apply (HG "h1"); [discriminate | reflexivity].
  - apply (HL tt); reflexivity.
Defined.

Lemma result_is_unwrapped_witness :
  fst (@ListHyperdriveConfigs example_package (stub (list_body, None)) acct tt
         (fresh (list_body, None)))
  = (Some [only_id "a1"; only_id "a2"], None)
  /\ fst (@GetHyperdriveConfig example_package (stub (get_body, None)) acct "h1"
            (fresh (get_body, None)))
     = (HyperdriveConfig.mk "h1" "db1" HyperdriveConfigOrigin.zero
          HyperdriveConfigCaching.zero, None).
Proof.
  assert (Hacct : Identifier acct <> "") by discriminate.
  split.
  - pose proof (@result_is_unwrapped example_package (stub (list_body, None))
                  acct (fresh (list_body, None)) list_body Hacct)
      as (_ & _ & _ & HL & _).
    exact (HL tt eq_refl).
  - pose proof (@result_is_unwrapped example_package (stub (get_body, None))
                  acct (fresh (get_body, None)) get_body Hacct)
      as (_ & _ & _ & _ & HG).
    apply (HG "h1"); [discriminate | reflexivity].
Defined.

Lemma update_id_in_path_only_witness :
  calls (snd (@UpdateHyperdriveConfig example_package (stub (get_body, None))
                acct update_params (fresh (get_body, None))))
  = [{| req_method := MethodPut;
        req_uri := "/accounts/acc1/hyperdrive/configs/h1";
        req_params := ParamsUpdate update_params |}]
  /\ request_body (ParamsUpdate update_params)
     = Some (q ("{'name':'db1','password':'secret','origin':{'database':'postgres',"
                ++ "'host':'db.example.com','port':5432,'scheme':'postgres',"
                ++ "'user':'u'},'caching':{'disabled':false,'max_age':30}}")).
Proof.
  assert (Hacct : Identifier acct <> "") by discriminate.
  assert (Hid : UpdateHyperdriveConfigParams.HyperdriveID update_params <> "")
    by discriminate.
  split.
  - exact (proj1 (@update_id_in_path_only example_package
                    (stub (get_body, None)) acct update_params
                    (fresh (get_body, None)) Hacct Hid)).
  - vm_compute. reflexivity.
Defined.

Lemma caching_round_trip_witness :
  Unmarshal_HyperdriveConfigCaching
    (q "{'disabled':false,'max_age':30}") HyperdriveConfigCaching.zero
  = Ok (HyperdriveConfigCaching.mk (Some false) 30 0).
Proof.
  exact (proj1 (caching_round_trip (HyperdriveConfigCaching.mk (Some false) 30 0)
                  eq_refl eq_refl)).
Defined.

(** * Further properties of the operations *)

Section Calls.
Context {pkg : Package} {client : APIClient}.

(** The receiver after one call: untouched when a local check fails;
    otherwise the client has answered the request of the table, once, and
    the trace has grown by it. *)
Lemma run_receiver (i : Invocation) (api : API) :
  snd (run i api)
  = if preconditions i
    then {| conn := snd (roundTrip (table_request i) (conn api));
            calls := calls api ++ [table_request i] |}
    else api.
Proof.
  destruct i; unfold_ops;
    unfold preconditions, nonempty, account_of, table_request, config_path,
      configs_path;
    repeat match goal with
      | |- context [String.eqb ?a ""] => destruct (String.eqb a "") eqn:?
      end; cbn [negb andb fst snd]; try reflexivity;
    rewrite ?append_assoc; cbn [String.append]; answer;
    destruct err; cbn [option_map];
    repeat match goal with
      | |- context [Unmarshal ?d ?r ?z] => destruct (Unmarshal d r z)
      end; reflexivity.
Qed.

Lemma replay_app (a b : list Request) (c : Conn) :
  replay (a ++ b) c = replay b (replay a c).
Proof. unfold replay. apply fold_left_app. Qed.

Lemma run_all_cons (i : Invocation) (l : list Invocation) (api : API) :
  run_all (i :: l) api
  = let (e, api1) := run i api in
    let (es, api2) := run_all l api1 in (e :: es, api2).
Proof. reflexivity. Qed.

(** X1. A caller that makes any calls one after the other leaves in the
    trace, after what was there, the requests of the table of exactly those
    calls whose local checks pass, in the order of the calls; the client has
    answered these requests and no other, each from the state the one before
    left; and the caller has one error value (nil or not) per call. *)
Theorem calls_in_sequence (l : list Invocation) (api : API) :
  calls (snd (run_all l api))
  = (calls api ++ map table_request (filter preconditions l))%list
  /\ conn (snd (run_all l api))
     = replay (map table_request (filter preconditions l)) (conn api)
  /\ length (fst (run_all l api)) = length l.
Proof.
  revert api. induction l as [| i l IH]; intros api.
  - cbn. now rewrite List.app_nil_r.
  - rewrite run_all_cons.
    pose proof (run_receiver i api) as Hr.
    destruct (run i api) as [e api1]. cbn [snd] in Hr.
    destruct (IH api1) as (Hc & Hn & Hl).
    destruct (run_all l api1) as [es api2]. cbn [fst snd ret] in *.
    cbn [filter]. destruct (preconditions i); subst api1; cbn [calls conn] in *.
    + cbn [map length]. rewrite Hc, Hn, Hl, <- List.app_assoc. repeat split.
    + cbn [length]. rewrite Hc, Hn, Hl. repeat split.
Qed.

End Calls.

Section Classes.
Context {pkg : Package} {client : APIClient}.

(** Brings a goal about one call to the cases of its source: which guard
    fails, what the client answers, whether the bytes decode. *)
Ltac by_cases i :=
  destruct i; unfold_ops;
  unfold reply, decode_failure, preconditions, nonempty, account_of,
    table_request, config_path, configs_path;
  repeat match goal with
    | |- context [String.eqb ?a ""] => destruct (String.eqb a "") eqn:?
    end;
  cbn [negb andb fst snd]; rewrite ?append_assoc; cbn [String.append];
  try (answer;
       match goal with
       | |- context [option_map ErrClient ?x] => destruct x
       end; cbn [option_map fst snd]);
  repeat match goal with
    | |- context [Unmarshal ?d ?r ?z] => destruct (Unmarshal d r z)
    end; cbn [fst snd].

(** X2. Every error an operation returns is of one of the three classes.
    A validation error (one of the four sentinels) is returned when a local
    check fails and only then, and the receiver is then left as it was. A
    transport error is returned only after a request the client answered
    with an error. A decode error is returned only after a request the
    client answered without error, whose bytes the decoder refused, and
    never by Delete. *)
Theorem error_taxonomy (i : Invocation) (api : API) :
  (forall e,
      fst (run i api) = Some e ->
      match classify e with
      | Some Validation => preconditions i = false /\ snd (run i api) = api
      | Some Transport =>
          preconditions i = true /\ exists f, snd (reply i api) = Some f
      | Some Decode =>
          preconditions i = true /\ is_delete i = false
          /\ snd (reply i api) = None
          /\ exists je, decode_failure i (fst (reply i api)) = Some je
      | None => False
      end)
  /\ (preconditions i = false ->
      exists e, fst (run i api) = Some e /\ classify e = Some Validation).
Proof.
  split.
  - by_cases i; intros e0 H; try discriminate H;
      injection H as <-; cbn [classify is_delete]; eauto 6.
  - by_cases i; intros H; try discriminate H; eauto.
Qed.

(** X3. An operation returns a nil error exactly when its local checks
    pass, the client answers its request without error and, for the four
    operations that decode, the bytes of the answer decode into the
    envelope. Delete does not look at the bytes. *)
Theorem nil_error_iff (i : Invocation) (api : API) :
  fst (run i api) = None
  <-> preconditions i = true
      /\ snd (reply i api) = None
      /\ decode_failure i (fst (reply i api)) = None.
Proof.
  by_cases i; split; try discriminate; try (intros (? & ? & ?); discriminate);
    auto.
Qed.

(** X4. The cause of an error stays within reach of [errors.Is] and
    [errors.As]: when the client answers the request with the error [f],
    the chain of the error the operation returns holds [f], behind the
    wrapper of Delete as well; when the decoder refuses the bytes with the
    error [je], the chain of the returned error holds [je]. *)
Theorem cause_is_kept (i : Invocation) (api : API) :
  preconditions i = true ->
  (forall f,
      snd (reply i api) = Some f ->
      exists e, fst (run i api) = Some e /\ In (ErrClient f) (chain e))
  /\ (forall je,
         snd (reply i api) = None ->
         decode_failure i (fst (reply i api)) = Some je ->
         exists e, fst (run i api) = Some e /\ In (ErrJSON je) (chain e)).
Proof.
  by_cases i; intros Hp; try discriminate Hp; split; intros x H;
    try discriminate H; try (intros H'; try discriminate H');
    repeat match goal with
      | H : Some _ = Some _ |- _ => injection H as ->
      end;
    eexists; (split; [reflexivity | cbn [chain In]; auto]).
Qed.

End Classes.

(** * Texts of configs, bodies and envelopes *)

Section Bodies.
Context {pkg : Package} {client : APIClient}.
Local Open Scope res_scope.

(** X5. A config whose strings are valid UTF-8 and whose numbers fit Go's
    [int], encoded by the tags of [HyperdriveConfig] and decoded by them
    into a zero value, is the config again: every field has its own key,
    and what [omitempty] leaves out is what a zero value already holds.
    A string that is not valid UTF-8 does not come back: the encoder writes
    U+FFFD for the stray byte. *)
Theorem config_round_trip (c : HyperdriveConfig) :
  config_strings c = true ->
  config_fits c = true ->
  Unmarshal_HyperdriveConfig (Marshal_HyperdriveConfig c) HyperdriveConfig.zero
  = Ok c
  /\ Unmarshal_HyperdriveConfig
       (Marshal_HyperdriveConfig
          (HyperdriveConfig.mk "h4" stray_byte HyperdriveConfigOrigin.zero
             HyperdriveConfigCaching.zero))
       HyperdriveConfig.zero
     = Ok (HyperdriveConfig.mk "h4" replaced_byte HyperdriveConfigOrigin.zero
             HyperdriveConfigCaching.zero).
Proof.
  intros Hs Hf. destruct (wrap_config_fits c Hf) as [Hw Hd]. split.
  - rewrite (unmarshal_marshal_config c Hs Hd). now rewrite Hw.
  - vm_compute. reflexivity.
Qed.

Lemma decode_body_members (n pw : string) (o : HyperdriveConfigOrigin)
  (c : HyperdriveConfigCaching) :
  origin_digits o = true ->
  caching_digits c = true ->
  doc_HyperdriveConfig
    (JObj [("name", JStr n); ("password", JStr pw);
           ("origin", encode_HyperdriveConfigOrigin o);
           ("caching", encode_HyperdriveConfigCaching c)])
    HyperdriveConfig.zero
  = Ok (HyperdriveConfig.mk "" n (wrap_origin o) (wrap_caching c)).
Proof.
  intros Ho Hc. unfold doc_HyperdriveConfig, HyperdriveConfig.zero.
  cbn [decode_struct].
  rewrite decode_members_cons, set_config_name. cbn [bind decode_string].
  rewrite decode_members_cons, set_config_password. cbn [bind].
  now apply decode_origin_caching.
Qed.

Lemma wellformed_body_members (n pw : string) (o : HyperdriveConfigOrigin)
  (c : HyperdriveConfigCaching) :
  valid_utf8 n = true ->
  valid_utf8 pw = true ->
  origin_strings o = true ->
  wellformed (JObj [("name", JStr n); ("password", JStr pw);
                    ("origin", encode_HyperdriveConfigOrigin o);
                    ("caching", encode_HyperdriveConfigCaching c)]) = true.
Proof.
  intros Hn Hp Ho. cbn [wellformed forallb fst snd valid_utf8 andb].
  now rewrite Hn, Hp, (wellformed_origin o Ho), wellformed_caching.
Qed.

Lemma body_as_config (n pw : string) (o : HyperdriveConfigOrigin)
  (c : HyperdriveConfigCaching) :
  valid_utf8 n = true ->
  valid_utf8 pw = true ->
  origin_strings o = true ->
  origin_fits o = true ->
  caching_fits c = true ->
  Unmarshal_HyperdriveConfig
    (print (JObj [("name", JStr n); ("password", JStr pw);
                  ("origin", encode_HyperdriveConfigOrigin o);
                  ("caching", encode_HyperdriveConfigCaching c)]))
    HyperdriveConfig.zero
  = Ok (HyperdriveConfig.mk "" n o c).
Proof.
  intros Hn Hp Hs Ho Hc.
  destruct (wrap_origin_fits o Ho) as [Hwo Hdo].
  destruct (wrap_caching_fits c Hc) as [Hwc Hdc].
  pose proof (Unmarshal_agrees _ _ _ _ HyperdriveConfig.zero config_agrees
                (parse_print_object _ (wellformed_body_members n pw o c Hn Hp Hs)))
    as A.
  rewrite (decode_body_members n pw o c Hdo Hdc), Hwo, Hwc in A. exact A.
Qed.

(** X6. The body of Create and the body of Update, read by the tags of
    [HyperdriveConfig], give the name, the origin and the caching the caller
    passed, when the strings are valid UTF-8 and the numbers fit Go's
    [int]: the parameter structs write these fields under the keys the
    result struct reads them from. The password is in the body and has no
    field to go to; the identifier of Update is not in the body, so the
    config read has an empty [ID]. *)
Theorem request_body_as_config :
  (forall p : CreateHyperdriveConfigParams,
      valid_utf8 (CreateHyperdriveConfigParams.Name p) = true ->
      valid_utf8 (CreateHyperdriveConfigParams.Password p) = true ->
      origin_strings (CreateHyperdriveConfigParams.Origin p) = true ->
      origin_fits (CreateHyperdriveConfigParams.Origin p) = true ->
      caching_fits (CreateHyperdriveConfigParams.Caching p) = true ->
      exists body,
        request_body (ParamsCreate p) = Some body
        /\ Unmarshal_HyperdriveConfig body HyperdriveConfig.zero
           = Ok (HyperdriveConfig.mk ""
                   (CreateHyperdriveConfigParams.Name p)
                   (CreateHyperdriveConfigParams.Origin p)
                   (CreateHyperdriveConfigParams.Caching p)))
  /\ (forall p : UpdateHyperdriveConfigParams,
         valid_utf8 (UpdateHyperdriveConfigParams.Name p) = true ->
         valid_utf8 (UpdateHyperdriveConfigParams.Password p) = true ->
         origin_strings (UpdateHyperdriveConfigParams.Origin p) = true ->
         origin_fits (UpdateHyperdriveConfigParams.Origin p) = true ->
         caching_fits (UpdateHyperdriveConfigParams.Caching p) = true ->
         exists body,
           request_body (ParamsUpdate p) = Some body
           /\ Unmarshal_HyperdriveConfig body HyperdriveConfig.zero
              = Ok (HyperdriveConfig.mk ""
                      (UpdateHyperdriveConfigParams.Name p)
                      (UpdateHyperdriveConfigParams.Origin p)
                      (UpdateHyperdriveConfigParams.Caching p))).
Proof.
  split.
  - intros [n pw o c] Hn Hp Hs Ho Hc.
    cbn [CreateHyperdriveConfigParams.Name CreateHyperdriveConfigParams.Password
           CreateHyperdriveConfigParams.Origin
           CreateHyperdriveConfigParams.Caching] in *.
    eexists; split; [reflexivity |].
    exact (body_as_config n pw o c Hn Hp Hs Ho Hc).
  - intros [i n pw o c] Hn Hp Hs Ho Hc.
    cbn [UpdateHyperdriveConfigParams.Name UpdateHyperdriveConfigParams.Password
           UpdateHyperdriveConfigParams.Origin
           UpdateHyperdriveConfigParams.Caching] in *.
    eexists; split; [reflexivity |].
    exact (body_as_config n pw o c Hn Hp Hs Ho Hc).
Qed.

Lemma decode_elems_configs (cs : list HyperdriveConfig) :
  forallb config_digits cs = true ->
  decode_elems (fun e => doc_HyperdriveConfig e HyperdriveConfig.zero)
    (map encode_HyperdriveConfig cs) = Ok (map wrap_config cs).
Proof.
  induction cs as [| c cs IH]; [reflexivity |].
  cbn [forallb map decode_elems]. intros [Hc Hcs]%andb_true_iff.
  now rewrite (decode_encode_config c Hc), (IH Hcs).
Qed.

Lemma decode_elems_long (cs : list HyperdriveConfig) :
  forallb config_digits cs = false ->
  exists e,
    decode_elems (fun e => doc_HyperdriveConfig e HyperdriveConfig.zero)
      (map encode_HyperdriveConfig cs) = Err e.
Proof.
  induction cs as [| c cs IH]; [discriminate |].
  cbn [forallb map decode_elems]. intros H.
  destruct (config_digits c) eqn:Hc; cbn [andb] in H.
  - destruct (IH H) as [e He]. exists e.
    now rewrite (decode_encode_config c Hc), He.
  - destruct (config_long c Hc) as [e He]. exists e. now rewrite He.
Qed.

Lemma wellformed_configs (cs : list HyperdriveConfig) :
  forallb config_strings cs = true ->
  forallb wellformed (map encode_HyperdriveConfig cs) = true.
Proof.
  induction cs as [| c cs IH]; [reflexivity |].
  cbn [map forallb]. intros [Hc Hcs]%andb_true_iff.
  now rewrite (wellformed_config c Hc), IH.
Qed.

Lemma map_wrap_fits (cs : list HyperdriveConfig) :
  forallb config_fits cs = true ->
  map wrap_config cs = cs /\ forallb config_digits cs = true.
Proof.
  induction cs as [| c cs IH]; [now split |].
  cbn [forallb map]. intros [Hc Hcs]%andb_true_iff.
  destruct (wrap_config_fits c Hc) as [-> ->].
  destruct (IH Hcs) as [-> ->]. now split.
Qed.

Lemma set_list_result (v : json) (r : HyperdriveConfigListResponse) :
  set_HyperdriveConfigListResponse "result" v r
  = (x <- decode_slice "Result"
            (fun e => doc_HyperdriveConfig e HyperdriveConfig.zero) v ;;
     Ok (HyperdriveConfigListResponse.mk pkg
           (HyperdriveConfigListResponse.Response r) x)).
Proof. reflexivity. Qed.

Lemma set_config_result (v : json) (r : HyperdriveConfigResponse) :
  set_HyperdriveConfigResponse "result" v r
  = (x <- decode_struct set_HyperdriveConfig v
            (HyperdriveConfigResponse.Result r) ;;
     Ok (HyperdriveConfigResponse.mk pkg
           (HyperdriveConfigResponse.Response r) x)).
Proof. reflexivity. Qed.

Lemma wellformed_list_envelope (cs : list HyperdriveConfig) :
  forallb config_strings cs = true ->
  wellformed (JObj [("result", JArr (map encode_HyperdriveConfig cs))]) = true.
Proof.
  intros Hs. cbn [wellformed forallb fst snd valid_utf8 andb].
  now rewrite (wellformed_configs cs Hs).
Qed.

Lemma wellformed_config_envelope (c : HyperdriveConfig) :
  config_strings c = true ->
  wellformed (JObj [("result", encode_HyperdriveConfig c)]) = true.
Proof.
  intros Hs. cbn [wellformed forallb fst snd valid_utf8 andb].
  now rewrite (wellformed_config c Hs).
Qed.

(** The envelope of a list of configs, read by the decoder of List. *)
Lemma list_envelope_decodes (cs : list HyperdriveConfig) :
  forallb config_strings cs = true ->
  match decode_elems (fun e => doc_HyperdriveConfig e HyperdriveConfig.zero)
          (map encode_HyperdriveConfig cs) with
  | Ok l =>
      Unmarshal decode_HyperdriveConfigListResponse (list_envelope cs)
        HyperdriveConfigListResponse.zero
      = Ok (HyperdriveConfigListResponse.mk pkg Response_zero (Some l))
  | Err _ =>
      exists e,
        Unmarshal decode_HyperdriveConfigListResponse (list_envelope cs)
          HyperdriveConfigListResponse.zero = Err e
  end.
Proof.
  intros Hs. unfold list_envelope.
  pose proof (Unmarshal_agrees _ _ _ _ HyperdriveConfigListResponse.zero
                list_response_agrees
                (parse_print_object _ (wellformed_list_envelope cs Hs))) as A.
  unfold doc_HyperdriveConfigListResponse in A. cbn [decode_struct] in A.
  rewrite decode_members_cons, set_list_result in A. cbn [decode_slice] in A.
  destruct (decode_elems _ (map encode_HyperdriveConfig cs)) as [l | e];
    exact A.
Qed.

(** The envelope of one config, read by the decoder of Create, Get and
    Update. *)
Lemma config_envelope_decodes (c : HyperdriveConfig) :
  config_strings c = true ->
  match doc_HyperdriveConfig (encode_HyperdriveConfig c) HyperdriveConfig.zero with
  | Ok x =>
      Unmarshal decode_HyperdriveConfigResponse (config_envelope c)
        HyperdriveConfigResponse.zero
      = Ok (HyperdriveConfigResponse.mk pkg Response_zero x)
  | Err _ =>
      exists e,
        Unmarshal decode_HyperdriveConfigResponse (config_envelope c)
          HyperdriveConfigResponse.zero = Err e
  end.
Proof.
  intros Hs. unfold config_envelope.
  pose proof (Unmarshal_agrees _ _ _ _ HyperdriveConfigResponse.zero
                config_response_agrees
                (parse_print_object _ (wellformed_config_envelope c Hs))) as A.
  unfold doc_HyperdriveConfigResponse in A. cbn [decode_struct] in A.
  rewrite decode_members_cons, set_config_result in A.
  change (decode_struct set_HyperdriveConfig (encode_HyperdriveConfig c)
            (HyperdriveConfigResponse.Result HyperdriveConfigResponse.zero))
    with (doc_HyperdriveConfig (encode_HyperdriveConfig c) HyperdriveConfig.zero)
    in A.
  destruct (doc_HyperdriveConfig (encode_HyperdriveConfig c) HyperdriveConfig.zero)
    as [x | e]; exact A.
Qed.

(** X7. Whatever configs the service holds (their strings valid UTF-8,
    their numbers fitting Go's [int]): when the client answers List with the
    envelope whose result is the encoding of a list of configs, List returns
    these configs, as many and in the same order, and a nil error; when it
    answers Create, Get or Update with the envelope whose result is the
    encoding of a config, the operation returns this config and a nil
    error. *)
Theorem encoded_result_is_returned (rc : ResourceContainer) (api : API) :
  Identifier rc <> "" ->
  (forall params cs,
      forallb config_strings cs = true ->
      forallb config_fits cs = true ->
      reply (List rc params) api = (list_envelope cs, None) ->
      fst (ListHyperdriveConfigs rc params api) = (Some cs, None))
  /\ (forall c,
         config_strings c = true ->
         config_fits c = true ->
         (forall params,
             CreateHyperdriveConfigParams.Name params <> "" ->
             CreateHyperdriveConfigParams.Password params <> "" ->
             reply (Create rc params) api = (config_envelope c, None) ->
             fst (CreateHyperdriveConfig rc params api) = (c, None))
         /\ (forall hyperdriveID,
                hyperdriveID <> "" ->
                reply (Get rc hyperdriveID) api = (config_envelope c, None) ->
                fst (GetHyperdriveConfig rc hyperdriveID api) = (c, None))
         /\ (forall params,
                UpdateHyperdriveConfigParams.HyperdriveID params <> "" ->
                reply (Update rc params) api = (config_envelope c, None) ->
                fst (UpdateHyperdriveConfig rc params api) = (c, None))).
Proof.
  intros Hrc. split.
  - intros params cs Hs Hcs Hok. unfold_ops; guards. answered Hok.
    destruct (map_wrap_fits cs Hcs) as [Hw Hd].
    pose proof (list_envelope_decodes cs Hs) as A.
    rewrite (decode_elems_configs cs Hd), Hw in A. now rewrite A.
  - intros c Hs Hc.
    destruct (wrap_config_fits c Hc) as [Hw Hd].
    pose proof (config_envelope_decodes c Hs) as A.
    rewrite (decode_encode_config c Hd), Hw in A.
    repeat split; intros; unfold_ops; guards;
      match goal with
      | Hok : reply _ _ = _ |- _ => answered Hok
      end; now rewrite A.
Qed.

(** X9. A number of the response that does not fit Go's [int] is not
    refused as long as it is written with up to 19 digits: the decoder adds
    the digits up in 64 bits, and the operation returns the config with the
    number cut to 64 bits and a nil error ([9223372036854775808] is read as
    [-9223372036854775808]). A number of 20 digits or more is refused: Get
    returns the zero config and List the empty slice, with the decoder's
    error wrapped. The strings of the configs are valid UTF-8. *)
Theorem numbers_are_cut_to_size (rc : ResourceContainer) (api : API) :
  Identifier rc <> "" ->
  (forall hyperdriveID c,
      hyperdriveID <> "" ->
      config_strings c = true ->
      reply (Get rc hyperdriveID) api = (config_envelope c, None) ->
      if config_digits c
      then fst (GetHyperdriveConfig rc hyperdriveID api) = (wrap_config c, None)
      else exists je,
          fst (GetHyperdriveConfig rc hyperdriveID api)
          = (HyperdriveConfig.zero,
             Some (Errorf errUnmarshalError (ErrJSON je))))
  /\ (forall params cs,
         forallb config_strings cs = true ->
         reply (List rc params) api = (list_envelope cs, None) ->
         if forallb config_digits cs
         then fst (ListHyperdriveConfigs rc params api)
              = (Some (map wrap_config cs), None)
         else exists je,
             fst (ListHyperdriveConfigs rc params api)
             = (Some [],
                Some (Errorf "failed to unmarshal filters JSON data"
                        (ErrJSON je))))
  /\ wrap64 (2 ^ 63) = - 2 ^ 63
  /\ digits_ok (2 ^ 63) = true
  /\ digits_ok (10 ^ 19) = false.
Proof.
  intros Hrc. split; [| split; [| repeat split]].
  - intros id c Hid Hs Hok.
    pose proof (config_envelope_decodes c Hs) as A.
    destruct (config_digits c) eqn:Hd.
    + rewrite (decode_encode_config c Hd) in A.
      unfold_ops; guards. answered Hok. now rewrite A.
    + destruct (config_long c Hd) as [e He]. rewrite He in A.
      destruct A as [je A]. exists je.
      unfold_ops; guards. answered Hok. now rewrite A.
  - intros params cs Hs Hok.
    pose proof (list_envelope_decodes cs Hs) as A.
    destruct (forallb config_digits cs) eqn:Hd.
    + rewrite (decode_elems_configs cs Hd) in A.
      unfold_ops; guards. answered Hok. now rewrite A.
    + destruct (decode_elems_long cs Hd) as [e He]. rewrite He in A.
      destruct A as [je A]. exists je.
      unfold_ops; guards. answered Hok. now rewrite A.
Qed.

(** ** An envelope without result *)

Lemma decode_members_no_list_result (ms : list (string * json)) :
  (forall k v, In (k, v) ms -> is_field "result" k = true -> v = JNull) ->
  forall cur r,
    decode_members set_HyperdriveConfigListResponse ms cur = Ok r ->
    HyperdriveConfigListResponse.Result cur = None ->
    HyperdriveConfigListResponse.Result r = None.
Proof.
  induction ms as [| [k v] ms IH]; intros Hms cur r.
  - rewrite decode_members_nil. now intros [= <-].
  - rewrite decode_members_cons. unfold set_HyperdriveConfigListResponse at 1.
    destruct (is_field "result" k) eqn:Hk.
    + rewrite (Hms k v (or_introl eq_refl) Hk). cbn [decode_slice bind].
      intros Hr _. eapply IH; [| exact Hr | reflexivity].
      intros k' v' Hin. apply Hms. now right.
    + destruct (Response_key k);
        [destruct (Response_set k v _); cbn [bind]; [| discriminate] |];
        cbn [bind];
        intros Hr Hcur; (eapply IH; [| exact Hr | exact Hcur]);
        intros k' v' Hin; apply Hms; now right.
Qed.

Lemma decode_members_no_config_result (ms : list (string * json)) :
  (forall k v, In (k, v) ms -> is_field "result" k = true -> v = JNull) ->
  forall cur r,
    decode_members set_HyperdriveConfigResponse ms cur = Ok r ->
    HyperdriveConfigResponse.Result r = HyperdriveConfigResponse.Result cur.
Proof.
  induction ms as [| [k v] ms IH]; intros Hms cur r.
  - rewrite decode_members_nil. now intros [= <-].
  - rewrite decode_members_cons. unfold set_HyperdriveConfigResponse at 1.
    destruct (is_field "result" k) eqn:Hk.
    + rewrite (Hms k v (or_introl eq_refl) Hk). cbn [decode_struct bind].
      intros Hr. rewrite (IH (fun k' v' Hin => Hms k' v' (or_intror Hin)) _ _ Hr).
      reflexivity.
    + destruct (Response_key k);
        [destruct (Response_set k v _); cbn [bind]; [| discriminate] |];
        cbn [bind]; intros Hr;
        rewrite (IH (fun k' v' Hin => Hms k' v' (or_intror Hin)) _ _ Hr);
        reflexivity.
Qed.

(** X8. An envelope without result is no error. When the client answers
    without error with an object that has no member [result], or only null
    ones, and the object decodes, List returns the nil slice and Create, Get
    and Update return the zero config, each with a nil error: a caller
    cannot tell a missing result from an empty one by the error. *)
Theorem absent_result_is_zero (rc : ResourceContainer) (api : API)
  (res : string) (ms : list (string * json)) :
  Identifier rc <> "" ->
  parse res = Some (JObj ms) ->
  (forall k v, In (k, v) ms -> is_field "result" k = true -> v = JNull) ->
  (forall params,
      reply (List rc params) api = (res, None) ->
      decode_failure (List rc params) res = None ->
      fst (ListHyperdriveConfigs rc params api) = (None, None))
  /\ (forall params,
         CreateHyperdriveConfigParams.Name params <> "" ->
         CreateHyperdriveConfigParams.Password params <> "" ->
         reply (Create rc params) api = (res, None) ->
         decode_failure (Create rc params) res = None ->
         fst (CreateHyperdriveConfig rc params api) = (HyperdriveConfig.zero, None))
  /\ (forall hyperdriveID,
         hyperdriveID <> "" ->
         reply (Get rc hyperdriveID) api = (res, None) ->
         decode_failure (Get rc hyperdriveID) res = None ->
         fst (GetHyperdriveConfig rc hyperdriveID api)
         = (HyperdriveConfig.zero, None))
  /\ (forall params,
         UpdateHyperdriveConfigParams.HyperdriveID params <> "" ->
         reply (Update rc params) api = (res, None) ->
         decode_failure (Update rc params) res = None ->
         fst (UpdateHyperdriveConfig rc params api) = (HyperdriveConfig.zero, None)).
Proof.
  intros Hrc Hp Hms.
  assert (HL : forall r,
             Unmarshal decode_HyperdriveConfigListResponse res
               HyperdriveConfigListResponse.zero = Ok r ->
             HyperdriveConfigListResponse.Result r = None).
  { intros r Hr.
    pose proof (Unmarshal_agrees _ _ _ _ HyperdriveConfigListResponse.zero
                  list_response_agrees Hp) as A.
    unfold doc_HyperdriveConfigListResponse in A. cbn [decode_struct] in A.
    destruct (decode_members set_HyperdriveConfigListResponse ms
                HyperdriveConfigListResponse.zero) as [y | e] eqn:E.
    - rewrite A in Hr. injection Hr as <-.
      now apply (decode_members_no_list_result ms Hms _ _ E).
    - destruct A as [e' A]. rewrite A in Hr. discriminate Hr. }
  assert (HC : forall r,
             Unmarshal decode_HyperdriveConfigResponse res
               HyperdriveConfigResponse.zero = Ok r ->
             HyperdriveConfigResponse.Result r = HyperdriveConfig.zero).
  { intros r Hr.
    pose proof (Unmarshal_agrees _ _ _ _ HyperdriveConfigResponse.zero
                  config_response_agrees Hp) as A.
    unfold doc_HyperdriveConfigResponse in A. cbn [decode_struct] in A.
    destruct (decode_members set_HyperdriveConfigResponse ms
                HyperdriveConfigResponse.zero) as [y | e] eqn:E.
    - rewrite A in Hr. injection Hr as <-.
      now rewrite (decode_members_no_config_result ms Hms _ _ E).
    - destruct A as [e' A]. rewrite A in Hr. discriminate Hr. }
  repeat split; intros; unfold_ops; guards;
    match goal with
    | Hok : reply _ _ = _ |- _ => answered Hok
    end;
    match goal with
    | Hd : decode_failure _ _ = None |- _ => unfold decode_failure in Hd
    end;
    match goal with
    | |- context [Unmarshal ?d ?r ?z] => destruct (Unmarshal d r z) eqn:E
    end; try discriminate;
    first [now rewrite (HL _ eq_refl) | now rewrite (HC _ eq_refl)].
Qed.

End Bodies.

(** * Paths *)

Section Paths.
Context {pkg : Package} {client : APIClient}.

Lemma segment_inj (a1 a2 r1 r2 : string) :
  no_slash a1 = true ->
  no_slash a2 = true ->
  a1 ++ String "/" r1 = a2 ++ String "/" r2 ->
  a1 = a2 /\ r1 = r2.
Proof.
  revert a2. induction a1 as [| c a1 IH]; intros [| d a2];
    cbn [no_slash String.append]; intros H1 H2 E.
  - now injection E as ->.
  - injection E as <- _. discriminate H2.
  - injection E as -> _. discriminate H1.
  - apply andb_true_iff in H1 as [_ H1]. apply andb_true_iff in H2 as [_ H2].
    injection E as -> E. destruct (IH a2 H1 H2 E) as [-> ->]. now split.
Qed.

Lemma configs_path_inj (a1 a2 : string) :
  no_slash a1 = true -> no_slash a2 = true ->
  configs_path a1 = configs_path a2 -> a1 = a2.
Proof.
  intros H1 H2 E. unfold configs_path in E. cbn [String.append] in E.
  injection E as E.
  now destruct (segment_inj a1 a2 _ _ H1 H2 E).
Qed.

Lemma config_path_inj (a1 a2 id1 id2 : string) :
  no_slash a1 = true -> no_slash a2 = true ->
  config_path a1 id1 = config_path a2 id2 -> a1 = a2 /\ id1 = id2.
Proof.
  intros H1 H2 E. rewrite !config_path_eq in E. cbn [String.append] in E.
  injection E as E.
  destruct (segment_inj a1 a2 _ _ H1 H2 E) as [-> E'].
  cbn [String.append] in E'. now injection E' as ->.
Qed.

Lemma configs_path_not_config (a1 a2 id : string) :
  no_slash a1 = true -> no_slash a2 = true ->
  configs_path a1 <> config_path a2 id.
Proof.
  intros H1 H2 E. rewrite config_path_eq in E. unfold configs_path in E.
  cbn [String.append] in E. injection E as E.
  destruct (segment_inj a1 a2 _ _ H1 H2 E) as [_ E'].
  cbn [String.append] in E'. discriminate E'.
Qed.

(** X10. The identifiers are formatted into the path as they are. When
    the account identifiers have no slash in them, two calls that pass the
    local checks and leave the same trace are the same call of the same
    operation with the same arguments; without that the path does not tell
    the identifiers apart: there are two different calls of Get that make
    the same request. *)
Theorem request_determines_call :
  (forall (i1 i2 : Invocation) (api : API),
      preconditions i1 = true ->
      preconditions i2 = true ->
      no_slash (account_of i1) = true ->
      no_slash (account_of i2) = true ->
      calls (snd (run i1 api)) = calls (snd (run i2 api)) ->
      i1 = i2)
  /\ (exists rc1 id1 rc2 id2,
         Get rc1 id1 <> Get rc2 id2
         /\ preconditions (Get rc1 id1) = true
         /\ preconditions (Get rc2 id2) = true
         /\ forall api : API,
             calls (snd (run (Get rc1 id1) api))
             = calls (snd (run (Get rc2 id2) api))).
Proof.
  split.
  - intros i1 i2 api P1 P2 S1 S2 E.
    rewrite !run_receiver, P1, P2 in E. cbn [calls] in E.
    apply app_inv_head in E. injection E as E.
    destruct i1 as [[a1] p1 | [a1] p1 | [a1] id1 | [a1] p1 | [a1] id1];
      destruct i2 as [[a2] p2 | [a2] p2 | [a2] id2 | [a2] p2 | [a2] id2];
      cbn [table_request account_of Identifier] in *;
      pose proof (f_equal req_method E) as Em;
      pose proof (f_equal req_uri E) as Eu;
      pose proof (f_equal req_params E) as Ep;
      cbn [req_method req_uri req_params] in Em, Eu, Ep;
      try discriminate Em; try discriminate Ep; clear E Em.
    + rewrite (configs_path_inj a1 a2 S1 S2 Eu). now destruct p1, p2.
    + now contradiction (configs_path_not_config a1 a2 id2 S1 S2).
    + rewrite (configs_path_inj a1 a2 S1 S2 Eu). now injection Ep as ->.
    + symmetry in Eu. now contradiction (configs_path_not_config a2 a1 id1 S2 S1).
    + now destruct (config_path_inj a1 a2 id1 id2 S1 S2 Eu) as [-> ->].
    + destruct (config_path_inj a1 a2 _ _ S1 S2 Eu) as [-> _].
      now injection Ep as ->.
    + now destruct (config_path_inj a1 a2 id1 id2 S1 S2 Eu) as [-> ->].
  - exists {| Identifier := "x" |}, "y/hyperdrive/configs/z",
      {| Identifier := "x/hyperdrive/configs/y" |}, "z".
    split; [discriminate |]. split; [reflexivity |]. split; [reflexivity |].
    intros api. now rewrite !run_receiver.
Qed.

End Paths.

(** * The further properties at work *)

Lemma error_taxonomy_witness :
  preconditions (Get acct "h1") = true
  /\ is_delete (Get acct "h1") = false
  /\ snd (@reply (stub (truncated_body, None)) (Get acct "h1")
            (fresh (truncated_body, None))) = None
  /\ exists je,
      @decode_failure example_package (Get acct "h1")
        (fst (@reply (stub (truncated_body, None)) (Get acct "h1")
                (fresh (truncated_body, None)))) = Some je.
Proof.
  exact (proj1 (@error_taxonomy example_package (stub (truncated_body, None))
                  (Get acct "h1") (fresh (truncated_body, None)))
           (Errorf "error unmarshalling the JSON response" (ErrJSON SyntaxError))
           eq_refl).
Defined.

Lemma nil_error_iff_witness :
  fst (@run example_package (stub (get_body, None)) (Get acct "h1")
         (fresh (get_body, None))) = None.
Proof.
  apply (proj2 (@nil_error_iff example_package (stub (get_body, None))
                  (Get acct "h1") (fresh (get_body, None)))).
  repeat split.
Defined.

Lemma cause_is_kept_witness :
  exists e,
    fst (@run example_package (stub ("", Some "boom")) (Delete acct "h1")
           (fresh ("", Some "boom"))) = Some e
    /\ In (@ErrClient (stub ("", Some "boom")) "boom") (chain e).
Proof.
  exact (proj1 (@cause_is_kept example_package (stub ("", Some "boom"))
                  (Delete acct "h1") (fresh ("", Some "boom")) eq_refl)
           ("boom" : @Failure (stub ("", Some "boom"))) eq_refl).
Defined.

Lemma config_round_trip_witness :
  Unmarshal_HyperdriveConfig (Marshal_HyperdriveConfig sample_config)
    HyperdriveConfig.zero = Ok sample_config.
Proof.
  exact (proj1 (config_round_trip sample_config eq_refl eq_refl)).
Defined.

Lemma request_body_as_config_witness :
  exists body,
    request_body (ParamsCreate create_params) = Some body
    /\ Unmarshal_HyperdriveConfig body HyperdriveConfig.zero
       = Ok (HyperdriveConfig.mk "" "db1"
               (HyperdriveConfigOrigin.mk "postgres" "db.example.com" 5432
                  "postgres" "u")
               HyperdriveConfigCaching.zero).
Proof.
  exact (proj1 request_body_as_config create_params eq_refl eq_refl eq_refl
           eq_refl eq_refl).
Defined.

Lemma encoded_result_is_returned_witness :
  fst (@ListHyperdriveConfigs example_package
         (stub (list_envelope [sample_config; only_id "a2"], None)) acct tt
         (fresh (list_envelope [sample_config; only_id "a2"], None)))
  = (Some [sample_config; only_id "a2"], None).
Proof.
  assert (Hacct : Identifier acct <> "") by discriminate.
  exact (proj1 (@encoded_result_is_returned example_package
                  (stub (list_envelope [sample_config; only_id "a2"], None))
                  acct
                  (fresh (list_envelope [sample_config; only_id "a2"], None))
                  Hacct)
           tt [sample_config; only_id "a2"] eq_refl eq_refl eq_refl).
Defined.

Lemma numbers_are_cut_to_size_witness :
  fst (@GetHyperdriveConfig example_package
         (stub (config_envelope big_port_config, None)) acct "h2"
         (fresh (config_envelope big_port_config, None)))
  = (HyperdriveConfig.mk "h2" "db2"
       (HyperdriveConfigOrigin.mk "" "" (- 2 ^ 63) "" "")
       HyperdriveConfigCaching.zero, None)
  /\ exists je,
      fst (@GetHyperdriveConfig example_package
             (stub (config_envelope long_port_config, None)) acct "h3"
             (fresh (config_envelope long_port_config, None)))
      = (HyperdriveConfig.zero,
         Some (Errorf "error unmarshalling the JSON response" (ErrJSON je))).
Proof.
  assert (Hacct : Identifier acct <> "") by discriminate.
  split.
  - exact (proj1 (@numbers_are_cut_to_size example_package
                    (stub (config_envelope big_port_config, None)) acct
                    (fresh (config_envelope big_port_config, None)) Hacct)
             "h2" big_port_config ltac:(discriminate) eq_refl eq_refl).
  - exact (proj1 (@numbers_are_cut_to_size example_package
                    (stub (config_envelope long_port_config, None)) acct
                    (fresh (config_envelope long_port_config, None)) Hacct)
             "h3" long_port_config ltac:(discriminate) eq_refl eq_refl).
Defined.

Lemma absent_result_is_zero_witness :
  fst (@GetHyperdriveConfig example_package (stub (no_result_body, None)) acct
         "h1" (fresh (no_result_body, None)))
  = (HyperdriveConfig.zero, None)
  /\ fst (@ListHyperdriveConfigs example_package (stub (no_result_body, None))
            acct tt (fresh (no_result_body, None)))
     = (None, None).
Proof.
  assert (Hacct : Identifier acct <> "") by discriminate.
  assert (Hms : forall k v,
             In (k, v) [("success", JBool true)] ->
             is_field "result" k = true -> v = JNull).
  { intros k v [[= <- <-] | []]. discriminate. }
  pose proof (@absent_result_is_zero example_package
                (stub (no_result_body, None)) acct
                (fresh (no_result_body, None)) no_result_body
                [("success", JBool true)] Hacct eq_refl Hms)
    as (HL & _ & HG & _).
  split.
  - apply (HG "h1"); [discriminate | reflexivity | reflexivity].
  - apply (HL tt); reflexivity.
Defined.

Lemma request_determines_call_witness :
  Get acct "h1" = Get {| Identifier := "acc1" |} "h1".
Proof.
  exact (proj1 (@request_determines_call example_package (stub ("", None)))
           (Get acct "h1") (Get {| Identifier := "acc1" |} "h1")
           (fresh ("", None)) eq_refl eq_refl eq_refl eq_refl eq_refl).
Defined.
